(** * Bounded buffers of the multithreading simulator (src/main.py)

    A shallow embedding of [MonitorBuffer], [SemaphoreBuffer] and of the
    counters of [FullSimulatorC].  Every blocking call is cut into the
    atomic steps a Python thread takes between two points where another
    thread may run; a scheduler (a list of actions) interleaves the steps
    of the calls in flight.  Running one call alone, step after step,
    gives the sequential reading of the same code. *)

From Stdlib Require Import ZArith String Ascii.
From stdpp Require Import base tactics option list strings pretty gmap.

Local Open Scope string_scope.
Local Open Scope Z_scope.
Local Open Scope list_scope.

(** Items are the labels the producers build ([f"{name}-{item_id}"]). *)
Definition Item := string.

(** What a call hands back: [produce] returns [True]/[False], [consume]
    returns the item or [None]. *)
Inductive result :=
| RBool (accepted : bool)
| RItem (item : option Item).

(** ** threading.Semaphore

    A counter.  [Semaphore(value)] raises [ValueError] for a negative
    value; [acquire(timeout=0.2)] takes a permit when one is there and
    reports a timeout otherwise; [release()] adds one and never fails
    (so the [try/except] around it in the source never fires). *)
Module Semaphore.
Abbreviation t := Z.

Definition init (value : Z) : option t :=
  if bool_decide (value < 0) then None else Some value.

Definition acquire (s : t) : option t :=
  if bool_decide (0 < s) then Some (s - 1) else None.

Definition release (s : t) : t := s + 1.
End Semaphore.

(** ** The interface both buffers implement

    [bb_step stop pc b] is one atomic step of the call whose program
    point is [pc], on the buffer [b], with [stop] the value
    [stop_event.is_set()] has at that moment. *)
Class BoundedBuffer (B PC : Type) := {
  bb_step : bool -> PC -> B -> PC * B;
  bb_produce : Item -> PC;
  bb_consume : PC;
  bb_returned : PC -> option result;
  bb_q : B -> list Item;
  bb_capacity : B -> Z;
}.

(** ** MonitorBuffer (src/main.py, lines 45-74) *)
Module MonitorBuffer.

(** [lock] is [true] while some thread holds [self.lock].  The two
    conditions share that lock; a [wait(timeout=0.2)] gives the lock
    up and takes it again when it wakes, by [notify] or by timeout, so
    [notify] adds no behaviour the timeout does not already allow. *)
Record t := mk { capacity : Z; q : list Item; lock : bool }.

Definition init (capacity : Z) : t :=
  {| capacity := capacity; q := []; lock := false |}.

Inductive pc :=
| P_with (item : Item)    (* produce: at [with self.lock] *)
| P_while (item : Item)   (* produce: lock held, at the [while] test *)
| P_wait (item : Item)    (* produce: inside [not_full.wait], lock given up *)
| C_with                  (* consume: at [with self.lock] *)
| C_while                 (* consume: lock held, at the [while] test *)
| C_wait                  (* consume: inside [not_empty.wait] *)
| Ret (r : result).

Definition produce (item : Item) : pc := P_with item.
Definition consume : pc := C_with.

Definition returned (p : pc) : option result :=
  match p with Ret r => Some r | _ => None end.

Definition set_lock (l : bool) (b : t) : t :=
  {| capacity := capacity b; q := q b; lock := l |}.

Definition set_q (q' : list Item) (b : t) : t :=
  {| capacity := capacity b; q := q'; lock := lock b |}.

Definition step (stop : bool) (p : pc) (b : t) : pc * t :=
  match p with
  | P_with item =>
      if lock b then (P_with item, b) else (P_while item, set_lock true b)
  | P_while item =>
      if bool_decide (Z.of_nat (length (q b)) = capacity b) then
        if stop then (Ret (RBool false), set_lock false b)
        else (P_wait item, set_lock false b)
      else (Ret (RBool true), set_lock false (set_q (q b ++ [item]) b))
  | P_wait item =>
      if lock b then (P_wait item, b) else (P_while item, set_lock true b)
  | C_with =>
      if lock b then (C_with, b) else (C_while, set_lock true b)
  | C_while =>
      match q b with
      | [] =>
          if stop then (Ret (RItem None), set_lock false b)
          else (C_wait, set_lock false b)
      | item :: rest => (Ret (RItem (Some item)), set_lock false (set_q rest b))
      end
  | C_wait =>
      if lock b then (C_wait, b) else (C_while, set_lock true b)
  | Ret r => (Ret r, b)
  end.

End MonitorBuffer.

#[export] Instance monitor_buffer : BoundedBuffer MonitorBuffer.t MonitorBuffer.pc := {|
  bb_step := MonitorBuffer.step;
  bb_produce := MonitorBuffer.produce;
  bb_consume := MonitorBuffer.consume;
  bb_returned := MonitorBuffer.returned;
  bb_q := MonitorBuffer.q;
  bb_capacity := MonitorBuffer.capacity;
|}.

(** ** SemaphoreBuffer (src/main.py, lines 76-131) *)
Module SemaphoreBuffer.

Record t := mk {
  capacity : Z;
  q : list Item;
  empty : Semaphore.t;
  full : Semaphore.t;
  mutex : Semaphore.t;
}.

Definition init (capacity : Z) : option t :=
  e ← Semaphore.init capacity;
  f ← Semaphore.init 0;
  m ← Semaphore.init 1;
  Some {| capacity := capacity; q := []; empty := e; full := f; mutex := m |}.

Inductive pc :=
| P_loop1 (item : Item)          (* line 94: [while not stop_event.is_set()] *)
| P_acquire_empty (item : Item)  (* line 95: [self.empty.acquire(timeout=0.2)] *)
| P_loop2 (item : Item)          (* line 99 *)
| P_acquire_mutex (item : Item)  (* line 100 *)
| P_release_empty                (* lines 102-104: give the permit back, [return False] *)
| P_append (item : Item)         (* line 106 *)
| P_release_mutex                (* line 107 *)
| P_release_full                 (* lines 109-110 *)
| C_loop1                        (* line 113 *)
| C_acquire_full                 (* line 114 *)
| C_loop2                        (* line 118 *)
| C_acquire_mutex                (* line 119 *)
| C_release_full                 (* lines 121-123: give the permit back, [return None] *)
| C_pop                          (* lines 125-127 *)
| C_release_mutex (item : option Item)  (* line 128 *)
| C_release_empty (item : option Item)  (* lines 130-131 *)
| Ret (r : result).

Definition produce (item : Item) : pc := P_loop1 item.
Definition consume : pc := C_loop1.

Definition returned (p : pc) : option result :=
  match p with Ret r => Some r | _ => None end.

Definition set_q (q' : list Item) (b : t) : t :=
  {| capacity := capacity b; q := q'; empty := empty b; full := full b; mutex := mutex b |}.
Definition set_empty (e : Semaphore.t) (b : t) : t :=
  {| capacity := capacity b; q := q b; empty := e; full := full b; mutex := mutex b |}.
Definition set_full (f : Semaphore.t) (b : t) : t :=
  {| capacity := capacity b; q := q b; empty := empty b; full := f; mutex := mutex b |}.
Definition set_mutex (m : Semaphore.t) (b : t) : t :=
  {| capacity := capacity b; q := q b; empty := empty b; full := full b; mutex := m |}.

Definition step (stop : bool) (p : pc) (b : t) : pc * t :=
  match p with
  | P_loop1 item =>
      if stop then (Ret (RBool false), b) else (P_acquire_empty item, b)
  | P_acquire_empty item =>
      match Semaphore.acquire (empty b) with
      | Some e => (P_loop2 item, set_empty e b)
      | None => (P_loop1 item, b)
      end
  | P_loop2 item =>
      if stop then (P_release_empty, b) else (P_acquire_mutex item, b)
  | P_acquire_mutex item =>
      match Semaphore.acquire (mutex b) with
      | Some m => (P_append item, set_mutex m b)
      | None => (P_loop2 item, b)
      end
  | P_release_empty =>
      (Ret (RBool false), set_empty (Semaphore.release (empty b)) b)
  | P_append item => (P_release_mutex, set_q (q b ++ [item]) b)
  | P_release_mutex => (P_release_full, set_mutex (Semaphore.release (mutex b)) b)
  | P_release_full => (Ret (RBool true), set_full (Semaphore.release (full b)) b)
  | C_loop1 =>
      if stop then (Ret (RItem None), b) else (C_acquire_full, b)
  | C_acquire_full =>
      match Semaphore.acquire (full b) with
      | Some f => (C_loop2, set_full f b)
      | None => (C_loop1, b)
      end
  | C_loop2 =>
      if stop then (C_release_full, b) else (C_acquire_mutex, b)
  | C_acquire_mutex =>
      match Semaphore.acquire (mutex b) with
      | Some m => (C_pop, set_mutex m b)
      | None => (C_loop2, b)
      end
  | C_release_full =>
      (Ret (RItem None), set_full (Semaphore.release (full b)) b)
  | C_pop =>
      match q b with
      | [] => (C_release_mutex None, b)
      | item :: rest => (C_release_mutex (Some item), set_q rest b)
      end
  | C_release_mutex item =>
      (C_release_empty item, set_mutex (Semaphore.release (mutex b)) b)
  | C_release_empty item =>
      (Ret (RItem item), set_empty (Semaphore.release (empty b)) b)
  | Ret r => (Ret r, b)
  end.

End SemaphoreBuffer.

#[export] Instance semaphore_buffer : BoundedBuffer SemaphoreBuffer.t SemaphoreBuffer.pc := {|
  bb_step := SemaphoreBuffer.step;
  bb_produce := SemaphoreBuffer.produce;
  bb_consume := SemaphoreBuffer.consume;
  bb_returned := SemaphoreBuffer.returned;
  bb_q := SemaphoreBuffer.q;
  bb_capacity := SemaphoreBuffer.capacity;
|}.


(** ** Calls in sequence

    A call run alone: [stops] lists what [stop_event.is_set()] answers at
    each step the call takes, one step per element, so any way of setting
    the signal while the call runs is covered. *)
Fixpoint run_alone {B PC} `{!BoundedBuffer B PC}
    (stops : list bool) (p : PC) (b : B) : PC * B :=
  match stops with
  | [] => (p, b)
  | s :: stops' => let '(p', b') := bb_step s p b in run_alone stops' p' b'
  end.

Inductive op :=
| Put (item : Item) (stops : list bool)
| Get (stops : list bool).

Definition op_stops (o : op) : list bool :=
  match o with Put _ stops => stops | Get stops => stops end.

Definition op_entry {B PC} `{!BoundedBuffer B PC} (o : op) : PC :=
  match o with Put item _ => bb_produce item | Get _ => bb_consume end.

(** The log of a sequence of calls made one after the other by a single
    caller: each call with what it returned.  A call that has not
    returned when its steps are used up is logged with [None], and the
    caller, still inside it, makes no further call. *)
Fixpoint seq_run {B PC} `{!BoundedBuffer B PC}
    (ops : list op) (b : B) : list (op * option result) * B :=
  match ops with
  | [] => ([], b)
  | o :: ops' =>
      let '(p, b') := run_alone (op_stops o) (op_entry o) b in
      match bb_returned p with
      | Some r => let '(log, bf) := seq_run ops' b' in ((o, Some r) :: log, bf)
      | None => ([(o, None)], b')
      end
  end.

Definition accepted (e : op * option result) : list Item :=
  match e with
  | (Put item _, Some (RBool true)) => [item]
  | _ => []
  end.

Definition delivered (e : op * option result) : list Item :=
  match e with
  | (Get _, Some (RItem (Some item))) => [item]
  | _ => []
  end.

Definition complete (log : list (op * option result)) : bool :=
  forallb (fun e => match snd e with Some _ => true | None => false end) log.

(** Calls made under a signal that only changes between calls: [CStop]
    sets it, and every later call sees it set at each of its [fuel]
    steps. *)
Inductive call := CPut (item : Item) | CGet | CStop.

Fixpoint ops_of (fuel : nat) (stop : bool) (cs : list call) : list op :=
  match cs with
  | [] => []
  | CPut item :: cs' => Put item (replicate fuel stop) :: ops_of fuel stop cs'
  | CGet :: cs' => Get (replicate fuel stop) :: ops_of fuel stop cs'
  | CStop :: cs' => ops_of fuel true cs'
  end.

(** What a caller can see of a log entry: the flag the call ran under
    does not matter, only the kind of call and its outcome. *)
Definition outcomes (log : list (op * option result)) : list (option result) :=
  snd <$> log.

(** [true] when the call ran with the signal set from its first step. *)
Definition under_stop (o : op) : bool :=
  match op_stops o with s :: _ => s | [] => false end.

Definition failed (r : option result) : bool :=
  match r with
  | Some (RBool false) | Some (RItem None) => true
  | _ => false
  end.

(** Every call of the log that ran under a set signal failed. *)
Definition cancels_under_stop (log : list (op * option result)) : bool :=
  forallb (fun e => implb (under_stop (fst e)) (failed (snd e))) log.

(** ** Calls in parallel

    The calls in flight form a pool, a call's index in it is its thread
    id.  The environment may start a call, set the stop signal (it is
    never cleared while a buffer lives) or let one thread take a step. *)
Record world (B PC : Type) := World {
  w_stop : bool;
  w_buf : B;
  w_pool : list PC;
}.
Arguments World {B PC}.
Arguments w_stop {B PC}.
Arguments w_buf {B PC}.
Arguments w_pool {B PC}.

Inductive action :=
| CallProduce (item : Item)
| CallConsume
| SetStop
| Run (tid : nat).

Definition exec1 {B PC} `{!BoundedBuffer B PC}
    (w : world B PC) (a : action) : world B PC :=
  match a with
  | CallProduce item => World (w_stop w) (w_buf w) (w_pool w ++ [bb_produce item])
  | CallConsume => World (w_stop w) (w_buf w) (w_pool w ++ [bb_consume])
  | SetStop => World true (w_buf w) (w_pool w)
  | Run tid =>
      match w_pool w !! tid with
      | Some p =>
          let '(p', b') := bb_step (w_stop w) p (w_buf w) in
          World (w_stop w) b' (<[tid := p']> (w_pool w))
      | None => w
      end
  end.

Definition exec {B PC} `{!BoundedBuffer B PC}
    (sched : list action) (w : world B PC) : world B PC :=
  foldl exec1 w sched.

Definition fresh {B PC} (stop : bool) (b : B) : world B PC := World stop b [].

(** No call in flight. *)
Definition quiescent {B PC} `{!BoundedBuffer B PC} (w : world B PC) : bool :=
  forallb (fun p => bool_decide (is_Some (bb_returned p))) (w_pool w).

(** Sum of a weight over the pool. *)
Definition total {PC} (f : PC -> Z) (pool : list PC) : Z :=
  foldr (fun p acc => f p + acc) 0 pool.

(** Permit accounting for [SemaphoreBuffer]: which program points hold
    what. *)
Module Permits.
Import SemaphoreBuffer.

(** A permit taken from [empty] or [full] and not yet given to either. *)
Definition held (p : pc) : Z :=
  match p with
  | P_loop2 _ | P_acquire_mutex _ | P_release_empty | P_append _
  | P_release_mutex | P_release_full
  | C_loop2 | C_acquire_mutex | C_release_full | C_pop
  | C_release_mutex _ | C_release_empty _ => 1
  | _ => 0
  end.

(** An item in the queue whose [full] permit is not in the semaphore: a
    consumer holds it and has not popped yet, or a producer has appended
    and not yet released it. *)
Definition claimed (p : pc) : Z :=
  match p with
  | C_loop2 | C_acquire_mutex | C_release_full | C_pop
  | P_release_mutex | P_release_full => 1
  | _ => 0
  end.

(** Inside the critical section guarded by [mutex]. *)
Definition critical (p : pc) : Z :=
  match p with
  | P_append _ | P_release_mutex | C_pop | C_release_mutex _ => 1
  | _ => 0
  end.

(** A consumer past its pop that carries [None]: the defensive branch of
    line 126 was taken. *)
Definition popped_nothing (p : pc) : bool :=
  match p with
  | C_release_mutex None | C_release_empty None => true
  | _ => false
  end.

End Permits.

(** ** The session counters of FullSimulatorC (src/main.py, lines 136-442) *)
Module FullSimulatorC.

Inductive buffer :=
| MonitorModel (b : MonitorBuffer.t)
| SemaphoreModel (b : SemaphoreBuffer.t).

Definition buffer_q (m : buffer) : list Item :=
  match m with
  | MonitorModel b => bb_q b
  | SemaphoreModel b => bb_q b
  end.

(** Line 354: [MonitorBuffer(self.capacity) if mode == "Monitor" else
    SemaphoreBuffer(self.capacity)]; [None] when the constructor raises. *)
Definition new_buffer (mode : string) (capacity : Z) : option buffer :=
  if String.eqb mode "Monitor"
  then Some (MonitorModel (MonitorBuffer.init capacity))
  else SemaphoreModel <$> SemaphoreBuffer.init capacity.

Definition call (o : op) (m : buffer) : option result * buffer :=
  match m with
  | MonitorModel b =>
      let '(p, b') := run_alone (op_stops o) (op_entry o) b in
      (bb_returned p, MonitorModel b')
  | SemaphoreModel b =>
      let '(p, b') := run_alone (op_stops o) (op_entry o) b in
      (bb_returned p, SemaphoreModel b')
  end.

Record t := mk {
  capacity : Z;
  running : bool;
  stop_event : bool;
  produced_count : Z;
  consumed_count : Z;
  peak_buffer : Z;
  buffer_model : option buffer;   (* [None]: the attribute is not set yet *)
}.

(** [__init__], lines 143-152. *)
Definition init : t :=
  {| capacity := 5; running := false; stop_event := false;
     produced_count := 0; consumed_count := 0; peak_buffer := 0;
     buffer_model := None |}.

(** [start], lines 345-366.  When the constructor raises, the assignment
    to [buffer_model] does not happen. *)
Definition start (mode : string) (s : t) : t :=
  if running s then s
  else
    {| capacity := capacity s; running := true; stop_event := false;
       produced_count := produced_count s; consumed_count := consumed_count s;
       peak_buffer := peak_buffer s;
       buffer_model :=
         match new_buffer mode (capacity s) with
         | Some m => Some m
         | None => buffer_model s
         end |}.

(** [stop], lines 368-374. *)
Definition stop (s : t) : t :=
  if running s then
    {| capacity := capacity s; running := false; stop_event := true;
       produced_count := produced_count s; consumed_count := consumed_count s;
       peak_buffer := peak_buffer s; buffer_model := buffer_model s |}
  else s.

(** [reset_all], lines 376-386. *)
Definition reset_all (s : t) : t :=
  {| capacity := capacity s; running := running s; stop_event := true;
     produced_count := 0; consumed_count := 0; peak_buffer := 0;
     buffer_model := buffer_model s |}.

Definition set_buffer (m : buffer) (s : t) : t :=
  {| capacity := capacity s; running := running s; stop_event := stop_event s;
     produced_count := produced_count s; consumed_count := consumed_count s;
     peak_buffer := peak_buffer s; buffer_model := Some m |}.

(** One pass through the body of the loop of [producer_worker] (lines
    396-414), from the call of [produce] to the next quiescent point.
    [None]: the call has not returned, the pass is not over. *)
Definition producer_pass (label : Item) (stops : list bool) (s : t) : option t :=
  m ← buffer_model s;
  let '(r, m') := call (Put label stops) m in
  match r with
  | Some (RBool true) =>
      Some {| capacity := capacity s; running := running s;
              stop_event := stop_event s;
              produced_count := produced_count s + 1;
              consumed_count := consumed_count s;
              peak_buffer := Z.max (peak_buffer s) (Z.of_nat (length (buffer_q m')));
              buffer_model := Some m' |}
  | Some (RBool false) => Some (set_buffer m' s)
  | _ => None
  end.

(** One pass through the body of the loop of [consumer_worker] (lines
    424-438). *)
Definition consumer_pass (stops : list bool) (s : t) : option t :=
  m ← buffer_model s;
  let '(r, m') := call (Get stops) m in
  match r with
  | Some (RItem (Some _)) =>
      Some {| capacity := capacity s; running := running s;
              stop_event := stop_event s;
              produced_count := produced_count s;
              consumed_count := consumed_count s + 1;
              peak_buffer := peak_buffer s;
              buffer_model := Some m' |}
  | Some (RItem None) => Some (set_buffer m' s)
  | _ => None
  end.

Inductive event :=
| EvStart (mode : string)
| EvStop
| EvResetAll
| EvProduce (label : Item) (stops : list bool)
| EvConsume (stops : list bool).

Definition is_pass (e : event) : bool :=
  match e with EvProduce _ _ | EvConsume _ => true | _ => false end.

Definition handle (e : event) (s : t) : option t :=
  match e with
  | EvStart mode => Some (start mode s)
  | EvStop => Some (stop s)
  | EvResetAll => Some (reset_all s)
  | EvProduce label stops => producer_pass label stops s
  | EvConsume stops => consumer_pass stops s
  end.

(** The simulator after a history of button presses and worker passes,
    each pass run to its end before the next event. *)
Fixpoint run (evs : list event) (s : t) : option t :=
  match evs with
  | [] => Some s
  | e :: evs' => s' ← handle e s; run evs' s'
  end.

(** [len(self.buffer_model.q)], 0 while there is no buffer. *)
Definition occupancy (s : t) : Z :=
  match buffer_model s with
  | Some m => Z.of_nat (length (buffer_q m))
  | None => 0
  end.

End FullSimulatorC.

(** ** Colours (src/main.py, lines 19-40) *)

(** What [rgb_to_hex] is given: a colour string or a triple of
    channels. *)
Inductive colour :=
| Named (s : string)
| RGB (r g b : Z).

Definition hex_digit (d : Z) : ascii :=
  match d with
  | 0 => "0" | 1 => "1" | 2 => "2" | 3 => "3" | 4 => "4" | 5 => "5"
  | 6 => "6" | 7 => "7" | 8 => "8" | 9 => "9" | 10 => "a" | 11 => "b"
  | 12 => "c" | 13 => "d" | 14 => "e" | 15 => "f" | _ => "?"
  end%char.

(** The digits of [n], which is not negative, in base 16, in front of
    [acc]. *)
Fixpoint hex_go (fuel : nat) (n : Z) (acc : string) : string :=
  match fuel with
  | O => acc
  | S fuel' =>
      let acc' := String (hex_digit (n mod 16)) acc in
      if n <? 16 then acc' else hex_go fuel' (n / 16) acc'
  end.

Definition hex (n : Z) : string := hex_go (S (Z.to_nat n)) n "".

(** [%02x]: lower-case digits, filled with zeros to two characters; the
    sign of a negative number counts as one of them. *)
Definition fmt_02x (n : Z) : string :=
  if n <? 0 then "-" +:+ hex (- n)
  else
    let s := hex n in
    if (String.length s <? 2)%nat then "0" +:+ s else s.

(** Lines 19-23, for channels that are integers. *)
Definition rgb_to_hex (rgb : colour) : string :=
  match rgb with
  | Named s => s
  | RGB r g b => "#" +:+ fmt_02x r +:+ fmt_02x g +:+ fmt_02x b
  end.

Module NEON.

Definition slot_empty : string := "#1f2428".
Definition slot_fill : string := "#238636".
Definition muted : string := "#8b949e".
Definition producer_neon : colour := RGB 0 210 255.
Definition consumer_neon : colour := RGB 255 70 120.
Definition badge_ok : colour := RGB 102 187 106.
Definition badge_bad : colour := RGB 239 83 80.
Definition warning : colour := RGB 255 196 0.

End NEON.

(** ** Workers and the session (src/main.py, lines 345-466, 498-564, 592-616)

    The simulator with its worker threads and the GUI thread.  Of the tk
    widgets the state keeps the text of the Finished badge, the text and
    colour of the thread labels and the colours of the buffer slots;
    calls that draw anything else ([log], [clear_log], [update_counts],
    [update_badge], the canvas items of [setup_thread_ui] and
    [clear_visuals]) leave it as it is.  What the workers hand to the
    GUI thread through [gui_q] is kept, as data.

    The threads interleave statement by statement: a step of a worker
    is one call of [thread_state_change], the test of its loop, the
    call of the buffer with the bookkeeping that follows it, or its
    last two lines.  [start], [stop] and a tick of the GUI thread are
    one step each; [reset_all] lets the workers run during its sleep. *)
Module Session.

Inductive task :=
| TLog (tag msg : string)
| TSlotUpdate (n : Z)
| TSetThread (name state : string).

Inductive role := Producer | Consumer.

(** Where a worker is in [producer_worker] / [consumer_worker]. *)
Inductive wpc :=
| W_enter      (* line 393 / 422: about to report Running *)
| W_guard      (* line 395 / 423: at the [while] test *)
| W_announce   (* lines 396-400 / 424-426: slept, about to report Waiting *)
| W_call       (* lines 402-412 / 428-437: the call and what follows it *)
| W_resume     (* lines 413-414 / 438: about to report Running again *)
| W_leave      (* line 416 / 440: about to report Stopped *)
| W_report     (* lines 417-418 / 441-442: last log and [check_finished] *)
| W_done.

(** [w_item_id] is the local [item_id] of a producer (line 394); a
    consumer has none and never reads the field. *)
Record worker := Worker {
  w_role : role;
  w_pid : Z;
  w_item_id : Z;
  w_pc : wpc;
}.

Definition at_pc (p : wpc) (wk : worker) : worker :=
  {| w_role := w_role wk; w_pid := w_pid wk; w_item_id := w_item_id wk; w_pc := p |}.

Definition with_item_id (n : Z) (wk : worker) : worker :=
  {| w_role := w_role wk; w_pid := w_pid wk; w_item_id := n; w_pc := w_pc wk |}.

(** [f"P{pid}"], [f"C{cid}"]. *)
Definition name_of (r : role) (pid : Z) : string :=
  match r with Producer => "P" | Consumer => "C" end +:+ pretty pid.

Definition name (wk : worker) : string := name_of (w_role wk) (w_pid wk).

(** [f"{name}-{item_id}"]. *)
Definition label_of (pid item_id : Z) : string :=
  name_of Producer pid +:+ "-" +:+ pretty item_id.

Definition label (wk : worker) : string := label_of (w_pid wk) (w_item_id wk).

(** A thread label: its text and its colour. *)
Definition widget : Type := string * string.

(** [thread_states] and [thread_labels] are [None] until
    [setup_thread_ui] creates the attributes.  [workers] holds every
    worker thread ever started, its index is the thread's identity. *)
Record t := mk {
  sim : FullSimulatorC.t;
  thread_states : option (gmap string string);
  thread_labels : option (gmap string widget);
  timeline_data : gmap string (list (string * Z));
  slot_colours : list string;
  gui_q : list task;
  done_badge : string;
  workers : list worker;
}.

(** [__init__]: the slots are drawn empty, lines 243-250. *)
Definition init : t :=
  {| sim := FullSimulatorC.init; thread_states := None; thread_labels := None;
     timeline_data := ∅;
     slot_colours :=
       (fun _ => NEON.slot_empty) <$>
         seqZ 0 (FullSimulatorC.capacity FullSimulatorC.init);
     gui_q := []; done_badge := ""; workers := [] |}.

Definition set_sim (x : FullSimulatorC.t) (st : t) : t :=
  {| sim := x; thread_states := thread_states st; thread_labels := thread_labels st;
     timeline_data := timeline_data st; slot_colours := slot_colours st;
     gui_q := gui_q st; done_badge := done_badge st; workers := workers st |}.

Definition set_done_badge (x : string) (st : t) : t :=
  {| sim := sim st; thread_states := thread_states st; thread_labels := thread_labels st;
     timeline_data := timeline_data st; slot_colours := slot_colours st;
     gui_q := gui_q st; done_badge := x; workers := workers st |}.

Definition set_workers (x : list worker) (st : t) : t :=
  {| sim := sim st; thread_states := thread_states st; thread_labels := thread_labels st;
     timeline_data := timeline_data st; slot_colours := slot_colours st;
     gui_q := gui_q st; done_badge := done_badge st; workers := x |}.

Definition set_gui_q (x : list task) (st : t) : t :=
  {| sim := sim st; thread_states := thread_states st; thread_labels := thread_labels st;
     timeline_data := timeline_data st; slot_colours := slot_colours st;
     gui_q := x; done_badge := done_badge st; workers := workers st |}.

(** [self.gui_q.put(task)]. *)
Definition put (x : task) (st : t) : t := set_gui_q (gui_q st ++ [x]) st.

(** [thread_state_change], lines 549-554; [now] is the reading of
    [time.time()].  [None]: [self.thread_states] does not exist. *)
Definition thread_state_change (name state : string) (now : Z) (st : t) : option t :=
  ts ← thread_states st;
  Some {| sim := sim st;
          thread_states := Some (<[name := state]> ts);
          thread_labels := thread_labels st;
          timeline_data :=
            <[name := default [] (timeline_data st !! name) ++ [(state, now)]]>
              (timeline_data st);
          slot_colours := slot_colours st;
          gui_q := gui_q st ++ [TSetThread name state];
          done_badge := done_badge st;
          workers := workers st |}.

(** [check_finished], lines 592-601. *)
Definition check_finished (st : t) : t :=
  match thread_states st with
  | None => st
  | Some ts =>
      let all_stopped := bool_decide (map_Forall (fun _ s => s = "Stopped") ts) in
      let buffer_empty :=
        match FullSimulatorC.buffer_model (sim st) with
        | Some m => bool_decide (length (FullSimulatorC.buffer_q m) = 0%nat)
        | None => true
        end in
      set_done_badge
        (if all_stopped && buffer_empty then "✔ Simulation Finished" else "") st
  end.

(** The pids [1 .. n] of [for i in range(n): ... i+1]. *)
Definition pids (n : Z) : list Z :=
  (fun i : nat => Z.of_nat i + 1) <$> seq 0 (Z.to_nat n).

(** The names in the order [setup_thread_ui] makes them up. *)
Definition roster (p c : Z) : list (role * Z) :=
  (pair Producer <$> pids p) ++ (pair Consumer <$> pids c).

(** What [update_thread_label] writes on a label, lines 560-562; the
    labels are made with the text and colour of Ready, lines 529, 540. *)
Definition label_colour (state : string) : string :=
  if String.eqb state "Running" then "#1ed760"
  else if String.eqb state "Waiting" then "#f7d33e"
  else if String.eqb state "Stopped" then "#9a9a9a"
  else NEON.muted.

Definition label_for (name state : string) : widget :=
  (name +:+ ": " +:+ state, label_colour state).

(** [setup_thread_ui], lines 515-547: fresh [thread_labels] and
    [thread_states] with every worker Ready, [timeline_data] cleared and
    given an empty list per worker. *)
Definition setup_thread_ui (p c : Z) (st : t) : t :=
  {| sim := sim st;
     thread_states :=
       Some (foldl (fun m rp => <[name_of rp.1 rp.2 := "Ready"]> m) ∅ (roster p c));
     thread_labels :=
       Some (foldl (fun m rp =>
                      <[name_of rp.1 rp.2 := (name_of rp.1 rp.2 +:+ ": Ready", NEON.muted)]> m)
               ∅ (roster p c));
     timeline_data :=
       foldl (fun m rp => <[name_of rp.1 rp.2 := []]> m) ∅ (roster p c);
     slot_colours := slot_colours st;
     gui_q := gui_q st; done_badge := done_badge st; workers := workers st |}.

(** [start], lines 345-366, with [p] and [c] the values of the two
    spin boxes.  When the buffer constructor raises, nothing after it
    happens. *)
Definition start (mode : string) (p c : Z) (st : t) : t :=
  if FullSimulatorC.running (sim st) then st
  else
    match FullSimulatorC.new_buffer mode (FullSimulatorC.capacity (sim st)) with
    | None => set_sim (FullSimulatorC.start mode (sim st)) st
    | Some _ =>
        let st1 := setup_thread_ui p c (set_sim (FullSimulatorC.start mode (sim st)) st) in
        set_workers
          (workers st1 ++
             ((fun rp : role * Z => Worker rp.1 rp.2 1 W_enter) <$> roster p c))
          st1
    end.

(** [stop], lines 368-374. *)
Definition stop (st : t) : t :=
  if FullSimulatorC.running (sim st)
  then check_finished (set_sim (FullSimulatorC.stop (sim st)) st)
  else st.

(** [update_slots], lines 498-510: slot [i] is painted filled when
    [i < n]. *)
Definition update_slots (n : Z) (st : t) : t :=
  {| sim := sim st; thread_states := thread_states st; thread_labels := thread_labels st;
     timeline_data := timeline_data st;
     slot_colours :=
       (fun i => if i <? n then NEON.slot_fill else NEON.slot_empty) <$>
         seqZ 0 (FullSimulatorC.capacity (sim st));
     gui_q := gui_q st; done_badge := done_badge st; workers := workers st |}.

(** [clear_visuals], lines 606-616. *)
Definition clear_visuals (st : t) : t :=
  {| sim := sim st; thread_states := thread_states st; thread_labels := thread_labels st;
     timeline_data := ∅;
     slot_colours :=
       (fun _ => NEON.slot_empty) <$> seqZ 0 (FullSimulatorC.capacity (sim st));
     gui_q := gui_q st; done_badge := done_badge st; workers := workers st |}.

(** [update_thread_label], lines 556-564; [None]: [self.thread_labels]
    does not exist. *)
Definition update_thread_label (name state : string) (st : t) : option t :=
  labels ← thread_labels st;
  match labels !! name with
  | None => Some st
  | Some _ =>
      Some {| sim := sim st; thread_states := thread_states st;
              thread_labels := Some (<[name := label_for name state]> labels);
              timeline_data := timeline_data st; slot_colours := slot_colours st;
              gui_q := gui_q st; done_badge := done_badge st; workers := workers st |}
  end.

(** One task of [process_gui_queue], lines 455-465. *)
Definition do_task (x : task) (st : t) : option t :=
  match x with
  | TLog _ _ => Some st
  | TSlotUpdate n => Some (update_slots n st)
  | TSetThread name state => update_thread_label name state st
  end.

(** The loop of [process_gui_queue], lines 449-465, with room for
    [room] tasks before [processed] reaches 200. *)
Fixpoint process (room : nat) (st : t) : option t :=
  match room with
  | O => Some st
  | S room' =>
      match gui_q st with
      | [] => Some st
      | x :: rest => st' ← do_task x (set_gui_q rest st); process room' st'
      end
  end.

(** [process_gui_queue], lines 447-466: one tick of the GUI thread. *)
Definition process_gui_queue (st : t) : option t := process 200 st.

(** The call of a worker and the lines up to the next report: the
    counters change as in [FullSimulatorC.producer_pass] and
    [consumer_pass].  The call is one step, taken when it can return:
    [None] while it cannot, which leaves the worker where it is, in
    the state Waiting it has reported. *)
Definition call_step (stops : list bool) (wk : worker) (st : t) : option (worker * t) :=
  m ← FullSimulatorC.buffer_model (sim st);
  match w_role wk with
  | Producer =>
      sim' ← FullSimulatorC.producer_pass (label wk) stops (sim st);
      match (FullSimulatorC.call (Put (label wk) stops) m).1 with
      | Some (RBool true) =>
          Some (at_pc W_resume wk,
                put (TSlotUpdate (FullSimulatorC.occupancy sim'))
                  (put (TLog "P" (name wk +:+ " produced " +:+ label wk))
                     (set_sim sim' st)))
      | _ => Some (at_pc W_leave wk, set_sim sim' st)
      end
  | Consumer =>
      sim' ← FullSimulatorC.consumer_pass stops (sim st);
      match (FullSimulatorC.call (Get stops) m).1 with
      | Some (RItem (Some item)) =>
          Some (at_pc W_resume wk,
                put (TSlotUpdate (FullSimulatorC.occupancy sim'))
                  (put (TLog "C" (name wk +:+ " consumed " +:+ item))
                     (set_sim sim' st)))
      | _ => Some (at_pc W_leave wk, set_sim sim' st)
      end
  end.

(** One step of a worker thread.  [now] is the clock reading a
    [thread_state_change] in the step takes, [stops] what the stop
    signal answers during the call of a [W_call] step. *)
Definition worker_step (now : Z) (stops : list bool) (wk : worker) (st : t) :
    option (worker * t) :=
  match w_pc wk with
  | W_enter =>
      st' ← thread_state_change (name wk) "Running" now st;
      Some (with_item_id 1 (at_pc W_guard wk), st')
  | W_guard =>
      if FullSimulatorC.stop_event (sim st)
      then Some (at_pc W_leave wk, st)
      else Some (at_pc W_announce wk, st)
  | W_announce =>
      let msg :=
        match w_role wk with
        | Producer => TLog "P" (name wk +:+ " trying to produce " +:+ label wk)
        | Consumer => TLog "C" (name wk +:+ " trying to consume")
        end in
      st' ← thread_state_change (name wk) "Waiting" now (put msg st);
      Some (at_pc W_call wk, st')
  | W_call => call_step stops wk st
  | W_resume =>
      st' ← thread_state_change (name wk) "Running" now st;
      Some (match w_role wk with
            | Producer => with_item_id (w_item_id wk + 1) (at_pc W_guard wk)
            | Consumer => at_pc W_guard wk
            end, st')
  | W_leave =>
      st' ← thread_state_change (name wk) "Stopped" now st;
      Some (at_pc W_report wk, st')
  | W_report =>
      Some (at_pc W_done wk,
            check_finished (put (TLog "S" (name wk +:+ " stopped")) st))
  | W_done => None
  end.

(** A step of the worker thread [idx], with its clock reading and stop
    observations. *)
Definition move : Type := nat * Z * list bool.

Definition step_worker (mv : move) (st : t) : option t :=
  wk ← workers st !! mv.1.1;
  r ← worker_step mv.1.2 mv.2 wk st;
  Some (set_workers (<[mv.1.1 := r.1]> (workers r.2)) r.2).

Fixpoint run_workers (mvs : list move) (st : t) : option t :=
  match mvs with
  | [] => Some st
  | mv :: mvs' => st' ← step_worker mv st; run_workers mvs' st'
  end.

(** [reset_all], lines 376-386: the stop signal is set, the workers run
    [during] the sleep of line 378, then the visuals and the counters
    are cleared and the Finished badge is blanked. *)
Definition reset_all (during : list move) (st : t) : option t :=
  let sim1 :=
    FullSimulatorC.mk (FullSimulatorC.capacity (sim st)) (FullSimulatorC.running (sim st))
      true (FullSimulatorC.produced_count (sim st)) (FullSimulatorC.consumed_count (sim st))
      (FullSimulatorC.peak_buffer (sim st)) (FullSimulatorC.buffer_model (sim st)) in
  st1 ← run_workers during (set_sim sim1 st);
  Some (set_done_badge ""
          (set_sim (FullSimulatorC.reset_all (sim st1)) (clear_visuals st1))).

Inductive event :=
| EvStart (mode : string) (p c : Z)
| EvStop
| EvResetAll (during : list move)
| EvTick
| EvStep (idx : nat) (now : Z) (stops : list bool).

Definition is_start (e : event) : bool :=
  match e with EvStart _ _ _ => true | _ => false end.

Definition handle (e : event) (st : t) : option t :=
  match e with
  | EvStart mode p c => Some (start mode p c st)
  | EvStop => Some (stop st)
  | EvResetAll during => reset_all during st
  | EvTick => process_gui_queue st
  | EvStep idx now stops => step_worker (idx, now, stops) st
  end.

(** The session after a history of button presses, GUI ticks and
    worker steps. *)
Fixpoint run (evs : list event) (st : t) : option t :=
  match evs with
  | [] => Some st
  | e :: evs' => st' ← handle e st; run evs' st'
  end.

(** The states a worker has reported so far, oldest first. *)
Definition reported (n : string) (st : t) : list string :=
  fst <$> default [] (timeline_data st !! n).

End Session.

(** ** The worker threads, statement by statement
       (src/main.py, lines 391-442 and 549-554)

    [Session] takes a call of [thread_state_change], and the bookkeeping
    that follows a call of the buffer, as one step each.  Here every
    statement of a worker is a step of its own, and a statement that
    reads a shared attribute and writes it back ([produced_count += 1],
    [consumed_count += 1], [peak_buffer = max(...)]) is a read followed
    by a write, so that another thread may run between any two of them.
    A call of the buffer is bound, when it is entered, to the object
    [self.buffer_model] then points to, and changes the queue of that
    object at one statement, under the lock or the mutex: it is taken
    at that statement.  [start] replaces [self.buffer_model]; a call
    that was entered before goes on with the buffer it is bound to.
    The GUI thread is the one of [Session], whose own list of workers
    stays unused. *)
Module Threads.

(** The four calls of [thread_state_change] in a worker: lines 393/422,
    400/426, 413/438 and 416/440. *)
Inductive site := Enter | Waiting | Resume | Leave.

Definition state_of (s : site) : string :=
  match s with
  | Enter | Resume => "Running"
  | Waiting => "Waiting"
  | Leave => "Stopped"
  end.

(** The three statements of [thread_state_change]: line 550, lines
    552-553, line 554. *)
Inductive sub := Table | Timeline | Queue.

Inductive pc :=
| T_change (at_site : site) (k : sub)
| T_guard                 (* line 395 / 423 *)
| T_announce              (* lines 396-399 / 424-425 *)
| T_call                  (* line 402 / 428: [self.buffer_model] is read, the call entered *)
| T_inside (on : option nat)
                          (* inside the call, on the buffer [self.buffer_model]
                             points to ([None]) or on the buffer number [on] of
                             those it no longer points to *)
| T_count_read            (* line 406 / 432: the counter is read *)
| T_count_write (v : Z)   (* line 406 / 432: [v + 1] is written back *)
| T_peak_read             (* line 407: [max(...)] is evaluated *)
| T_peak_write (v : Z)    (* line 407: the value is written *)
| T_log                   (* line 411 / 436 *)
| T_slot                  (* line 412 / 437 *)
| T_report                (* line 417 / 441 *)
| T_check                 (* line 418 / 442 *)
| T_done.

(** [w_item_id] is the local [item_id] of a producer, [w_item] the
    local [item] of a consumer (line 428). *)
Record worker := Worker {
  w_role : Session.role;
  w_pid : Z;
  w_item_id : Z;
  w_item : option Item;
  w_pc : pc;
}.

Definition at_pc (p : pc) (wk : worker) : worker :=
  {| w_role := w_role wk; w_pid := w_pid wk; w_item_id := w_item_id wk;
     w_item := w_item wk; w_pc := p |}.

Definition with_item_id (n : Z) (wk : worker) : worker :=
  {| w_role := w_role wk; w_pid := w_pid wk; w_item_id := n;
     w_item := w_item wk; w_pc := w_pc wk |}.

Definition with_item (x : option Item) (wk : worker) : worker :=
  {| w_role := w_role wk; w_pid := w_pid wk; w_item_id := w_item_id wk;
     w_item := x; w_pc := w_pc wk |}.

Definition name (wk : worker) : string := Session.name_of (w_role wk) (w_pid wk).

Definition label (wk : worker) : string := Session.label_of (w_pid wk) (w_item_id wk).

(** [retired]: the buffers of earlier sessions, which
    [self.buffer_model] no longer points to. *)
Record t := mk {
  gui : Session.t;
  workers : list worker;
  retired : list FullSimulatorC.buffer;
}.

Definition init : t := {| gui := Session.init; workers := []; retired := [] |}.

Definition sim (st : t) : FullSimulatorC.t := Session.sim (gui st).

Definition set_thread_states (ts : gmap string string) (g : Session.t) : Session.t :=
  {| Session.sim := Session.sim g; Session.thread_states := Some ts;
     Session.thread_labels := Session.thread_labels g;
     Session.timeline_data := Session.timeline_data g;
     Session.slot_colours := Session.slot_colours g; Session.gui_q := Session.gui_q g;
     Session.done_badge := Session.done_badge g; Session.workers := Session.workers g |}.

Definition set_timeline_data (tl : gmap string (list (string * Z))) (g : Session.t) :
    Session.t :=
  {| Session.sim := Session.sim g; Session.thread_states := Session.thread_states g;
     Session.thread_labels := Session.thread_labels g;
     Session.timeline_data := tl;
     Session.slot_colours := Session.slot_colours g; Session.gui_q := Session.gui_q g;
     Session.done_badge := Session.done_badge g; Session.workers := Session.workers g |}.

(** The counter a worker of the role [r] keeps. *)
Definition counter (r : Session.role) (s : FullSimulatorC.t) : Z :=
  match r with
  | Session.Producer => FullSimulatorC.produced_count s
  | Session.Consumer => FullSimulatorC.consumed_count s
  end.

Definition set_counter (r : Session.role) (v : Z) (s : FullSimulatorC.t) :
    FullSimulatorC.t :=
  match r with
  | Session.Producer =>
      FullSimulatorC.mk (FullSimulatorC.capacity s) (FullSimulatorC.running s)
        (FullSimulatorC.stop_event s) v (FullSimulatorC.consumed_count s)
        (FullSimulatorC.peak_buffer s) (FullSimulatorC.buffer_model s)
  | Session.Consumer =>
      FullSimulatorC.mk (FullSimulatorC.capacity s) (FullSimulatorC.running s)
        (FullSimulatorC.stop_event s) (FullSimulatorC.produced_count s) v
        (FullSimulatorC.peak_buffer s) (FullSimulatorC.buffer_model s)
  end.

Definition set_peak (v : Z) (s : FullSimulatorC.t) : FullSimulatorC.t :=
  FullSimulatorC.mk (FullSimulatorC.capacity s) (FullSimulatorC.running s)
    (FullSimulatorC.stop_event s) (FullSimulatorC.produced_count s)
    (FullSimulatorC.consumed_count s) v (FullSimulatorC.buffer_model s).

(** Where a worker goes on after a call of [thread_state_change]. *)
Definition after_change (s : site) (wk : worker) : worker :=
  match s with
  | Enter => with_item_id 1 (at_pc T_guard wk)                      (* line 394 *)
  | Waiting => at_pc T_call wk
  | Resume =>
      match w_role wk with
      | Session.Producer => with_item_id (w_item_id wk + 1) (at_pc T_guard wk)  (* line 414 *)
      | Session.Consumer => at_pc T_guard wk
      end
  | Leave => at_pc T_report wk
  end.

(** The call of the buffer a worker is inside of, taken at the
    statement that changes the queue or gives up; [None] while the call
    cannot return. *)
Definition inside_step (stops : list bool) (on : option nat) (wk : worker)
    (g : Session.t) (old : list FullSimulatorC.buffer) :
    option (worker * (Session.t * list FullSimulatorC.buffer)) :=
  m ← match on with
      | None => FullSimulatorC.buffer_model (Session.sim g)
      | Some i => old !! i
      end;
  let keep (m' : FullSimulatorC.buffer) :=
    match on with
    | None => (Session.set_sim (FullSimulatorC.set_buffer m' (Session.sim g)) g, old)
    | Some i => (g, <[i := m']> old)
    end in
  match w_role wk with
  | Session.Producer =>
      let '(r, m') := FullSimulatorC.call (Put (label wk) stops) m in
      match r with
      | Some (RBool true) => Some (at_pc T_count_read wk, keep m')
      | Some (RBool false) => Some (at_pc (T_change Leave Table) wk, keep m')
      | _ => None
      end
  | Session.Consumer =>
      let '(r, m') := FullSimulatorC.call (Get stops) m in
      match r with
      | Some (RItem (Some x)) => Some (with_item (Some x) (at_pc T_count_read wk), keep m')
      | Some (RItem None) => Some (with_item None (at_pc (T_change Leave Table) wk), keep m')
      | _ => None
      end
  end.

(** One statement of a worker outside the buffer.  [now] is the clock
    reading of line 552. *)
Definition statement (now : Z) (wk : worker) (g : Session.t) :
    option (worker * Session.t) :=
  match w_pc wk with
  | T_change s Table =>
      ts ← Session.thread_states g;
      Some (at_pc (T_change s Timeline) wk,
            set_thread_states (<[name wk := state_of s]> ts) g)
  | T_change s Timeline =>
      Some (at_pc (T_change s Queue) wk,
            set_timeline_data
              (<[name wk :=
                   default [] (Session.timeline_data g !! name wk) ++ [(state_of s, now)]]>
                 (Session.timeline_data g)) g)
  | T_change s Queue =>
      Some (after_change s wk, Session.put (Session.TSetThread (name wk) (state_of s)) g)
  | T_guard =>
      if FullSimulatorC.stop_event (Session.sim g)
      then Some (at_pc (T_change Leave Table) wk, g)
      else Some (at_pc T_announce wk, g)
  | T_announce =>
      let msg :=
        match w_role wk with
        | Session.Producer =>
            Session.TLog "P" (name wk +:+ " trying to produce " +:+ label wk)
        | Session.Consumer => Session.TLog "C" (name wk +:+ " trying to consume")
        end in
      Some (at_pc (T_change Waiting Table) wk, Session.put msg g)
  | T_call =>
      _ ← FullSimulatorC.buffer_model (Session.sim g);
      Some (at_pc (T_inside None) wk, g)
  | T_inside _ => None
  | T_count_read =>
      Some (at_pc (T_count_write (counter (w_role wk) (Session.sim g))) wk, g)
  | T_count_write v =>
      Some (at_pc match w_role wk with
                  | Session.Producer => T_peak_read
                  | Session.Consumer => T_log
                  end wk,
            Session.set_sim (set_counter (w_role wk) (v + 1) (Session.sim g)) g)
  | T_peak_read =>
      Some (at_pc (T_peak_write
                     (Z.max (FullSimulatorC.peak_buffer (Session.sim g))
                        (FullSimulatorC.occupancy (Session.sim g)))) wk, g)
  | T_peak_write v =>
      Some (at_pc T_log wk, Session.set_sim (set_peak v (Session.sim g)) g)
  | T_log =>
      match w_role wk with
      | Session.Producer =>
          Some (at_pc T_slot wk,
                Session.put (Session.TLog "P" (name wk +:+ " produced " +:+ label wk)) g)
      | Session.Consumer =>
          item ← w_item wk;
          Some (at_pc T_slot wk,
                Session.put (Session.TLog "C" (name wk +:+ " consumed " +:+ item)) g)
      end
  | T_slot =>
      Some (at_pc (T_change Resume Table) wk,
            Session.put (Session.TSlotUpdate (FullSimulatorC.occupancy (Session.sim g))) g)
  | T_report =>
      Some (at_pc T_check wk, Session.put (Session.TLog "S" (name wk +:+ " stopped")) g)
  | T_check => Some (at_pc T_done wk, Session.check_finished g)
  | T_done => None
  end.

(** One step of a worker; [stops] is what the stop signal answers
    during the call of the buffer. *)
Definition worker_step (now : Z) (stops : list bool) (wk : worker) (g : Session.t)
    (old : list FullSimulatorC.buffer) :
    option (worker * (Session.t * list FullSimulatorC.buffer)) :=
  match w_pc wk with
  | T_inside on => inside_step stops on wk g old
  | _ => r ← statement now wk g; Some (r.1, (r.2, old))
  end.

Definition step_worker (mv : Session.move) (st : t) : option t :=
  wk ← workers st !! mv.1.1;
  r ← worker_step mv.1.2 mv.2 wk (gui st) (retired st);
  Some {| gui := r.2.1; workers := <[mv.1.1 := r.1]> (workers st);
          retired := r.2.2 |}.

Fixpoint run_workers (mvs : list Session.move) (st : t) : option t :=
  match mvs with
  | [] => Some st
  | mv :: mvs' => st' ← step_worker mv st; run_workers mvs' st'
  end.

(** A worker inside a call on the buffer [self.buffer_model] points to
    stays with that buffer when it becomes the buffer number [n] of the
    retired ones. *)
Definition retire (n : nat) (wk : worker) : worker :=
  match w_pc wk with
  | T_inside None => at_pc (T_inside (Some n)) wk
  | _ => wk
  end.

(** [start], lines 345-366: as in [Session], with the threads at the
    first statement of their function.  Line 354 makes
    [self.buffer_model] point to a new buffer; the old one stays with
    the calls that are inside it. *)
Definition start (mode : string) (p c : Z) (st : t) : t :=
  if FullSimulatorC.running (sim st) then st
  else
    let g := Session.set_sim (FullSimulatorC.start mode (sim st)) (gui st) in
    match FullSimulatorC.new_buffer mode (FullSimulatorC.capacity (sim st)) with
    | None => {| gui := g; workers := workers st; retired := retired st |}
    | Some _ =>
        {| gui := Session.setup_thread_ui p c g;
           workers :=
             (retire (length (retired st)) <$> workers st) ++
             ((fun rp : Session.role * Z => Worker rp.1 rp.2 1 None (T_change Enter Table))
                <$> Session.roster p c);
           retired :=
             retired st ++ option_list (FullSimulatorC.buffer_model (sim st)) |}
    end.

(** [stop], lines 368-374. *)
Definition stop (st : t) : t :=
  {| gui := Session.stop (gui st); workers := workers st; retired := retired st |}.

(** [reset_all], lines 376-386, with the workers running [during] the
    sleep of line 378. *)
Definition reset_all (during : list Session.move) (st : t) : option t :=
  let sim1 :=
    FullSimulatorC.mk (FullSimulatorC.capacity (sim st)) (FullSimulatorC.running (sim st))
      true (FullSimulatorC.produced_count (sim st)) (FullSimulatorC.consumed_count (sim st))
      (FullSimulatorC.peak_buffer (sim st)) (FullSimulatorC.buffer_model (sim st)) in
  st1 ← run_workers during
          {| gui := Session.set_sim sim1 (gui st); workers := workers st;
             retired := retired st |};
  Some {| gui :=
            Session.set_done_badge ""
              (Session.set_sim (FullSimulatorC.reset_all (sim st1))
                 (Session.clear_visuals (gui st1)));
          workers := workers st1; retired := retired st1 |}.

Definition handle (e : Session.event) (st : t) : option t :=
  match e with
  | Session.EvStart mode p c => Some (start mode p c st)
  | Session.EvStop => Some (stop st)
  | Session.EvResetAll during => reset_all during st
  | Session.EvTick =>
      g ← Session.process_gui_queue (gui st);
      Some {| gui := g; workers := workers st; retired := retired st |}
  | Session.EvStep idx now stops => step_worker (idx, now, stops) st
  end.

Fixpoint run (evs : list Session.event) (st : t) : option t :=
  match evs with
  | [] => Some st
  | e :: evs' => st' ← handle e st; run evs' st'
  end.

(** [P] holds of every state a history passes through. *)
Fixpoint along (P : t -> bool) (evs : list Session.event) (st : t) : bool :=
  P st &&
  match evs with
  | [] => true
  | e :: evs' =>
      match handle e st with
      | Some st' => along P evs' st'
      | None => true
      end
  end.

End Threads.

(** * Notions the properties are stated with *)

(** What one step did to the queue, read off the queue before ([q]) and
    after ([q']): the items it put at the tail, the items it took from
    the head. *)
Definition appended_by (q q' : list Item) : list Item := drop (length q) q'.

Definition removed_by (q q' : list Item) : list Item :=
  take (length q - length q') q.

Section MonitorNotions.
Import MonitorBuffer.

(** Where a lone [produce item] started on [b] can be, and what the
    buffer then looks like. *)
Definition mon_produce_inv (item : Item) (b : t) (p : pc) (b' : t) : Prop :=
  capacity b' = capacity b /\
  match p with
  | P_with i => i = item /\ q b' = q b /\ lock b' = lock b
  | P_while i => i = item /\ q b' = q b /\ lock b' = true /\ lock b = false
  | P_wait i => i = item /\ q b' = q b /\ lock b' = false /\ lock b = false
  | Ret (RBool false) =>
      q b' = q b /\ lock b' = false /\ lock b = false /\
      Z.of_nat (length (q b)) = capacity b
  | Ret (RBool true) =>
      q b' = q b ++ [item] /\ lock b' = false /\ lock b = false /\
      Z.of_nat (length (q b)) <> capacity b
  | _ => False
  end.

Definition mon_consume_inv (b : t) (p : pc) (b' : t) : Prop :=
  capacity b' = capacity b /\
  match p with
  | C_with => q b' = q b /\ lock b' = lock b
  | C_while => q b' = q b /\ lock b' = true /\ lock b = false
  | C_wait => q b' = q b /\ lock b' = false /\ lock b = false
  | Ret (RItem None) =>
      q b' = q b /\ lock b' = false /\ lock b = false /\ q b = []
  | Ret (RItem (Some x)) =>
      q b = x :: q b' /\ lock b' = false /\ lock b = false
  | _ => False
  end.

Definition mon_put_pending (p : pc) : Prop :=
  match p with P_with _ | P_while _ | P_wait _ => True | _ => False end.

Definition mon_get_pending (p : pc) : Prop :=
  match p with C_with | C_while | C_wait => True | _ => False end.

Definition mon_bounded (b : t) : Prop :=
  Z.of_nat (length (q b)) <= capacity b.

End MonitorNotions.

Section SemaphoreNotions.
Import SemaphoreBuffer.

(** The semaphores of [b'] against those of [b]: [de], [df], [dm] are
    what was added to [empty], [full] and [mutex]. *)
Definition sem_delta (b b' : t) (de df dm : Z) : Prop :=
  empty b' = empty b + de /\ full b' = full b + df /\ mutex b' = mutex b + dm.

Definition sem_produce_inv (item : Item) (b : t) (p : pc) (b' : t) : Prop :=
  capacity b' = capacity b /\
  match p with
  | P_loop1 i | P_acquire_empty i =>
      i = item /\ q b' = q b /\ sem_delta b b' 0 0 0
  | P_loop2 i | P_acquire_mutex i =>
      i = item /\ q b' = q b /\ sem_delta b b' (-1) 0 0 /\ 0 < empty b
  | P_release_empty =>
      q b' = q b /\ sem_delta b b' (-1) 0 0 /\ 0 < empty b
  | P_append i =>
      i = item /\ q b' = q b /\ sem_delta b b' (-1) 0 (-1) /\ 0 < empty b
  | P_release_mutex =>
      q b' = q b ++ [item] /\ sem_delta b b' (-1) 0 (-1) /\ 0 < empty b
  | P_release_full =>
      q b' = q b ++ [item] /\ sem_delta b b' (-1) 0 0 /\ 0 < empty b
  | Ret (RBool false) => q b' = q b /\ sem_delta b b' 0 0 0
  | Ret (RBool true) =>
      q b' = q b ++ [item] /\ sem_delta b b' (-1) 1 0 /\ 0 < empty b
  | _ => False
  end.

(** What a consumer carries out of its pop: the head of the queue, or
    [None] from an empty queue. *)
Definition sem_popped (b b' : t) (o : option Item) : Prop :=
  match o with
  | Some x => q b = x :: q b'
  | None => q b = [] /\ q b' = []
  end.

Definition sem_consume_inv (b : t) (p : pc) (b' : t) : Prop :=
  capacity b' = capacity b /\
  match p with
  | C_loop1 | C_acquire_full => q b' = q b /\ sem_delta b b' 0 0 0
  | C_loop2 | C_acquire_mutex | C_release_full =>
      q b' = q b /\ sem_delta b b' 0 (-1) 0 /\ 0 < full b
  | C_pop => q b' = q b /\ sem_delta b b' 0 (-1) (-1) /\ 0 < full b
  | C_release_mutex o =>
      sem_popped b b' o /\ sem_delta b b' 0 (-1) (-1) /\ 0 < full b
  | C_release_empty o =>
      sem_popped b b' o /\ sem_delta b b' 0 (-1) 0 /\ 0 < full b
  | Ret (RItem (Some x)) =>
      q b = x :: q b' /\ sem_delta b b' 1 (-1) 0 /\ 0 < full b
  | Ret (RItem None) =>
      q b' = q b /\
      (sem_delta b b' 0 0 0 \/ (q b = [] /\ sem_delta b b' 1 (-1) 0 /\ 0 < full b))
  | _ => False
  end.

Definition sem_put_pending (p : pc) : Prop :=
  match p with P_loop1 _ | P_acquire_empty _ => True | _ => False end.

Definition sem_get_pending (p : pc) : Prop :=
  match p with C_loop1 | C_acquire_full => True | _ => False end.

Record sem_inv (w : world t pc) : Prop := {
  inv_empty : 0 <= empty (w_buf w);
  inv_full : 0 <= full (w_buf w);
  inv_mutex : 0 <= mutex (w_buf w);
  inv_permits :
    empty (w_buf w) + full (w_buf w) + total Permits.held (w_pool w) =
    capacity (w_buf w);
  inv_items :
    full (w_buf w) + total Permits.claimed (w_pool w) =
    Z.of_nat (length (q (w_buf w)));
  inv_critical : mutex (w_buf w) + total Permits.critical (w_pool w) = 1;
  inv_popped : Forall (fun p => Permits.popped_nothing p = false) (w_pool w);
}.

End SemaphoreNotions.

(** The world a fresh buffer of each kind starts in. *)
Definition monitor_world (stop : bool) (cap : Z) :
    world MonitorBuffer.t MonitorBuffer.pc :=
  fresh stop (MonitorBuffer.init cap).

Definition semaphore_world (stop : bool) (b0 : SemaphoreBuffer.t) :
    world SemaphoreBuffer.t SemaphoreBuffer.pc :=
  fresh stop b0.

Definition fifo_ops : list op :=
  [Put "P1-1" (replicate 7 false); Put "P2-1" (replicate 7 false);
   Get (replicate 7 false); Put "P1-2" (replicate 7 false);
   Get (replicate 7 false); Get (replicate 7 false)].

(** Between calls a monitor and a semaphore buffer that went through the
    same accepted calls look alike. *)
Record alike (mb : MonitorBuffer.t) (sb : SemaphoreBuffer.t) : Prop := {
  alike_capacity : MonitorBuffer.capacity mb = SemaphoreBuffer.capacity sb;
  alike_q : MonitorBuffer.q mb = SemaphoreBuffer.q sb;
  alike_lock : MonitorBuffer.lock mb = false;
  alike_mutex : SemaphoreBuffer.mutex sb = 1;
  alike_full : SemaphoreBuffer.full sb = Z.of_nat (length (SemaphoreBuffer.q sb));
  alike_empty :
    SemaphoreBuffer.empty sb =
    SemaphoreBuffer.capacity sb - Z.of_nat (length (SemaphoreBuffer.q sb));
  alike_room : 0 <= SemaphoreBuffer.empty sb;
}.

Definition agree_calls : list call :=
  [CPut "P1-1"; CGet; CPut "P1-2"; CPut "P2-1"; CStop; CPut "P1-3"; CPut "P2-2"].

Definition first_session : list FullSimulatorC.event :=
  [FullSimulatorC.EvProduce "P1-1" (replicate 7 false);
   FullSimulatorC.EvProduce "P2-1" (replicate 7 false);
   FullSimulatorC.EvConsume (replicate 7 false);
   FullSimulatorC.EvProduce "P1-2" (replicate 7 false)].

(** Three Puts, each run to its end before the next is made. *)
Definition three_puts : list action :=
  [CallProduce "A1"] ++ replicate 7 (Run 0) ++
  [CallProduce "A2"] ++ replicate 7 (Run 1) ++
  [CallProduce "A3"] ++ replicate 7 (Run 2).

(** The fourth Put, polling [n] times with nobody else running. *)
Definition fourth_put (n : nat) : list action :=
  CallProduce "A4" :: replicate n (Run 3).

(** A Get arrives; consumer and producer then take steps in turn. *)
Definition one_get : list action :=
  CallConsume :: concat (replicate 16 [Run 4; Run 3]).

Definition mon_full : MonitorBuffer.t := MonitorBuffer.mk 3 ["A1"; "A2"; "A3"] false.

Definition sem_full : SemaphoreBuffer.t := SemaphoreBuffer.mk 3 ["A1"; "A2"; "A3"] 0 3 1.

Definition mon_done : list MonitorBuffer.pc :=
  replicate 3 (MonitorBuffer.Ret (RBool true)).

Definition sem_done : list SemaphoreBuffer.pc :=
  replicate 3 (SemaphoreBuffer.Ret (RBool true)).

(** Where the fourth Put can be while it polls. *)
Definition mon_polling (w : world MonitorBuffer.t MonitorBuffer.pc) : Prop :=
  w = World false mon_full (mon_done ++ [MonitorBuffer.P_with "A4"]) \/
  w = World false (MonitorBuffer.set_lock true mon_full)
        (mon_done ++ [MonitorBuffer.P_while "A4"]) \/
  w = World false mon_full (mon_done ++ [MonitorBuffer.P_wait "A4"]).

Definition sem_polling (w : world SemaphoreBuffer.t SemaphoreBuffer.pc) : Prop :=
  w = World false sem_full (sem_done ++ [SemaphoreBuffer.P_loop1 "A4"]) \/
  w = World false sem_full (sem_done ++ [SemaphoreBuffer.P_acquire_empty "A4"]).

(** What the scenario asks of a world reached in it. *)
Definition put_pending {B PC} `{!BoundedBuffer B PC} (w : world B PC) : Prop :=
  (w_pool w !! 3%nat) ≫= bb_returned = None /\
  bb_q (w_buf w) = ["A1"; "A2"; "A3"].

Definition put_resumed {B PC} `{!BoundedBuffer B PC} (w : world B PC) : Prop :=
  (w_pool w !! 4%nat) ≫= bb_returned = Some (RItem (Some "A1")) /\
  (w_pool w !! 3%nat) ≫= bb_returned = Some (RBool true) /\
  bb_q (w_buf w) = ["A2"; "A3"; "A4"].

(** ** Notions for mutual exclusion and progress *)

(** Inside the [with self.lock] block of [MonitorBuffer], lock held. *)
Definition mon_inside (p : MonitorBuffer.pc) : Z :=
  match p with
  | MonitorBuffer.P_while _ | MonitorBuffer.C_while => 1
  | _ => 0
  end.

Definition lock_value (b : MonitorBuffer.t) : Z :=
  if MonitorBuffer.lock b then 1 else 0.

(** A [SemaphoreBuffer] call whose next step changes a semaphore or the
    queue whatever the others do. *)
Definition sem_acting (p : SemaphoreBuffer.pc) : bool :=
  match p with
  | SemaphoreBuffer.P_release_empty | SemaphoreBuffer.P_append _
  | SemaphoreBuffer.P_release_mutex | SemaphoreBuffer.P_release_full
  | SemaphoreBuffer.C_release_full | SemaphoreBuffer.C_pop
  | SemaphoreBuffer.C_release_mutex _ | SemaphoreBuffer.C_release_empty _ => true
  | _ => false
  end.

(** A call in its second loop, after [mutex]. *)
Definition sem_wants_mutex (p : SemaphoreBuffer.pc) : bool :=
  match p with
  | SemaphoreBuffer.P_loop2 _ | SemaphoreBuffer.P_acquire_mutex _
  | SemaphoreBuffer.C_loop2 | SemaphoreBuffer.C_acquire_mutex => true
  | _ => false
  end.

(** A [produce] that has not returned; a [consume] that has not
    returned. *)
Definition sem_producing (p : SemaphoreBuffer.pc) : bool :=
  match p with
  | SemaphoreBuffer.P_loop1 _ | SemaphoreBuffer.P_acquire_empty _
  | SemaphoreBuffer.P_loop2 _ | SemaphoreBuffer.P_acquire_mutex _
  | SemaphoreBuffer.P_release_empty | SemaphoreBuffer.P_append _
  | SemaphoreBuffer.P_release_mutex | SemaphoreBuffer.P_release_full => true
  | _ => false
  end.

Definition sem_consuming (p : SemaphoreBuffer.pc) : bool :=
  match p with
  | SemaphoreBuffer.C_loop1 | SemaphoreBuffer.C_acquire_full
  | SemaphoreBuffer.C_loop2 | SemaphoreBuffer.C_acquire_mutex
  | SemaphoreBuffer.C_release_full | SemaphoreBuffer.C_pop
  | SemaphoreBuffer.C_release_mutex _ | SemaphoreBuffer.C_release_empty _ => true
  | _ => false
  end.

(** A call that, left to run alone with the stop signal unset, changes
    the buffer within two steps: its semaphore has a permit, or it is
    past its acquires. *)
Definition sem_enabled (b : SemaphoreBuffer.t) (p : SemaphoreBuffer.pc) : bool :=
  match p with
  | SemaphoreBuffer.P_loop1 _ | SemaphoreBuffer.P_acquire_empty _ =>
      bool_decide (0 < SemaphoreBuffer.empty b)
  | SemaphoreBuffer.C_loop1 | SemaphoreBuffer.C_acquire_full =>
      bool_decide (0 < SemaphoreBuffer.full b)
  | SemaphoreBuffer.P_loop2 _ | SemaphoreBuffer.P_acquire_mutex _
  | SemaphoreBuffer.C_loop2 | SemaphoreBuffer.C_acquire_mutex =>
      bool_decide (0 < SemaphoreBuffer.mutex b)
  | SemaphoreBuffer.C_pop =>
      match SemaphoreBuffer.q b with [] => false | _ :: _ => true end
  | SemaphoreBuffer.Ret _ => false
  | _ => true
  end.

(** ** Notions for the simulator *)

(** A buffer of capacity [cap] as it is between two calls. *)
Definition buffer_ok (cap : Z) (m : FullSimulatorC.buffer) : Prop :=
  match m with
  | FullSimulatorC.MonitorModel b =>
      MonitorBuffer.capacity b = cap /\ MonitorBuffer.lock b = false /\
      Z.of_nat (length (MonitorBuffer.q b)) <= cap
  | FullSimulatorC.SemaphoreModel b =>
      SemaphoreBuffer.capacity b = cap /\ SemaphoreBuffer.mutex b = 1 /\
      SemaphoreBuffer.full b = Z.of_nat (length (SemaphoreBuffer.q b)) /\
      SemaphoreBuffer.empty b = cap - Z.of_nat (length (SemaphoreBuffer.q b)) /\
      0 <= SemaphoreBuffer.empty b
  end.

(** What holds of the simulator after any history. *)
Record sim_ok (s : FullSimulatorC.t) : Prop := {
  ok_capacity : FullSimulatorC.capacity s = 5;
  ok_buffer : forall m, FullSimulatorC.buffer_model s = Some m -> buffer_ok 5 m;
  ok_peak : 0 <= FullSimulatorC.peak_buffer s <= 5;
  ok_produced : 0 <= FullSimulatorC.produced_count s;
  ok_consumed : 0 <= FullSimulatorC.consumed_count s;
}.

(** ** Notions for the workers *)

(** A string without the character [-]. *)
Fixpoint dashless (s : string) : bool :=
  match s with
  | EmptyString => true
  | String a s' => negb (Ascii.eqb a "-"%char) && dashless s'
  end.

(** What the thread table shows for a worker at a program point. *)
Definition shown (p : Session.wpc) (s : string) : Prop :=
  match p with
  | Session.W_enter => s = "Ready"
  | Session.W_guard | Session.W_announce => s = "Running"
  | Session.W_call | Session.W_resume => s = "Waiting"
  | Session.W_leave => s = "Running" \/ s = "Waiting"
  | Session.W_report | Session.W_done => s = "Stopped"
  end.

(** The moves of a worker's state machine. *)
Definition allowed (a b : string) : bool :=
  (String.eqb a "Running" && String.eqb b "Waiting") ||
  (String.eqb a "Waiting" && String.eqb b "Running") ||
  (String.eqb a "Running" && String.eqb b "Stopped") ||
  (String.eqb a "Waiting" && String.eqb b "Stopped").

(** Every two consecutive reports are an allowed move. *)
Fixpoint chain (l : list string) : bool :=
  match l with
  | a :: (b :: _) as l' => allowed a b && chain l'
  | _ => true
  end.

Definition timeline_ok (p : Session.wpc) (s : string) (tl : list string) : Prop :=
  chain tl = true /\
  match p with
  | Session.W_enter => tl = []
  | _ => tl = [] \/ last tl = Some s
  end.

Definition has_left (p : Session.wpc) : Prop :=
  p = Session.W_report \/ p = Session.W_done.

Definition role_pid (wk : Session.worker) : Session.role * Z :=
  (Session.w_role wk, Session.w_pid wk).

(** What holds during the first session of a simulator started with
    [p] producers and [c] consumers. *)
Record session_core (p c : Z) (st : Session.t) : Prop := {
  fs_roster : role_pid <$> Session.workers st = Session.roster p c;
  fs_states :
    exists ts, Session.thread_states st = Some ts /\
      forall idx wk, Session.workers st !! idx = Some wk ->
        exists s, ts !! Session.name wk = Some s /\
                  shown (Session.w_pc wk) s /\
                  timeline_ok (Session.w_pc wk) s (Session.reported (Session.name wk) st);
  fs_buffer :
    exists m, FullSimulatorC.buffer_model (Session.sim st) = Some m /\
      NoDup (FullSimulatorC.buffer_q m) /\
      forall x, x ∈ FullSimulatorC.buffer_q m ->
        exists idx wk k,
          Session.workers st !! idx = Some wk /\
          Session.w_role wk = Session.Producer /\
          x = Session.label_of (Session.w_pid wk) k /\
          1 <= k /\
          (k < Session.w_item_id wk \/
           (Session.w_pc wk = Session.W_resume /\ k = Session.w_item_id wk));
  fs_item_id : forall idx wk, Session.workers st !! idx = Some wk ->
      1 <= Session.w_item_id wk /\
      (Session.w_pc wk = Session.W_enter -> Session.w_item_id wk = 1);
}.

(** The Finished badge tells the truth. *)
Definition session_done (st : Session.t) : Prop :=
  Session.done_badge st = "✔ Simulation Finished" ->
  (forall idx wk, Session.workers st !! idx = Some wk -> has_left (Session.w_pc wk)) /\
  (forall m, FullSimulatorC.buffer_model (Session.sim st) = Some m ->
             FullSimulatorC.buffer_q m = []).

Record session_inv (p c : Z) (st : Session.t) : Prop := {
  inv_core : session_core p c st;
  inv_done : session_done st;
}.

(** A session with one producer and one consumer: the producer puts
    its first item and is back at its loop test. *)
Definition one_item_session : list Session.event :=
  [Session.EvStep 0 1 []; Session.EvStep 0 2 []; Session.EvStep 0 3 [];
   Session.EvStep 0 4 (replicate 7 false); Session.EvStep 0 5 []].

(** The consumer then takes the item, Stop is pressed and both workers
    run to their end. *)
Definition whole_session : list Session.event :=
  one_item_session ++
  [Session.EvStep 1 6 []; Session.EvStep 1 7 []; Session.EvStep 1 8 [];
   Session.EvStep 1 9 (replicate 7 false); Session.EvStep 1 10 [];
   Session.EvStop;
   Session.EvStep 0 11 []; Session.EvStep 0 12 []; Session.EvStep 0 13 [];
   Session.EvStep 1 14 []; Session.EvStep 1 15 []; Session.EvStep 1 16 []].

(** The same with a tick of the GUI thread at the end. *)
Definition ticked_session : list Session.event :=
  one_item_session ++ [Session.EvTick].

(** The session a history leads to. *)
Definition session_after (evs : list Session.event) : Session.t :=
  default Session.init (Session.run evs Session.init).

(** ** Notions for the GUI thread *)

(** What handling the task [x] does to the label of the worker [n]. *)
Definition relabel (n : string) (cur : option Session.widget) (x : Session.task) :
    option Session.widget :=
  match x, cur with
  | Session.TSetThread n' s, Some _ =>
      if String.eqb n' n then Some (Session.label_for n s) else cur
  | _, _ => cur
  end.

(** The label of [n] once the tasks [q] have been handled. *)
Definition replay (n : string) (q : list Session.task) (cur : option Session.widget) :
    option Session.widget :=
  foldl (relabel n) cur q.

Definition is_set_thread (x : Session.task) : bool :=
  match x with Session.TSetThread _ _ => true | _ => false end.

Definition slot_in_range (x : Session.task) : Prop :=
  match x with Session.TSlotUpdate n => 0 <= n <= 5 | _ => True end.

(** The strip of slots with the first [k] filled. *)
Definition painted (k : Z) : list string :=
  replicate (Z.to_nat k) NEON.slot_fill ++ replicate (Z.to_nat (5 - k)) NEON.slot_empty.

Record gui_ok (st : Session.t) : Prop := {
  g_sim : sim_ok (Session.sim st);
  g_q : Forall slot_in_range (Session.gui_q st);
  g_slots : exists k, 0 <= k <= 5 /\ Session.slot_colours st = painted k;
}.

(** There is nothing for [update_thread_label] to do before the labels
    exist. *)
Definition labels_exist (st : Session.t) : Prop :=
  Session.thread_labels st <> None \/
  (Session.gui_q st = [] /\ Session.workers st = []).

(** ** Notions for the colours *)

Definition hex_char (a : ascii) : bool :=
  existsb (Ascii.eqb a) (list_ascii_of_string "0123456789abcdef").

Fixpoint all_hex (s : string) : bool :=
  match s with
  | EmptyString => true
  | String a s' => hex_char a && all_hex s'
  end.

(** A colour of the form [#rrggbb]. *)
Definition six_digits (s : string) : bool :=
  match s with
  | String "#" s' => (String.length s' =? 6)%nat && all_hex s'
  | _ => false
  end.

(** The value of a digit of base 16. *)
Definition hex_value (a : ascii) : Z :=
  match index 0 (String a "") "0123456789abcdef" with
  | Some i => Z.of_nat i
  | None => -1
  end.

(** The two digits of a channel. *)
Definition two_digits (n : Z) : string :=
  String (hex_digit (n / 16)) (String (hex_digit (n mod 16)) "").

(** ** Notions for the order of the items *)

(** The items a step put into the queue or took out of it, each with
    the thread that took the step. *)
Definition by_thread (a : action) (l : list Item) : list (nat * Item) :=
  match a with Run tid => pair tid <$> l | _ => [] end.

(** The ledger of a schedule: the items appended and the items removed,
    each with its thread, in the order in which the steps happened. *)
Fixpoint ledger {B PC} `{!BoundedBuffer B PC}
    (sched : list action) (w : world B PC) : list (nat * Item) * list (nat * Item) :=
  match sched with
  | [] => ([], [])
  | a :: sched' =>
      let '(ins, outs) := ledger sched' (exec1 w a) in
      (by_thread a (appended_by (bb_q (w_buf w)) (bb_q (w_buf (exec1 w a)))) ++ ins,
       by_thread a (removed_by (bb_q (w_buf w)) (bb_q (w_buf (exec1 w a)))) ++ outs)
  end.

(** The entries of one thread. *)
Definition of_thread (tid : nat) (l : list (nat * Item)) : list Item :=
  flat_map (fun e => if Nat.eqb e.1 tid then [e.2] else []) l.

(** The calls a schedule starts, in the order of the thread ids. *)
Fixpoint calls_of (sched : list action) : list call :=
  match sched with
  | [] => []
  | CallProduce item :: sched' => CPut item :: calls_of sched'
  | CallConsume :: sched' => CGet :: calls_of sched'
  | _ :: sched' => calls_of sched'
  end.

(** What a call that returned [r] has put into the queue and what it
    has handed to its caller. *)
Definition accepted_by (c : call) (r : result) : list Item :=
  match c, r with CPut item, RBool true => [item] | _, _ => [] end.

Definition delivered_by (r : result) : list Item :=
  match r with RItem (Some x) => [x] | _ => [] end.

(** A Put answers with a flag, a Get with an item or [None]. *)
Definition answers (c : call) (r : result) : Prop :=
  match c, r with
  | CPut _, RBool _ | CGet, RItem _ => True
  | _, _ => False
  end.

(** First in, first out, for the calls of a schedule run from [w0]: the
    items removed, in the order of their removal, followed by the
    queue, are the items appended in the order of their appending;
    every entry of the ledger is the doing of a call of the schedule;
    and every call that has returned appended exactly what its answer
    says it accepted and removed exactly the item it handed out. *)
Definition fifo_holds {B PC} `{!BoundedBuffer B PC}
    (w0 : world B PC) (sched : list action) : Prop :=
  let w := exec sched w0 in
  let ins := (ledger sched w0).1 in
  let outs := (ledger sched w0).2 in
  (snd <$> outs) ++ bb_q (w_buf w) = snd <$> ins /\
  Forall (fun e => (e.1 < length (w_pool w))%nat) (ins ++ outs) /\
  forall tid p r,
    w_pool w !! tid = Some p -> bb_returned p = Some r ->
    exists c, calls_of sched !! tid = Some c /\
      answers c r /\
      of_thread tid ins = accepted_by c r /\
      of_thread tid outs = delivered_by r.

(** What a call [c] at the program point [p] has appended and removed
    so far; [None] when [p] is no point of such a call. *)
Definition mon_effect (c : call) (p : MonitorBuffer.pc) :
    option (list Item * list Item) :=
  match c, p with
  | CPut item, MonitorBuffer.P_with i
  | CPut item, MonitorBuffer.P_while i
  | CPut item, MonitorBuffer.P_wait i =>
      if String.eqb i item then Some ([], []) else None
  | CPut item, MonitorBuffer.Ret (RBool true) => Some ([item], [])
  | CPut item, MonitorBuffer.Ret (RBool false) => Some ([], [])
  | CGet, MonitorBuffer.C_with
  | CGet, MonitorBuffer.C_while
  | CGet, MonitorBuffer.C_wait => Some ([], [])
  | CGet, MonitorBuffer.Ret (RItem o) => Some ([], option_list o)
  | _, _ => None
  end.

Definition sem_effect (c : call) (p : SemaphoreBuffer.pc) :
    option (list Item * list Item) :=
  match c, p with
  | CPut item, SemaphoreBuffer.P_loop1 i
  | CPut item, SemaphoreBuffer.P_acquire_empty i
  | CPut item, SemaphoreBuffer.P_loop2 i
  | CPut item, SemaphoreBuffer.P_acquire_mutex i
  | CPut item, SemaphoreBuffer.P_append i =>
      if String.eqb i item then Some ([], []) else None
  | CPut item, SemaphoreBuffer.P_release_empty => Some ([], [])
  | CPut item, SemaphoreBuffer.P_release_mutex
  | CPut item, SemaphoreBuffer.P_release_full
  | CPut item, SemaphoreBuffer.Ret (RBool true) => Some ([item], [])
  | CPut item, SemaphoreBuffer.Ret (RBool false) => Some ([], [])
  | CGet, SemaphoreBuffer.C_loop1
  | CGet, SemaphoreBuffer.C_acquire_full
  | CGet, SemaphoreBuffer.C_loop2
  | CGet, SemaphoreBuffer.C_acquire_mutex
  | CGet, SemaphoreBuffer.C_release_full
  | CGet, SemaphoreBuffer.C_pop => Some ([], [])
  | CGet, SemaphoreBuffer.C_release_mutex o
  | CGet, SemaphoreBuffer.C_release_empty o
  | CGet, SemaphoreBuffer.Ret (RItem o) => Some ([], option_list o)
  | _, _ => None
  end.

(** Two producers and a consumer whose calls overlap. *)
Definition overlapping_calls : list action :=
  [CallProduce "P1-1"; CallProduce "P2-1"; CallConsume;
   Run 2; Run 0; Run 1; Run 1; Run 0; Run 1; Run 2; Run 1; Run 0; Run 1; Run 0;
   Run 1; Run 0; Run 1; Run 0; Run 0; Run 0; Run 0; Run 0;
   Run 2; Run 2; Run 2; Run 2; Run 2; Run 2; Run 2; Run 2; Run 2].

(** ** Notions for the consumer that has passed both acquires *)

(** The number of steps the thread [tid] takes in a schedule. *)
Fixpoint runs_of (tid : nat) (sched : list action) : nat :=
  match sched with
  | [] => 0
  | Run t :: sched' => (if Nat.eqb t tid then 1 else 0) + runs_of tid sched'
  | _ :: sched' => runs_of tid sched'
  end.

(** A consumer that stood at its pop with [x] at the head of the queue,
    [n] of its own steps later. *)
Definition popping (x : Item) (n : nat) (p : SemaphoreBuffer.pc)
    (b : SemaphoreBuffer.t) : Prop :=
  match p with
  | SemaphoreBuffer.C_pop => n = 0%nat /\ head (SemaphoreBuffer.q b) = Some x
  | SemaphoreBuffer.C_release_mutex (Some y) => n = 1%nat /\ y = x
  | SemaphoreBuffer.C_release_empty (Some y) => n = 2%nat /\ y = x
  | SemaphoreBuffer.Ret (RItem (Some y)) => (3 <= n)%nat /\ y = x
  | _ => False
  end.

(** A consumer on one of the two paths that end in [return None]
    without a pop. *)
Definition gave_up (p : SemaphoreBuffer.pc) : bool :=
  match p with
  | SemaphoreBuffer.C_release_full | SemaphoreBuffer.Ret (RItem None) => true
  | _ => false
  end.

(** ** Notions for the counters *)

Definition same_role (a b : Session.role) : bool :=
  match a, b with
  | Session.Producer, Session.Producer | Session.Consumer, Session.Consumer => true
  | _, _ => false
  end.

(** A worker of the role [r] whose call has changed the queue and whose
    increment has not been written yet. *)
Definition owed (r : Session.role) (wk : Threads.worker) : Z :=
  match Threads.w_pc wk with
  | Threads.T_count_read | Threads.T_count_write _ =>
      if same_role (Threads.w_role wk) r then 1 else 0
  | _ => 0
  end.

(** The items held by the buffer of this session and by the buffers
    of the earlier ones. *)
Definition held_by (m : FullSimulatorC.buffer) : Z :=
  Z.of_nat (length (FullSimulatorC.buffer_q m)).

Definition stored (st : Threads.t) : Z :=
  FullSimulatorC.occupancy (Threads.sim st) + total held_by (Threads.retired st).

(** Produced minus consumed minus the items stored, corrected by the
    increments still owed. *)
Definition balance (st : Threads.t) : Z :=
  FullSimulatorC.produced_count (Threads.sim st) -
  FullSimulatorC.consumed_count (Threads.sim st) -
  stored st +
  total (owed Session.Producer) (Threads.workers st) -
  total (owed Session.Consumer) (Threads.workers st).

(** Every worker between the read and the write of its increment holds
    the value its counter still has: no increment is about to write
    back a stale value. *)
Definition fresh_read (s : FullSimulatorC.t) (wk : Threads.worker) : bool :=
  match Threads.w_pc wk with
  | Threads.T_count_write v => Z.eqb v (Threads.counter (Threads.w_role wk) s)
  | _ => true
  end.

Definition fresh_reads (st : Threads.t) : bool :=
  forallb (fresh_read (Threads.sim st)) (Threads.workers st).

(** Neither Start nor Reset. *)
Definition calm (e : Session.event) : bool :=
  match e with
  | Session.EvStart _ _ _ | Session.EvResetAll _ => false
  | _ => true
  end.

Definition no_reset (e : Session.event) : bool :=
  match e with Session.EvResetAll _ => false | _ => true end.

(** One producer: it puts an item and counts it, Stop is pressed, the
    producer runs to its end, and Start is pressed again. *)
Definition restart_history : list Session.event :=
  [Session.EvStart "Monitor" 1 0] ++
  ((fun n => Session.EvStep 0 (Z.of_nat n) (replicate 7 false)) <$> seq 0 19) ++
  [Session.EvStop] ++
  ((fun n => Session.EvStep 0 (Z.of_nat n) []) <$> seq 19 6) ++
  [Session.EvStart "Monitor" 1 0].

(** A producer and a consumer of a first session enter their calls;
    Stop and Start are pressed before either call has taken effect;
    then the producer's call and the consumer's take effect. *)
Definition late_call_history : list Session.event :=
  [Session.EvStart "Monitor" 1 1] ++
  flat_map (fun k => [Session.EvStep 0 (Z.of_nat k) []; Session.EvStep 1 (Z.of_nat k) []])
    (seq 0 9) ++
  [Session.EvStop; Session.EvStart "Monitor" 1 1;
   Session.EvStep 0 9 (replicate 7 false); Session.EvStep 1 9 (replicate 7 false)].

(** A producer and a consumer whose statements alternate, [n] of each. *)
Definition alternating_history (n : nat) : list Session.event :=
  flat_map (fun k => [Session.EvStep 0 (Z.of_nat k) (replicate 7 false);
                      Session.EvStep 1 (Z.of_nat k) (replicate 7 false)])
    (seq 0 n).

(** The state a history leads to from [st0]. *)
Definition threads_after (evs : list Session.event) (st0 : Threads.t) : Threads.t :=
  default st0 (Threads.run evs st0).

(** ** Notions for the labels *)

(** The state a worker is about to announce: it has written the thread
    table (line 550) and not yet put the task into the queue (line
    554). *)
Definition in_change (wk : Threads.worker) : option string :=
  match Threads.w_pc wk with
  | Threads.T_change s Threads.Timeline | Threads.T_change s Threads.Queue =>
      Some (Threads.state_of s)
  | _ => None
  end.

Definition thread_role_pid (wk : Threads.worker) : Session.role * Z :=
  (Threads.w_role wk, Threads.w_pid wk).

(** Every worker's label, once the queue is handled, shows the state
    the worker has last announced; the thread table holds that state,
    or already the next one while the worker is about to announce
    it. *)
Record thread_labels_inv (p c : Z) (st : Threads.t) : Prop := {
  tl_roster : thread_role_pid <$> Threads.workers st = Session.roster p c;
  tl_labels :
    exists ts labels,
      Session.thread_states (Threads.gui st) = Some ts /\
      Session.thread_labels (Threads.gui st) = Some labels /\
      forall idx wk, Threads.workers st !! idx = Some wk ->
        exists s,
          replay (Threads.name wk) (Session.gui_q (Threads.gui st))
            (labels !! Threads.name wk) =
            Some (Session.label_for (Threads.name wk) s) /\
          ts !! Threads.name wk = Some (default s (in_change wk));
}.

(** A producer that has announced Running, with and without a tick of
    the GUI thread after it. *)
Definition announced_history : list Session.event :=
  [Session.EvStep 0 1 []; Session.EvStep 0 2 []; Session.EvStep 0 3 []; Session.EvTick;
   Session.EvStep 0 4 []; Session.EvStep 0 5 []; Session.EvStep 0 6 []].

(** * Properties *)

(** ** Generic facts about runs *)

Lemma run_alone_app {B PC} `{!BoundedBuffer B PC} (s1 s2 : list bool) (p : PC) (b : B) :
  run_alone (s1 ++ s2) p b =
  let '(p', b') := run_alone s1 p b in run_alone s2 p' b'.
Proof.
  revert p b. induction s1 as [|s s1 IH]; intros p b; simpl.
  - reflexivity.
  - destruct (bb_step s p b) as [p' b']. apply IH.
Qed.

Lemma exec_app {B PC} `{!BoundedBuffer B PC} (s1 s2 : list action) (w : world B PC) :
  exec (s1 ++ s2) w = exec s2 (exec s1 w).
Proof. unfold exec. apply foldl_app. Qed.

Lemma total_app {PC} (f : PC -> Z) (l1 l2 : list PC) :
  total f (l1 ++ l2) = total f l1 + total f l2.
Proof. induction l1 as [|p l1 IH]; simpl; [reflexivity | rewrite IH; lia]. Qed.

Lemma total_insert {PC} (f : PC -> Z) (l : list PC) (i : nat) (p p' : PC) :
  l !! i = Some p ->
  total f (<[i := p']> l) = total f l - f p + f p'.
Proof.
  revert i. induction l as [|x l IH]; intros [|i] H; simplify_eq/=.
  - lia.
  - rewrite (IH i H). lia.
Qed.

Lemma total_nonneg {PC} (f : PC -> Z) (l : list PC) :
  (forall x, 0 <= f x) -> 0 <= total f l.
Proof. intros Hf. induction l as [|x l IH]; simpl; [lia | specialize (Hf x); lia]. Qed.

Lemma total_lookup_le {PC} (f : PC -> Z) (l : list PC) (i : nat) (p : PC) :
  (forall x, 0 <= f x) -> l !! i = Some p -> f p <= total f l.
Proof.
  intros Hf. revert i. induction l as [|x l IH]; intros [|i] H; simplify_eq/=.
  - pose proof (total_nonneg f l Hf). lia.
  - specialize (IH i H). specialize (Hf x). lia.
Qed.


(** ** MonitorBuffer, one call at a time *)
Section MonitorSequential.
Import MonitorBuffer.

Lemma mon_eq (a b : t) :
  capacity a = capacity b -> q a = q b -> lock a = lock b -> a = b.
Proof. destruct a, b; simpl; congruence. Qed.

Lemma mon_ret_stays (stops : list bool) (r : result) (b : t) :
  run_alone stops (Ret r) b = (Ret r, b).
Proof. induction stops as [|s stops IH]; simpl; auto. Qed.

Lemma mon_produce_inv_step item b s p b' :
  mon_produce_inv item b p b' ->
  mon_produce_inv item b (step s p b').1 (step s p b').2.
Proof.
  unfold mon_produce_inv. intros [Hc H].
  destruct p as [i|i|i| | | |[[]|]]; simpl in *; try tauto.
  - destruct (lock b') eqn:E; simpl; intuition congruence.
  - case_bool_decide; [destruct s|]; simpl; intuition congruence.
  - destruct (lock b') eqn:E; simpl; intuition congruence.
Qed.

Lemma mon_produce_inv_run item b stops p b' :
  mon_produce_inv item b p b' ->
  mon_produce_inv item b (run_alone stops p b').1 (run_alone stops p b').2.
Proof.
  revert p b'. induction stops as [|s stops IH]; intros p b' H; simpl; [exact H|].
  pose proof (mon_produce_inv_step item b s p b' H) as H'.
  change (bb_step s p b') with (step s p b').
  destruct (step s p b') as [p1 b1]. apply IH, H'.
Qed.

Lemma mon_produce_inv_init item b : mon_produce_inv item b (produce item) b.
Proof. unfold mon_produce_inv, produce. tauto. Qed.

Lemma mon_consume_inv_step b s p b' :
  mon_consume_inv b p b' ->
  mon_consume_inv b (step s p b').1 (step s p b').2.
Proof.
  unfold mon_consume_inv. intros [Hc H].
  destruct p as [i|i|i| | | |[|[x|]]]; simpl in *; try tauto.
  - destruct (lock b') eqn:E; simpl; intuition congruence.
  - destruct (q b') as [|x rest] eqn:E; [destruct s|]; simpl; intuition congruence.
  - destruct (lock b') eqn:E; simpl; intuition congruence.
Qed.

Lemma mon_consume_inv_run b stops p b' :
  mon_consume_inv b p b' ->
  mon_consume_inv b (run_alone stops p b').1 (run_alone stops p b').2.
Proof.
  revert p b'. induction stops as [|s stops IH]; intros p b' H; simpl; [exact H|].
  pose proof (mon_consume_inv_step b s p b' H) as H'.
  change (bb_step s p b') with (step s p b').
  destruct (step s p b') as [p1 b1]. apply IH, H'.
Qed.

Lemma mon_consume_inv_init b : mon_consume_inv b consume b.
Proof. unfold mon_consume_inv, consume. tauto. Qed.

End MonitorSequential.


(** ** SemaphoreBuffer, one call at a time *)
Section SemaphoreSequential.
Import SemaphoreBuffer.

Lemma sem_eq (a b : t) :
  capacity a = capacity b -> q a = q b -> empty a = empty b ->
  full a = full b -> mutex a = mutex b -> a = b.
Proof. destruct a, b; simpl; congruence. Qed.

Lemma sem_ret_stays (stops : list bool) (r : result) (b : t) :
  run_alone stops (Ret r) b = (Ret r, b).
Proof. induction stops as [|s stops IH]; simpl; auto. Qed.

Ltac sem_cases :=
  unfold sem_delta, Semaphore.acquire, Semaphore.release in *; simpl in *;
  repeat case_bool_decide; simpl in *;
  intuition (try congruence; try lia).

Lemma sem_produce_inv_step item b s p b' :
  sem_produce_inv item b p b' ->
  sem_produce_inv item b (step s p b').1 (step s p b').2.
Proof.
  unfold sem_produce_inv. intros [Hc H].
  destruct p as [i|i|i|i| |i| | | | | | | | |o|o|[[]|]]; simpl in *; try tauto;
    try destruct s; sem_cases.
Qed.

Lemma sem_produce_inv_run item b stops p b' :
  sem_produce_inv item b p b' ->
  sem_produce_inv item b (run_alone stops p b').1 (run_alone stops p b').2.
Proof.
  revert p b'. induction stops as [|s stops IH]; intros p b' H; simpl; [exact H|].
  pose proof (sem_produce_inv_step item b s p b' H) as H'.
  change (bb_step s p b') with (step s p b').
  destruct (step s p b') as [p1 b1]. apply IH, H'.
Qed.

Lemma sem_produce_inv_init item b : sem_produce_inv item b (produce item) b.
Proof. unfold sem_produce_inv, produce, sem_delta. intuition lia. Qed.

Lemma sem_consume_inv_step b s p b' :
  sem_consume_inv b p b' ->
  sem_consume_inv b (step s p b').1 (step s p b').2.
Proof.
  unfold sem_consume_inv, sem_popped. intros [Hc H].
  destruct p as [i|i|i|i| |i| | | | | | | | |[x|]|[x|]|[|[x|]]]; simpl in *; try tauto;
    try destruct s; try destruct (q b') as [|y rest] eqn:E; sem_cases.
Qed.

Lemma sem_consume_inv_run b stops p b' :
  sem_consume_inv b p b' ->
  sem_consume_inv b (run_alone stops p b').1 (run_alone stops p b').2.
Proof.
  revert p b'. induction stops as [|s stops IH]; intros p b' H; simpl; [exact H|].
  pose proof (sem_consume_inv_step b s p b' H) as H'.
  change (bb_step s p b') with (step s p b').
  destruct (step s p b') as [p1 b1]. apply IH, H'.
Qed.

Lemma sem_consume_inv_init b : sem_consume_inv b consume b.
Proof. unfold sem_consume_inv, consume, sem_delta. intuition lia. Qed.

End SemaphoreSequential.


(** ** Calls under a signal that does not change while they run *)
Section MonitorConstant.
Import MonitorBuffer.

(** A [produce] on a full buffer never returns while the signal is unset,
    however long it polls. *)
Lemma mon_put_blocks (n : nat) (p : pc) (b : t) :
  mon_put_pending p -> Z.of_nat (length (q b)) = capacity b ->
  let r := run_alone (replicate n false) p b in
  mon_put_pending r.1 /\ q r.2 = q b /\ capacity r.2 = capacity b.
Proof.
  revert p b. induction n as [|n IH]; intros p b Hp Hfull; simpl; [tauto|].
  destruct p as [i|i|i| | | |r]; simpl in Hp; try tauto; simpl.
  - destruct (lock b); [apply IH; simpl; auto|].
    apply (IH (P_while i) (set_lock true b)); simpl; auto.
  - rewrite bool_decide_eq_true_2 by assumption.
    apply (IH (P_wait i) (set_lock false b)); simpl; auto.
  - destruct (lock b); [apply IH; simpl; auto|].
    apply (IH (P_while i) (set_lock true b)); simpl; auto.
Qed.

Lemma mon_get_blocks (n : nat) (p : pc) (b : t) :
  mon_get_pending p -> q b = [] ->
  let r := run_alone (replicate n false) p b in
  mon_get_pending r.1 /\ q r.2 = q b /\ capacity r.2 = capacity b.
Proof.
  revert p b. induction n as [|n IH]; intros p b Hp Hnil; simpl; [tauto|].
  destruct p as [i|i|i| | | |r]; simpl in Hp; try tauto; simpl.
  - destruct (lock b); [apply IH; simpl; auto|].
    apply (IH C_while (set_lock true b)); simpl; auto.
  - pose proof (IH C_wait (set_lock false b) I Hnil) as H. simpl in H.
    rewrite Hnil in H |- *. exact H.
  - destruct (lock b); [apply IH; simpl; auto|].
    apply (IH C_while (set_lock true b)); simpl; auto.
Qed.

Lemma mon_put_accepts (n : nat) (s : bool) (item : Item) (b : t) :
  (2 <= n)%nat -> lock b = false -> Z.of_nat (length (q b)) <> capacity b ->
  run_alone (replicate n s) (produce item) b =
  (Ret (RBool true), set_q (q b ++ [item]) b).
Proof.
  intros Hn Hl Hfree. destruct n as [|[|n]]; [lia|lia|]. simpl.
  rewrite Hl. simpl. rewrite bool_decide_eq_false_2 by assumption.
  rewrite mon_ret_stays. f_equal. apply mon_eq; simpl; auto.
Qed.

Lemma mon_put_cancelled (n : nat) (item : Item) (b : t) :
  (2 <= n)%nat -> lock b = false -> Z.of_nat (length (q b)) = capacity b ->
  run_alone (replicate n true) (produce item) b = (Ret (RBool false), b).
Proof.
  intros Hn Hl Hfull. destruct n as [|[|n]]; [lia|lia|]. simpl.
  rewrite Hl. simpl. rewrite bool_decide_eq_true_2 by assumption.
  rewrite mon_ret_stays. f_equal. apply mon_eq; simpl; auto.
Qed.

Lemma mon_get_delivers (n : nat) (s : bool) (x : Item) (rest : list Item) (b : t) :
  (2 <= n)%nat -> lock b = false -> q b = x :: rest ->
  run_alone (replicate n s) consume b = (Ret (RItem (Some x)), set_q rest b).
Proof.
  intros Hn Hl Hq. destruct n as [|[|n]]; [lia|lia|]. simpl.
  rewrite Hl. simpl. rewrite Hq.
  rewrite mon_ret_stays. f_equal. apply mon_eq; simpl; auto.
Qed.

Lemma mon_get_cancelled (n : nat) (b : t) :
  (2 <= n)%nat -> lock b = false -> q b = [] ->
  run_alone (replicate n true) consume b = (Ret (RItem None), b).
Proof.
  intros Hn Hl Hq. destruct n as [|[|n]]; [lia|lia|]. simpl.
  rewrite Hl. simpl. rewrite Hq.
  rewrite mon_ret_stays. f_equal. apply mon_eq; simpl; auto.
Qed.

End MonitorConstant.

Section SemaphoreConstant.
Import SemaphoreBuffer.

(** Without a permit in [empty] a [produce] polls for ever while the
    signal is unset, and touches nothing. *)
Lemma sem_put_blocks (n : nat) (p : pc) (b : t) :
  sem_put_pending p -> empty b <= 0 ->
  let r := run_alone (replicate n false) p b in
  sem_put_pending r.1 /\ r.2 = b.
Proof.
  revert p. induction n as [|n IH]; intros p Hp He; simpl; [tauto|].
  destruct p; simpl in Hp; try tauto; simpl.
  - apply IH; simpl; auto.
  - unfold Semaphore.acquire. rewrite bool_decide_eq_false_2 by lia.
    apply IH; simpl; auto.
Qed.

Lemma sem_get_blocks (n : nat) (p : pc) (b : t) :
  sem_get_pending p -> full b <= 0 ->
  let r := run_alone (replicate n false) p b in
  sem_get_pending r.1 /\ r.2 = b.
Proof.
  revert p. induction n as [|n IH]; intros p Hp He; simpl; [tauto|].
  destruct p; simpl in Hp; try tauto; simpl.
  - apply IH; simpl; auto.
  - unfold Semaphore.acquire. rewrite bool_decide_eq_false_2 by lia.
    apply IH; simpl; auto.
Qed.

(** With the signal set, a call returns at its first test. *)
Lemma sem_put_cancelled (n : nat) (item : Item) (b : t) :
  (1 <= n)%nat ->
  run_alone (replicate n true) (produce item) b = (Ret (RBool false), b).
Proof. intros Hn. destruct n; [lia|]. simpl. apply sem_ret_stays. Qed.

Lemma sem_get_cancelled (n : nat) (b : t) :
  (1 <= n)%nat ->
  run_alone (replicate n true) consume b = (Ret (RItem None), b).
Proof. intros Hn. destruct n; [lia|]. simpl. apply sem_ret_stays. Qed.

Lemma sem_put_accepts (n : nat) (item : Item) (b : t) :
  (7 <= n)%nat -> 0 < empty b -> 0 < mutex b ->
  run_alone (replicate n false) (produce item) b =
  (Ret (RBool true),
   {| capacity := capacity b; q := q b ++ [item]; empty := empty b - 1;
      full := full b + 1; mutex := mutex b |}).
Proof.
  intros Hn He Hm. do 7 (destruct n as [|n]; [lia|]). simpl.
  unfold Semaphore.acquire, Semaphore.release. simpl.
  rewrite (bool_decide_eq_true_2 (0 < empty b)) by assumption. simpl.
  unfold Semaphore.acquire.
  rewrite (bool_decide_eq_true_2 (0 < mutex b)) by assumption. simpl.
  rewrite sem_ret_stays. f_equal.
  apply sem_eq; simpl; auto; unfold Semaphore.release; lia.
Qed.

Lemma sem_get_delivers (n : nat) (x : Item) (rest : list Item) (b : t) :
  (7 <= n)%nat -> 0 < full b -> 0 < mutex b -> q b = x :: rest ->
  run_alone (replicate n false) consume b =
  (Ret (RItem (Some x)),
   {| capacity := capacity b; q := rest; empty := empty b + 1;
      full := full b - 1; mutex := mutex b |}).
Proof.
  intros Hn He Hm Hq. do 7 (destruct n as [|n]; [lia|]). simpl.
  unfold Semaphore.acquire, Semaphore.release. simpl.
  rewrite (bool_decide_eq_true_2 (0 < full b)) by assumption. simpl.
  unfold Semaphore.acquire.
  rewrite (bool_decide_eq_true_2 (0 < mutex b)) by assumption. simpl.
  rewrite Hq. simpl.
  rewrite sem_ret_stays. f_equal.
  apply sem_eq; simpl; auto; unfold Semaphore.release; lia.
Qed.

End SemaphoreConstant.

Lemma total_le {PC} (f g : PC -> Z) (l : list PC) :
  (forall x, f x <= g x) -> total f l <= total g l.
Proof. intros H. induction l as [|x l IH]; simpl; [lia | specialize (H x); lia]. Qed.

Lemma total_quiescent {B PC} `{!BoundedBuffer B PC} (f : PC -> Z) (w : world B PC) :
  (forall p, is_Some (bb_returned p) -> f p = 0) ->
  quiescent w = true -> total f (w_pool w) = 0.
Proof.
  intros Hf. unfold quiescent. induction (w_pool w) as [|p l IH]; simpl; [reflexivity|].
  intros [Hp Hl]%andb_prop. apply bool_decide_eq_true_1 in Hp.
  rewrite (Hf p Hp), (IH Hl). reflexivity.
Qed.


(** ** MonitorBuffer under any interleaving *)
Section MonitorConcurrent.
Import MonitorBuffer.

Lemma mon_step_bounded (s : bool) (p : pc) (b : t) :
  mon_bounded b ->
  mon_bounded (step s p b).2 /\ capacity (step s p b).2 = capacity b.
Proof.
  unfold mon_bounded. intros Hb.
  destruct p as [i|i|i| | | |r]; simpl.
  - destruct (lock b); simpl; auto.
  - case_bool_decide; [destruct s|]; simpl; auto.
    rewrite length_app. simpl. lia.
  - destruct (lock b); simpl; auto.
  - destruct (lock b); simpl; auto.
  - destruct (q b) as [|x rest] eqn:E; [destruct s|]; simpl; rewrite ?E; auto.
    simpl in Hb. lia.
  - destruct (lock b); simpl; auto.
  - auto.
Qed.

Lemma mon_exec1_bounded (a : action) (w : world t pc) :
  mon_bounded (w_buf w) ->
  mon_bounded (w_buf (exec1 w a)) /\
  capacity (w_buf (exec1 w a)) = capacity (w_buf w).
Proof.
  intros Hb. destruct a as [item| | |tid]; simpl; auto.
  destruct (w_pool w !! tid) as [p|]; [|auto].
  pose proof (mon_step_bounded (w_stop w) p (w_buf w) Hb) as H.
  destruct (step (w_stop w) p (w_buf w)) as [p' b']. exact H.
Qed.

Lemma mon_exec_bounded (sched : list action) (w : world t pc) :
  mon_bounded (w_buf w) ->
  mon_bounded (w_buf (exec sched w)) /\
  capacity (w_buf (exec sched w)) = capacity (w_buf w).
Proof.
  revert w. induction sched as [|a sched IH]; intros w Hb; [auto|].
  change (exec (a :: sched) w) with (exec sched (exec1 w a)).
  destruct (mon_exec1_bounded a w Hb) as [H1 H2].
  destruct (IH _ H1) as [H3 H4]. split; [exact H3 | congruence].
Qed.

End MonitorConcurrent.


(** ** SemaphoreBuffer under any interleaving *)
Section SemaphoreConcurrent.
Import SemaphoreBuffer.

(** One step moves permits between the semaphores and the thread that
    takes it, and an item between the queue and that thread. *)
Lemma sem_step_accounts (s : bool) (p : pc) (b : t) :
  0 <= empty b -> 0 <= full b -> 0 <= mutex b ->
  Permits.claimed p <= Z.of_nat (length (q b)) ->
  Permits.popped_nothing p = false ->
  let p' := (step s p b).1 in
  let b' := (step s p b).2 in
  capacity b' = capacity b /\
  0 <= empty b' /\ 0 <= full b' /\ 0 <= mutex b' /\
  empty b' + full b' + Permits.held p' = empty b + full b + Permits.held p /\
  full b' + Permits.claimed p' - Z.of_nat (length (q b')) =
    full b + Permits.claimed p - Z.of_nat (length (q b)) /\
  mutex b' + Permits.critical p' = mutex b + Permits.critical p /\
  Permits.popped_nothing p' = false.
Proof.
  intros He Hf Hm Hc Hn.
  destruct p as [i|i|i|i| |i| | | | | | | | |[x|]|[x|]|r]; simpl in *;
    try discriminate; try destruct s;
    try (destruct (q b) as [|y rest] eqn:E); simpl in *;
    unfold Semaphore.acquire, Semaphore.release; simpl;
    repeat case_bool_decide; simpl; rewrite ?length_app; simpl;
    repeat split; try reflexivity; try lia;
    rewrite E; simpl; lia.
Qed.

Lemma claimed_nonneg (p : pc) : 0 <= Permits.claimed p.
Proof. destruct p; simpl; lia. Qed.

Lemma claimed_le_held (p : pc) : Permits.claimed p <= Permits.held p.
Proof. destruct p; simpl; lia. Qed.

Lemma sem_inv_fresh (cap : Z) (b0 : t) (stop : bool) :
  init cap = Some b0 -> sem_inv (fresh stop b0) /\ capacity b0 = cap.
Proof.
  intros Hinit. unfold init, Semaphore.init in Hinit.
  repeat case_bool_decide; try lia; simplify_eq/=. split; [|reflexivity].
  constructor; simpl; try lia. constructor.
Qed.

Lemma sem_inv_exec1 (a : action) (w : world t pc) :
  sem_inv w ->
  sem_inv (exec1 w a) /\ capacity (w_buf (exec1 w a)) = capacity (w_buf w).
Proof.
  intros [He Hf Hm Hp Hi Hc Hn]. destruct a as [item| | |tid]; simpl.
  - split; [|reflexivity]. constructor; simpl; auto;
      rewrite ?total_app; simpl; try lia.
    apply Forall_app; split; [assumption | repeat constructor].
  - split; [|reflexivity]. constructor; simpl; auto;
      rewrite ?total_app; simpl; try lia.
    apply Forall_app; split; [assumption | repeat constructor].
  - split; [|reflexivity]. constructor; simpl; auto.
  - destruct (w_pool w !! tid) as [p|] eqn:Hl; [|split; [constructor|]; auto].
    assert (Permits.claimed p <= Z.of_nat (length (q (w_buf w)))) as Hcl.
    { pose proof (total_lookup_le Permits.claimed _ _ _ claimed_nonneg Hl). lia. }
    assert (Permits.popped_nothing p = false) as Hpn.
    { eapply Forall_lookup_1 in Hn; eauto. }
    pose proof (sem_step_accounts (w_stop w) p (w_buf w) He Hf Hm Hcl Hpn) as H.
    destruct (step (w_stop w) p (w_buf w)) as [p' b']. simpl in H.
    destruct H as (H0 & H1 & H2 & H3 & H4 & H5 & H6 & H7).
    split; [|exact H0]. constructor; simpl; auto;
      rewrite ?(total_insert _ _ _ _ _ Hl); try lia.
    apply Forall_insert; assumption.
Qed.

Lemma sem_inv_exec (sched : list action) (w : world t pc) :
  sem_inv w ->
  sem_inv (exec sched w) /\ capacity (w_buf (exec sched w)) = capacity (w_buf w).
Proof.
  revert w. induction sched as [|a sched IH]; intros w Hw; [auto|].
  change (exec (a :: sched) w) with (exec sched (exec1 w a)).
  destruct (sem_inv_exec1 a w Hw) as [H1 H2].
  destruct (IH _ H1) as [H3 H4]. split; [exact H3 | congruence].
Qed.

End SemaphoreConcurrent.

(** * The claims *)

(** C4: for a buffer built with a positive capacity, whatever calls are
    started, however their steps interleave and whenever the stop signal
    is set, the queue length stays between 0 and the capacity, in both
    implementations. *)
Theorem capacity_invariant (cap : Z) (sb0 : SemaphoreBuffer.t)
    (stop : bool) (sched : list action) :
  0 < cap ->
  SemaphoreBuffer.init cap = Some sb0 ->
  0 <= Z.of_nat (length (bb_q (w_buf (exec sched (monitor_world stop cap))))) <= cap /\
  0 <= Z.of_nat (length (bb_q (w_buf (exec sched (semaphore_world stop sb0))))) <= cap.
Proof.
  intros Hcap Hinit. split.
  - assert (mon_bounded (w_buf (monitor_world stop cap))) as H0.
    { unfold mon_bounded. simpl. lia. }
    destruct (mon_exec_bounded sched _ H0) as [H1 H2].
    unfold mon_bounded in H1. simpl in *. lia.
  - destruct (sem_inv_fresh cap sb0 stop Hinit) as [H0 Hc].
    destruct (sem_inv_exec sched _ H0) as [[He Hf Hm Hp Hi _ _] H2].
    pose proof (total_le _ _ (w_pool (exec sched (fresh stop sb0))) claimed_le_held).
    unfold semaphore_world. simpl in *. lia.
Qed.

Lemma capacity_invariant_witness :
  0 <= Z.of_nat (length (bb_q (w_buf (exec
         [CallProduce "A1"; Run 0; Run 0; CallConsume; Run 1; Run 1]
         (monitor_world false 3))))) <= 3 /\
  0 <= Z.of_nat (length (bb_q (w_buf (exec
         [CallProduce "A1"; Run 0; Run 0; CallConsume; Run 1; Run 1]
         (semaphore_world false (SemaphoreBuffer.mk 3 [] 3 0 1)))))) <= 3.
Proof.
  apply (capacity_invariant 3 (SemaphoreBuffer.mk 3 [] 3 0 1) false).
  - lia.
  - reflexivity.
Defined.

(** C5 as the spec words it fails: an item in the queue is counted once
    by [full] and once by the queue length.  After one Put on a buffer
    of capacity 1 the sum is 0 + 1 + 1. *)
Lemma permit_sum_counterexample :
  SemaphoreBuffer.init 1 = Some (SemaphoreBuffer.mk 1 [] 1 0 1) /\
  let w := exec [CallProduce "A1"; Run 0; Run 0; Run 0; Run 0; Run 0; Run 0; Run 0]
                (semaphore_world false (SemaphoreBuffer.mk 1 [] 1 0 1)) in
  w_pool w = [SemaphoreBuffer.Ret (RBool true)] /\
  SemaphoreBuffer.empty (w_buf w) + SemaphoreBuffer.full (w_buf w) +
    Z.of_nat (length (SemaphoreBuffer.q (w_buf w))) <> SemaphoreBuffer.capacity (w_buf w).
Proof. vm_compute. repeat split; discriminate. Qed.

(** C5, amended: the permits in [empty] and [full] plus the permits held
    by calls in flight always add up to the capacity, under every
    interleaving and every way of setting the stop signal, so a call
    that gives up gives its permit back; when no call is in flight,
    [empty] plus [full] is the capacity and [full] is the queue length. *)
Theorem permit_conservation (cap : Z) (sb0 : SemaphoreBuffer.t)
    (stop : bool) (sched : list action) :
  SemaphoreBuffer.init cap = Some sb0 ->
  let w := exec sched (semaphore_world stop sb0) in
  let b := w_buf w in
  SemaphoreBuffer.empty b + SemaphoreBuffer.full b +
    total Permits.held (w_pool w) = cap /\
  (quiescent w = true ->
   SemaphoreBuffer.empty b + SemaphoreBuffer.full b = cap /\
   SemaphoreBuffer.full b = Z.of_nat (length (SemaphoreBuffer.q b)) /\
   SemaphoreBuffer.mutex b = 1).
Proof.
  intros Hinit. cbv zeta. unfold semaphore_world.
  destruct (sem_inv_fresh cap sb0 stop Hinit) as [H0 Hc].
  destruct (sem_inv_exec sched _ H0) as [[He Hf Hm Hp Hi Hcr _] H2].
  simpl in H2. split; [lia|]. intros Hq.
  rewrite (total_quiescent Permits.held _) in Hp
    by (try assumption; intros [] [? ?]; simpl in *; congruence).
  rewrite (total_quiescent Permits.claimed _) in Hi
    by (try assumption; intros [] [? ?]; simpl in *; congruence).
  rewrite (total_quiescent Permits.critical _) in Hcr
    by (try assumption; intros [] [? ?]; simpl in *; congruence).
  lia.
Qed.

Lemma permit_conservation_witness :
  let w := exec [CallProduce "A1"; Run 0; Run 0; SetStop; Run 0; Run 0]
                (semaphore_world false (SemaphoreBuffer.mk 2 [] 2 0 1)) in
  let b := w_buf w in
  SemaphoreBuffer.empty b + SemaphoreBuffer.full b +
    total Permits.held (w_pool w) = 2 /\
  (quiescent w = true ->
   SemaphoreBuffer.empty b + SemaphoreBuffer.full b = 2 /\
   SemaphoreBuffer.full b = Z.of_nat (length (SemaphoreBuffer.q b)) /\
   SemaphoreBuffer.mutex b = 1).
Proof.
  apply (permit_conservation 2 (SemaphoreBuffer.mk 2 [] 2 0 1) false). reflexivity.
Defined.

(** A Put that finds the signal set between its two acquires: the permit
    it took from [empty] is back when it returns [False]. *)
Example cancelled_put_returns_permit :
  let w1 := exec [CallProduce "A1"; Run 0; Run 0; SetStop; Run 0]
                 (semaphore_world false (SemaphoreBuffer.mk 2 [] 2 0 1)) in
  let w2 := exec [Run 0] w1 in
  w_pool w1 = [SemaphoreBuffer.P_release_empty] /\
  SemaphoreBuffer.empty (w_buf w1) = 1 /\
  w_pool w2 = [SemaphoreBuffer.Ret (RBool false)] /\
  w_buf w2 = SemaphoreBuffer.mk 2 [] 2 0 1.
Proof. vm_compute. repeat split. Qed.


(** ** First in, first out *)

Lemma mon_call_effect (o : op) (b : MonitorBuffer.t) (res : result) :
  bb_returned (run_alone (op_stops o) (op_entry o) b).1 = Some res ->
  delivered (o, Some res) ++ bb_q (run_alone (op_stops o) (op_entry o) b).2 =
  bb_q b ++ accepted (o, Some res).
Proof.
  destruct o as [item stops|stops]; simpl.
  - pose proof (mon_produce_inv_run item b stops _ _ (mon_produce_inv_init item b)) as [_ H].
    destruct (run_alone stops (MonitorBuffer.produce item) b) as [p b'].
    simpl in *. intros Hr. destruct p; simpl in Hr; simplify_eq.
    destruct res as [[]|]; simpl; [| |tauto].
    + tauto.
    + rewrite app_nil_r. tauto.
  - pose proof (mon_consume_inv_run b stops _ _ (mon_consume_inv_init b)) as [_ H].
    destruct (run_alone stops MonitorBuffer.consume b) as [p b'].
    simpl in *. intros Hr. destruct p; simpl in Hr; simplify_eq.
    destruct res as [|[x|]]; simpl; [tauto| |].
    + rewrite app_nil_r. symmetry. tauto.
    + rewrite app_nil_r. tauto.
Qed.

Lemma sem_call_effect (o : op) (b : SemaphoreBuffer.t) (res : result) :
  bb_returned (run_alone (op_stops o) (op_entry o) b).1 = Some res ->
  delivered (o, Some res) ++ bb_q (run_alone (op_stops o) (op_entry o) b).2 =
  bb_q b ++ accepted (o, Some res).
Proof.
  destruct o as [item stops|stops]; simpl.
  - pose proof (sem_produce_inv_run item b stops _ _ (sem_produce_inv_init item b)) as [_ H].
    destruct (run_alone stops (SemaphoreBuffer.produce item) b) as [p b'].
    simpl in *. intros Hr. destruct p; simpl in Hr; simplify_eq.
    destruct res as [[]|]; simpl; [| |tauto].
    + tauto.
    + rewrite app_nil_r. tauto.
  - pose proof (sem_consume_inv_run b stops _ _ (sem_consume_inv_init b)) as [_ H].
    destruct (run_alone stops SemaphoreBuffer.consume b) as [p b'].
    simpl in *. intros Hr. destruct p; simpl in Hr; simplify_eq.
    destruct res as [|[x|]]; simpl; [tauto| |].
    + rewrite app_nil_r. symmetry. tauto.
    + rewrite app_nil_r. tauto.
Qed.

Section Fifo.
Context {B PC : Type} `{!BoundedBuffer B PC}.

Hypothesis call_effect : forall (o : op) (b : B) (res : result),
  bb_returned (run_alone (op_stops o) (op_entry o) b).1 = Some res ->
  delivered (o, Some res) ++ bb_q (run_alone (op_stops o) (op_entry o) b).2 =
  bb_q b ++ accepted (o, Some res).

Lemma seq_run_fifo (ops : list op) (b : B) :
  complete (seq_run ops b).1 = true ->
  flat_map delivered (seq_run ops b).1 ++ bb_q (seq_run ops b).2 =
  bb_q b ++ flat_map accepted (seq_run ops b).1.
Proof.
  revert b. induction ops as [|o ops IH]; intros b; simpl.
  - intros _. rewrite app_nil_r. reflexivity.
  - pose proof (call_effect o b) as Hc.
    destruct (run_alone (op_stops o) (op_entry o) b) as [p b']. simpl in Hc.
    destruct (bb_returned p) as [r|]; [|simpl; discriminate].
    specialize (IH b'). destruct (seq_run ops b') as [log bf]. simpl in *.
    intros Hl. specialize (IH Hl). specialize (Hc r eq_refl).
    rewrite <- app_assoc, IH, !app_assoc, Hc. reflexivity.
Qed.

End Fifo.

(** With one caller, in both implementations: when every call of a
    sequence has returned, the items handed out by the Gets, in the order of the
    calls, followed by what is left in the queue, are the items of the
    accepted Puts in the order of the calls: nothing is reordered,
    duplicated or lost.  Calls that were cancelled change nothing. *)
Lemma fifo_in_sequence (cap : Z) (sb0 : SemaphoreBuffer.t) (ops : list op) :
  SemaphoreBuffer.init cap = Some sb0 ->
  (complete (seq_run ops (MonitorBuffer.init cap)).1 = true ->
   flat_map delivered (seq_run ops (MonitorBuffer.init cap)).1 ++
     bb_q (seq_run ops (MonitorBuffer.init cap)).2 =
   flat_map accepted (seq_run ops (MonitorBuffer.init cap)).1) /\
  (complete (seq_run ops sb0).1 = true ->
   flat_map delivered (seq_run ops sb0).1 ++ bb_q (seq_run ops sb0).2 =
   flat_map accepted (seq_run ops sb0).1).
Proof.
  intros Hinit. split; intros Hc.
  - rewrite (seq_run_fifo mon_call_effect _ _ Hc). reflexivity.
  - rewrite (seq_run_fifo sem_call_effect _ _ Hc).
    unfold SemaphoreBuffer.init, Semaphore.init in Hinit.
    repeat case_bool_decide; simplify_eq/=. reflexivity.
Qed.

Example fifo_in_sequence_example :
  flat_map delivered (seq_run fifo_ops (MonitorBuffer.init 2)).1 = ["P1-1"; "P2-1"; "P1-2"] /\
  flat_map delivered (seq_run fifo_ops (SemaphoreBuffer.mk 2 [] 2 0 1)).1 =
    ["P1-1"; "P2-1"; "P1-2"].
Proof.
  destruct (fifo_in_sequence 2 (SemaphoreBuffer.mk 2 [] 2 0 1) fifo_ops eq_refl) as [Hm Hs].
  specialize (Hm eq_refl). specialize (Hs eq_refl).
  split.
  - rewrite <- (app_nil_r (flat_map delivered _)). exact Hm.
  - rewrite <- (app_nil_r (flat_map delivered _)). exact Hs.
Defined.

(** ** Cancellation *)

(** C6: in both implementations, whatever the buffer looks like and
    whenever the stop signal is set while the call runs, a Put that
    returns [False] leaves the buffer as it found it: same queue, same
    length (and, for the semaphores, the same permits). *)
Theorem rejected_put_changes_nothing (item : Item) (stops : list bool)
    (mb : MonitorBuffer.t) (sb : SemaphoreBuffer.t) :
  (bb_returned (run_alone stops (bb_produce item) mb).1 = Some (RBool false) ->
   (run_alone stops (bb_produce item) mb).2 = mb) /\
  (bb_returned (run_alone stops (bb_produce item) sb).1 = Some (RBool false) ->
   (run_alone stops (bb_produce item) sb).2 = sb).
Proof.
  split; simpl.
  - pose proof (mon_produce_inv_run item mb stops _ _ (mon_produce_inv_init item mb)) as [Hc H].
    destruct (run_alone stops (MonitorBuffer.produce item) mb) as [p b'].
    simpl in *. intros Hr. destruct p; simpl in Hr; simplify_eq.
    apply mon_eq; intuition congruence.
  - pose proof (sem_produce_inv_run item sb stops _ _ (sem_produce_inv_init item sb)) as [Hc H].
    destruct (run_alone stops (SemaphoreBuffer.produce item) sb) as [p b'].
    simpl in *. intros Hr. destruct p; simpl in Hr; simplify_eq.
    unfold sem_delta in H. apply sem_eq; intuition (try congruence; try lia).
Qed.

Lemma rejected_put_changes_nothing_witness :
  (run_alone [false; false; true; true] (bb_produce "P1-3")
     (MonitorBuffer.mk 1 ["P2-1"] false)).2 = MonitorBuffer.mk 1 ["P2-1"] false /\
  (run_alone [false; false; true; true] (bb_produce "P1-3")
     (SemaphoreBuffer.mk 2 ["P2-1"] 1 1 1)).2 = SemaphoreBuffer.mk 2 ["P2-1"] 1 1 1.
Proof.
  destruct (rejected_put_changes_nothing "P1-3" [false; false; true; true]
              (MonitorBuffer.mk 1 ["P2-1"] false)
              (SemaphoreBuffer.mk 2 ["P2-1"] 1 1 1)) as [Hm Hs].
  split; [apply Hm | apply Hs]; reflexivity.
Defined.

(** C2 as stated fails for [MonitorBuffer]: with the signal already set, a
    Put on a buffer with room is accepted and queued, and a Get on a
    buffer with an item returns it. *)
Lemma monitor_serves_after_stop_counterexample :
  run_alone [true; true] (bb_produce "P1-1") (MonitorBuffer.init 1) =
    (MonitorBuffer.Ret (RBool true), MonitorBuffer.mk 1 ["P1-1"] false) /\
  run_alone [true; true] bb_consume (MonitorBuffer.mk 1 ["P1-1"] false) =
    (MonitorBuffer.Ret (RItem (Some "P1-1")), MonitorBuffer.mk 1 [] false).
Proof. split; reflexivity. Qed.

(** C2, amended: with the signal set, every Put and Get on a
    [SemaphoreBuffer] fails at once and touches nothing, whatever the
    permits are; on a [MonitorBuffer] (lock free) every call returns
    too, a Put failing exactly when the buffer is full and a Get exactly
    when it is empty: otherwise the Put is queued and the Get returns
    the head. *)
Theorem calls_after_stop (n : nat) (item : Item)
    (mb : MonitorBuffer.t) (sb : SemaphoreBuffer.t) :
  (2 <= n)%nat ->
  MonitorBuffer.lock mb = false ->
  run_alone (replicate n true) (bb_produce item) sb =
    (SemaphoreBuffer.Ret (RBool false), sb) /\
  run_alone (replicate n true) bb_consume sb =
    (SemaphoreBuffer.Ret (RItem None), sb) /\
  run_alone (replicate n true) (bb_produce item) mb =
    (if bool_decide (Z.of_nat (length (MonitorBuffer.q mb)) = MonitorBuffer.capacity mb)
     then (MonitorBuffer.Ret (RBool false), mb)
     else (MonitorBuffer.Ret (RBool true),
           MonitorBuffer.set_q (MonitorBuffer.q mb ++ [item]) mb)) /\
  run_alone (replicate n true) bb_consume mb =
    match MonitorBuffer.q mb with
    | [] => (MonitorBuffer.Ret (RItem None), mb)
    | x :: rest => (MonitorBuffer.Ret (RItem (Some x)), MonitorBuffer.set_q rest mb)
    end.
Proof.
  intros Hn Hl. repeat split.
  - apply sem_put_cancelled. lia.
  - apply sem_get_cancelled. lia.
  - case_bool_decide.
    + apply mon_put_cancelled; assumption.
    + apply mon_put_accepts; assumption.
  - destruct (MonitorBuffer.q mb) as [|x rest] eqn:E.
    + apply mon_get_cancelled; assumption.
    + apply mon_get_delivers; assumption.
Qed.

Lemma calls_after_stop_witness :
  run_alone (replicate 2 true) (bb_produce "P1-2") (SemaphoreBuffer.mk 2 ["P1-1"] 1 1 1) =
    (SemaphoreBuffer.Ret (RBool false), SemaphoreBuffer.mk 2 ["P1-1"] 1 1 1) /\
  run_alone (replicate 2 true) bb_consume (SemaphoreBuffer.mk 2 ["P1-1"] 1 1 1) =
    (SemaphoreBuffer.Ret (RItem None), SemaphoreBuffer.mk 2 ["P1-1"] 1 1 1) /\
  run_alone (replicate 2 true) (bb_produce "P1-2") (MonitorBuffer.mk 2 ["P1-1"] false) =
    (MonitorBuffer.Ret (RBool true), MonitorBuffer.mk 2 ["P1-1"; "P1-2"] false) /\
  run_alone (replicate 2 true) bb_consume (MonitorBuffer.mk 2 ["P1-1"] false) =
    (MonitorBuffer.Ret (RItem (Some "P1-1")), MonitorBuffer.mk 2 [] false).
Proof.
  apply (calls_after_stop 2 "P1-2" (MonitorBuffer.mk 2 ["P1-1"] false)
           (SemaphoreBuffer.mk 2 ["P1-1"] 1 1 1)).
  - lia.
  - reflexivity.
Defined.

(** ** The two implementations side by side *)

Lemma seq_run_returned {B PC} `{!BoundedBuffer B PC}
    (o : op) (ops : list op) (b b' : B) (p : PC) (r : result) :
  run_alone (op_stops o) (op_entry o) b = (p, b') ->
  bb_returned p = Some r ->
  seq_run (o :: ops) b = ((o, Some r) :: (seq_run ops b').1, (seq_run ops b').2).
Proof.
  intros Hrun Hret. simpl. rewrite Hrun, Hret.
  destruct (seq_run ops b') as [log bf]. reflexivity.
Qed.

Lemma seq_run_blocked {B PC} `{!BoundedBuffer B PC}
    (o : op) (ops : list op) (b b' : B) (p : PC) :
  run_alone (op_stops o) (op_entry o) b = (p, b') ->
  bb_returned p = None ->
  seq_run (o :: ops) b = ([(o, None)], b').
Proof. intros Hrun Hret. simpl. rewrite Hrun, Hret. reflexivity. Qed.

Lemma alike_init (cap : Z) (sb0 : SemaphoreBuffer.t) :
  SemaphoreBuffer.init cap = Some sb0 -> alike (MonitorBuffer.init cap) sb0.
Proof.
  intros Hinit. unfold SemaphoreBuffer.init, Semaphore.init in Hinit.
  repeat case_bool_decide; try lia; simplify_eq/=.
  constructor; simpl; auto; lia.
Qed.

Lemma mon_pending_not_returned (p : MonitorBuffer.pc) :
  mon_put_pending p \/ mon_get_pending p -> MonitorBuffer.returned p = None.
Proof. destruct p; simpl; tauto. Qed.

Lemma sem_pending_not_returned (p : SemaphoreBuffer.pc) :
  sem_put_pending p \/ sem_get_pending p -> SemaphoreBuffer.returned p = None.
Proof. destruct p; simpl; tauto. Qed.

Lemma under_stop_unset (o : op) :
  (forall s, In s (op_stops o) -> s = false) -> under_stop o = false.
Proof.
  unfold under_stop. destruct (op_stops o) as [|s l]; [reflexivity|].
  intros H. apply H. left. reflexivity.
Qed.

Lemma replicate_unset (n : nat) (s : bool) : In s (replicate n false) -> s = false.
Proof. induction n; simpl; intuition. Qed.

Lemma agree_from (fuel : nat) (cs : list call) :
  (7 <= fuel)%nat ->
  forall (s : bool) (mb : MonitorBuffer.t) (sb : SemaphoreBuffer.t),
  alike mb sb ->
  cancels_under_stop (seq_run (ops_of fuel s cs) mb).1 = true ->
  (seq_run (ops_of fuel s cs) mb).1 = (seq_run (ops_of fuel s cs) sb).1 /\
  bb_q (seq_run (ops_of fuel s cs) mb).2 = bb_q (seq_run (ops_of fuel s cs) sb).2.
Proof.
  intros Hfuel. induction cs as [|c cs IH]; intros s mb sb Hal.
  { intros _. simpl. split; [reflexivity | apply Hal]. }
  assert (2 <= fuel)%nat as Hn2 by lia.
  assert (1 <= fuel)%nat as Hn1 by lia.
  destruct Hal as [Hcap Hq Hl Hm Hf He Hr].
  destruct c as [item| |]; [| |apply IH; constructor; assumption].
  - (* Put *)
    change (ops_of fuel s (CPut item :: cs))
      with (Put item (replicate fuel s) :: ops_of fuel s cs).
    destruct (decide (Z.of_nat (length (MonitorBuffer.q mb)) = MonitorBuffer.capacity mb))
      as [Hfull|Hfree].
    + destruct s.
      * rewrite (seq_run_returned (Put item (replicate fuel true)) _ mb mb _ (RBool false)
                   (mon_put_cancelled fuel item mb Hn2 Hl Hfull) eq_refl).
        rewrite (seq_run_returned (Put item (replicate fuel true)) _ sb sb _ (RBool false)
                   (sem_put_cancelled fuel item sb Hn1) eq_refl).
        simpl. intros Hc. destruct (IH true mb sb) as [H1 H2];
          [constructor; assumption | |].
        { apply andb_prop in Hc. tauto. }
        split; [f_equal|]; assumption.
      * intros _.
        pose proof (mon_put_blocks fuel (MonitorBuffer.P_with item) mb I Hfull) as Hmb.
        pose proof (sem_put_blocks fuel (SemaphoreBuffer.P_loop1 item) sb I
                      ltac:(rewrite Hq in Hfull; lia)) as Hsb.
        simpl in Hmb, Hsb.
        destruct (run_alone (replicate fuel false) (MonitorBuffer.P_with item) mb)
          as [pm bm] eqn:Em.
        destruct (run_alone (replicate fuel false) (SemaphoreBuffer.P_loop1 item) sb)
          as [ps bs] eqn:Es.
        simpl in Hmb, Hsb. destruct Hmb as (Hp1 & Hq1 & _). destruct Hsb as [Hp2 ->].
        rewrite (seq_run_blocked (Put item (replicate fuel false)) _ mb bm pm Em
                   (mon_pending_not_returned pm (or_introl Hp1))).
        rewrite (seq_run_blocked (Put item (replicate fuel false)) _ sb sb ps Es
                   (sem_pending_not_returned ps (or_introl Hp2))).
        simpl. split; [reflexivity | congruence].
    + rewrite (seq_run_returned (Put item (replicate fuel s)) _ mb _ _ (RBool true)
                 (mon_put_accepts fuel s item mb Hn2 Hl Hfree) eq_refl).
      destruct s.
      * simpl. intros Hc. apply andb_prop in Hc. destruct Hc as [Hc _].
        destruct fuel; [lia | discriminate].
      * rewrite (seq_run_returned (Put item (replicate fuel false)) _ sb _ _ (RBool true)
                   (sem_put_accepts fuel item sb Hfuel
                      ltac:(rewrite Hq in Hfree; lia) ltac:(lia)) eq_refl).
        simpl. intros Hc.
        rewrite under_stop_unset in Hc by (simpl; apply replicate_unset).
        simpl in Hc.
        edestruct (IH false (MonitorBuffer.set_q (MonitorBuffer.q mb ++ [item]) mb)
                     (SemaphoreBuffer.mk (SemaphoreBuffer.capacity sb)
                     (SemaphoreBuffer.q sb ++ [item]) (SemaphoreBuffer.empty sb - 1)
                     (SemaphoreBuffer.full sb + 1) (SemaphoreBuffer.mutex sb)))
          as [H1 H2]; [| exact Hc |].
        { assert (0 < SemaphoreBuffer.empty sb) by (rewrite Hq in Hfree; lia).
          constructor; simpl; rewrite ?length_app; simpl; auto; try lia.
          congruence. }
        split; [f_equal|]; assumption.
  - (* Get *)
    change (ops_of fuel s (CGet :: cs))
      with (Get (replicate fuel s) :: ops_of fuel s cs).
    destruct (MonitorBuffer.q mb) as [|x rest] eqn:Eq.
    + destruct s.
      * rewrite (seq_run_returned (Get (replicate fuel true)) _ mb mb _ (RItem None)
                   (mon_get_cancelled fuel mb Hn2 Hl Eq) eq_refl).
        rewrite (seq_run_returned (Get (replicate fuel true)) _ sb sb _ (RItem None)
                   (sem_get_cancelled fuel sb Hn1) eq_refl).
        simpl. intros Hc. destruct (IH true mb sb) as [H1 H2];
          [constructor; auto; congruence | |].
        { apply andb_prop in Hc. tauto. }
        split; [f_equal|]; assumption.
      * intros _.
        pose proof (mon_get_blocks fuel MonitorBuffer.C_with mb I Eq) as Hmb.
        pose proof (sem_get_blocks fuel SemaphoreBuffer.C_loop1 sb I
                      ltac:(rewrite Hf, <- Hq; simpl; lia)) as Hsb.
        simpl in Hmb, Hsb.
        destruct (run_alone (replicate fuel false) MonitorBuffer.C_with mb)
          as [pm bm] eqn:Em.
        destruct (run_alone (replicate fuel false) SemaphoreBuffer.C_loop1 sb)
          as [ps bs] eqn:Es.
        simpl in Hmb, Hsb. destruct Hmb as (Hp1 & Hq1 & _). destruct Hsb as [Hp2 ->].
        rewrite (seq_run_blocked (Get (replicate fuel false)) _ mb bm pm Em
                   (mon_pending_not_returned pm (or_intror Hp1))).
        rewrite (seq_run_blocked (Get (replicate fuel false)) _ sb sb ps Es
                   (sem_pending_not_returned ps (or_intror Hp2))).
        simpl. split; [reflexivity | congruence].
    + rewrite (seq_run_returned (Get (replicate fuel s)) _ mb _ _ (RItem (Some x))
                 (mon_get_delivers fuel s x rest mb Hn2 Hl Eq) eq_refl).
      destruct s.
      * simpl. intros Hc. apply andb_prop in Hc. destruct Hc as [Hc _].
        destruct fuel; [lia | discriminate].
      * rewrite (seq_run_returned (Get (replicate fuel false)) _ sb _ _ (RItem (Some x))
                   (sem_get_delivers fuel x rest sb Hfuel
                      ltac:(rewrite Hf, <- Hq; simpl; lia) ltac:(lia)
                      (eq_sym Hq)) eq_refl).
        simpl. intros Hc.
        rewrite under_stop_unset in Hc by (simpl; apply replicate_unset).
        simpl in Hc.
        edestruct (IH false (MonitorBuffer.set_q rest mb)
                     (SemaphoreBuffer.mk (SemaphoreBuffer.capacity sb)
                     rest (SemaphoreBuffer.empty sb + 1)
                     (SemaphoreBuffer.full sb - 1) (SemaphoreBuffer.mutex sb)))
          as [H1 H2]; [| exact Hc |].
        { rewrite <- Hq in *. simpl in *.
          constructor; simpl; auto; try lia. }
        split; [f_equal|]; assumption.
Qed.

(** C1 as stated fails: once the signal is set, a Put on a buffer with
    room is accepted by [MonitorBuffer] and refused by
    [SemaphoreBuffer], and the final contents differ. *)
Lemma stop_then_put_counterexample :
  SemaphoreBuffer.init 1 = Some (SemaphoreBuffer.mk 1 [] 1 0 1) /\
  outcomes (seq_run (ops_of 7 false [CStop; CPut "P1-1"]) (MonitorBuffer.init 1)).1 =
    [Some (RBool true)] /\
  outcomes (seq_run (ops_of 7 false [CStop; CPut "P1-1"])
              (SemaphoreBuffer.mk 1 [] 1 0 1)).1 = [Some (RBool false)] /\
  bb_q (seq_run (ops_of 7 false [CStop; CPut "P1-1"]) (MonitorBuffer.init 1)).2 =
    ["P1-1"] /\
  bb_q (seq_run (ops_of 7 false [CStop; CPut "P1-1"])
          (SemaphoreBuffer.mk 1 [] 1 0 1)).2 = [] /\
  outcomes (seq_run (ops_of 7 false [CStop; CPut "P1-1"]) (MonitorBuffer.init 1)).1 <>
  outcomes (seq_run (ops_of 7 false [CStop; CPut "P1-1"])
              (SemaphoreBuffer.mk 1 [] 1 0 1)).1.
Proof. repeat split. vm_compute. discriminate. Qed.

(** C1, amended: for every sequence of Put and Get calls made one after
    the other, with the stop signal set at any point between two calls,
    both buffers log the same outcome for each call (accepted or not,
    the item or [None], or a call that never returns) and end with the
    same contents, provided every call [MonitorBuffer] ran with the
    signal set failed, that is, no Put was made with the signal set and
    room in the buffer and no Get with the signal set and an item in
    it. *)
Theorem monitor_semaphore_agree (cap : Z) (sb0 : SemaphoreBuffer.t)
    (cs : list call) (fuel : nat) :
  SemaphoreBuffer.init cap = Some sb0 ->
  (7 <= fuel)%nat ->
  cancels_under_stop (seq_run (ops_of fuel false cs) (MonitorBuffer.init cap)).1 = true ->
  (seq_run (ops_of fuel false cs) (MonitorBuffer.init cap)).1 =
    (seq_run (ops_of fuel false cs) sb0).1 /\
  bb_q (seq_run (ops_of fuel false cs) (MonitorBuffer.init cap)).2 =
    bb_q (seq_run (ops_of fuel false cs) sb0).2.
Proof.
  intros Hinit Hfuel Hc.
  apply agree_from; [assumption | apply alike_init, Hinit | assumption].
Qed.

Lemma monitor_semaphore_agree_witness :
  (seq_run (ops_of 7 false agree_calls) (MonitorBuffer.init 2)).1 =
    (seq_run (ops_of 7 false agree_calls) (SemaphoreBuffer.mk 2 [] 2 0 1)).1 /\
  bb_q (seq_run (ops_of 7 false agree_calls) (MonitorBuffer.init 2)).2 =
    bb_q (seq_run (ops_of 7 false agree_calls) (SemaphoreBuffer.mk 2 [] 2 0 1)).2.
Proof.
  apply (monitor_semaphore_agree 2 (SemaphoreBuffer.mk 2 [] 2 0 1) agree_calls 7).
  - reflexivity.
  - lia.
  - reflexivity.
Defined.

(** A call logged as not returned is blocked for good, not short of
    steps: on a full buffer and with the signal unset, a Put returns
    after no number of steps, in either implementation. *)
Lemma full_buffer_blocks_put (n : nat) (item : Item)
    (mb : MonitorBuffer.t) (sb : SemaphoreBuffer.t) :
  alike mb sb ->
  Z.of_nat (length (MonitorBuffer.q mb)) = MonitorBuffer.capacity mb ->
  bb_returned (run_alone (replicate n false) (bb_produce item) mb).1 = None /\
  bb_returned (run_alone (replicate n false) (bb_produce item) sb).1 = None.
Proof.
  intros [Hcap Hq Hl Hm Hf He Hr] Hfull. split.
  - apply mon_pending_not_returned. left.
    apply (mon_put_blocks n (MonitorBuffer.P_with item) mb I Hfull).
  - apply sem_pending_not_returned. left.
    apply (sem_put_blocks n (SemaphoreBuffer.P_loop1 item) sb I).
    rewrite Hq in Hfull. lia.
Qed.

(** ** Construction *)

(** C7 as stated fails: both constructors hand out a buffer for capacity
    0, and [MonitorBuffer] does so for a negative capacity too. *)
Lemma zero_capacity_counterexample :
  FullSimulatorC.new_buffer "Monitor" 0 =
    Some (FullSimulatorC.MonitorModel (MonitorBuffer.mk 0 [] false)) /\
  FullSimulatorC.new_buffer "Semaphore" 0 =
    Some (FullSimulatorC.SemaphoreModel (SemaphoreBuffer.mk 0 [] 0 0 1)) /\
  FullSimulatorC.new_buffer "Monitor" (-1) =
    Some (FullSimulatorC.MonitorModel (MonitorBuffer.mk (-1) [] false)).
Proof. repeat split. Qed.

(** C7, amended: neither constructor checks the capacity.
    [MonitorBuffer] is built for every capacity; [SemaphoreBuffer] is
    built for every capacity from 0 up and fails only for a negative
    one, where the constructor of its [empty] semaphore raises.  On a
    buffer of capacity 0 a Put never returns while the stop signal is
    unset. *)
Theorem constructors_do_not_check (mode : string) (cap : Z) (n : nat) (item : Item) :
  FullSimulatorC.new_buffer mode cap =
    (if String.eqb mode "Monitor"
     then Some (FullSimulatorC.MonitorModel (MonitorBuffer.mk cap [] false))
     else if bool_decide (cap < 0) then None
     else Some (FullSimulatorC.SemaphoreModel (SemaphoreBuffer.mk cap [] cap 0 1))) /\
  bb_returned (run_alone (replicate n false) (bb_produce item)
                 (MonitorBuffer.init 0)).1 = None /\
  bb_returned (run_alone (replicate n false) (bb_produce item)
                 (SemaphoreBuffer.mk 0 [] 0 0 1)).1 = None.
Proof.
  split.
  - unfold FullSimulatorC.new_buffer, SemaphoreBuffer.init, Semaphore.init,
      MonitorBuffer.init.
    destruct (String.eqb mode "Monitor"); [reflexivity|].
    repeat case_bool_decide; try lia; reflexivity.
  - apply full_buffer_blocks_put; [|reflexivity].
    constructor; reflexivity || (simpl; lia).
Qed.


(** ** The session counters *)
Section Counters.
Import FullSimulatorC.

Lemma call_effect (o : op) (m : buffer) (res : result) :
  (call o m).1 = Some res ->
  delivered (o, Some res) ++ buffer_q (call o m).2 =
  buffer_q m ++ accepted (o, Some res).
Proof.
  destruct m as [b|b]; unfold call.
  - pose proof (mon_call_effect o b res) as H.
    destruct (run_alone (op_stops o) (op_entry o) b) as [p b']. exact H.
  - pose proof (sem_call_effect o b res) as H.
    destruct (run_alone (op_stops o) (op_entry o) b) as [p b']. exact H.
Qed.

End Counters.


(** ** The scenario of capacity 3 *)

Lemma exec_replicate_closed {B PC} `{!BoundedBuffer B PC}
    (S : world B PC -> Prop) (a : action) :
  (forall w, S w -> S (exec1 w a)) ->
  forall (n : nat) (w : world B PC), S w -> S (exec (replicate n a) w).
Proof.
  intros Hstep. induction n as [|n IH]; intros w Hw; [exact Hw|].
  change (exec (replicate (Datatypes.S n) a) w) with (exec (replicate n a) (exec1 w a)).
  apply IH, Hstep, Hw.
Qed.

Lemma mon_fourth_put_polls (n : nat) :
  mon_polling (exec (fourth_put n) (World false mon_full mon_done)).
Proof.
  unfold fourth_put.
  change (exec (CallProduce "A4" :: replicate n (Run 3)) (World false mon_full mon_done))
    with (exec (replicate n (Run 3))
            (World false mon_full (mon_done ++ [MonitorBuffer.P_with "A4"]))).
  apply exec_replicate_closed.
  - intros w [-> | [-> | ->]]; vm_compute; tauto.
  - left. reflexivity.
Qed.

Lemma sem_fourth_put_polls (n : nat) :
  sem_polling (exec (fourth_put n) (World false sem_full sem_done)).
Proof.
  unfold fourth_put.
  change (exec (CallProduce "A4" :: replicate n (Run 3)) (World false sem_full sem_done))
    with (exec (replicate n (Run 3))
            (World false sem_full (sem_done ++ [SemaphoreBuffer.P_loop1 "A4"]))).
  apply exec_replicate_closed.
  - intros w [-> | ->]; vm_compute; tauto.
  - left. reflexivity.
Qed.

(** C9: capacity 3, no cancellation, in both implementations.  After
    three Puts the buffer holds A1, A2, A3.  The fourth Put, left alone
    for any number [n] of steps, has not returned and the buffer is
    unchanged.  When a Get then arrives and both calls take steps in
    turn, the Get returns A1, the pending Put of A4 returns [True] and
    the buffer holds A2, A3, A4. *)
Theorem capacity_three_scenario (n : nat) :
  (exec three_puts (monitor_world false 3) = World false mon_full mon_done /\
   put_pending (exec (fourth_put n) (World false mon_full mon_done)) /\
   put_resumed (exec one_get (exec (fourth_put n) (World false mon_full mon_done)))) /\
  (SemaphoreBuffer.init 3 = Some (SemaphoreBuffer.mk 3 [] 3 0 1) /\
   exec three_puts (semaphore_world false (SemaphoreBuffer.mk 3 [] 3 0 1)) =
     World false sem_full sem_done /\
   put_pending (exec (fourth_put n) (World false sem_full sem_done)) /\
   put_resumed (exec one_get (exec (fourth_put n) (World false sem_full sem_done)))).
Proof.
  split; [|split; [reflexivity|]]; (split; [reflexivity|]).
  - destruct (mon_fourth_put_polls n) as [-> | [-> | ->]];
      split; vm_compute; repeat split.
  - destruct (sem_fourth_put_polls n) as [-> | ->];
      split; vm_compute; repeat split.
Qed.

(** ** What one step does to the queue *)

Lemma queue_step (q q' : list Item) :
  q' = q \/ (exists x, q' = q ++ [x]) \/ (exists x, q = x :: q') ->
  removed_by q q' ++ q' = q ++ appended_by q q'.
Proof.
  unfold removed_by, appended_by. intros [-> | [[x ->] | [x ->]]].
  - rewrite Nat.sub_diag, drop_all, app_nil_r. reflexivity.
  - rewrite length_app, drop_app_length. simpl.
    replace (length q - (length q + 1))%nat with 0%nat by lia. reflexivity.
  - rewrite drop_ge by (simpl; lia). simpl.
    replace (S (length q') - length q')%nat with 1%nat by lia.
    rewrite app_nil_r. reflexivity.
Qed.

Lemma mon_step_queue (s : bool) (p : MonitorBuffer.pc) (b : MonitorBuffer.t) :
  bb_q (bb_step s p b).2 = bb_q b \/
  (exists x, bb_q (bb_step s p b).2 = bb_q b ++ [x]) \/
  (exists x, bb_q b = x :: bb_q (bb_step s p b).2).
Proof.
  destruct p; simpl; repeat case_match; simpl; eauto.
Qed.

Lemma sem_step_queue (s : bool) (p : SemaphoreBuffer.pc) (b : SemaphoreBuffer.t) :
  bb_q (bb_step s p b).2 = bb_q b \/
  (exists x, bb_q (bb_step s p b).2 = bb_q b ++ [x]) \/
  (exists x, bb_q b = x :: bb_q (bb_step s p b).2).
Proof.
  destruct p; simpl; repeat case_match; simpl; eauto.
Qed.

Section History.
Context {B PC : Type} `{!BoundedBuffer B PC}.
Hypothesis step_queue : forall (s : bool) (p : PC) (b : B),
  bb_q (bb_step s p b).2 = bb_q b \/
  (exists x, bb_q (bb_step s p b).2 = bb_q b ++ [x]) \/
  (exists x, bb_q b = x :: bb_q (bb_step s p b).2).

Lemma exec1_queue (a : action) (w : world B PC) :
  removed_by (bb_q (w_buf w)) (bb_q (w_buf (exec1 w a))) ++ bb_q (w_buf (exec1 w a)) =
  bb_q (w_buf w) ++ appended_by (bb_q (w_buf w)) (bb_q (w_buf (exec1 w a))).
Proof.
  apply queue_step. destruct a as [item| | |tid]; simpl; auto.
  destruct (w_pool w !! tid) as [p|]; [|auto].
  pose proof (step_queue (w_stop w) p (w_buf w)) as H.
  destruct (bb_step (w_stop w) p (w_buf w)) as [p' b']. exact H.
Qed.

End History.

(** With the stop signal unset, a Get on an empty buffer returns after
    no number of steps, in either implementation. *)
Lemma empty_buffer_blocks_get (n : nat)
    (mb : MonitorBuffer.t) (sb : SemaphoreBuffer.t) :
  alike mb sb ->
  MonitorBuffer.q mb = [] ->
  bb_returned (run_alone (replicate n false) bb_consume mb).1 = None /\
  bb_returned (run_alone (replicate n false) bb_consume sb).1 = None.
Proof.
  intros [Hcap Hq Hl Hm Hf He Hr] Hnil. split.
  - apply mon_pending_not_returned. right.
    apply (mon_get_blocks n MonitorBuffer.C_with mb I Hnil).
  - apply sem_pending_not_returned. right.
    apply (sem_get_blocks n SemaphoreBuffer.C_loop1 sb I).
    rewrite Hf, <- Hq, Hnil. simpl. lia.
Qed.

(** * Further properties of the buffers *)

(** X1: a Get that returns [None] leaves the buffer as it found it,
    whenever the stop signal is set while it runs: the whole state for
    [MonitorBuffer], and for [SemaphoreBuffer] too when [full] counts
    the queued items, as it does between calls. *)
Theorem cancelled_get_changes_nothing (stops : list bool)
    (mb : MonitorBuffer.t) (sb : SemaphoreBuffer.t) :
  (bb_returned (run_alone stops bb_consume mb).1 = Some (RItem None) ->
   (run_alone stops bb_consume mb).2 = mb) /\
  (SemaphoreBuffer.full sb = Z.of_nat (length (SemaphoreBuffer.q sb)) ->
   bb_returned (run_alone stops bb_consume sb).1 = Some (RItem None) ->
   (run_alone stops bb_consume sb).2 = sb).
Proof.
  split; simpl.
  - pose proof (mon_consume_inv_run mb stops _ _ (mon_consume_inv_init mb)) as [Hc H].
    destruct (run_alone stops MonitorBuffer.consume mb) as [p b'].
    simpl in *. intros Hr. destruct p; simpl in Hr; simplify_eq.
    apply mon_eq; intuition congruence.
  - intros Hfull.
    pose proof (sem_consume_inv_run sb stops _ _ (sem_consume_inv_init sb)) as [Hc H].
    destruct (run_alone stops SemaphoreBuffer.consume sb) as [p b'].
    simpl in *. intros Hr. destruct p; simpl in Hr; simplify_eq.
    unfold sem_delta in H. destruct H as [Hq [H | (Hnil & _ & Hpos)]].
    + apply sem_eq; intuition (try congruence; try lia).
    + rewrite Hnil in Hfull. simpl in Hfull. lia.
Qed.

Lemma cancelled_get_changes_nothing_witness :
  (run_alone [false; false; true; true] bb_consume (MonitorBuffer.mk 2 [] false)).2 =
    MonitorBuffer.mk 2 [] false /\
  (run_alone [false; false; true; true] bb_consume
     (SemaphoreBuffer.mk 2 ["P1-1"] 1 1 1)).2 = SemaphoreBuffer.mk 2 ["P1-1"] 1 1 1.
Proof.
  destruct (cancelled_get_changes_nothing [false; false; true; true]
              (MonitorBuffer.mk 2 [] false)
              (SemaphoreBuffer.mk 2 ["P1-1"] 1 1 1)) as [Hm Hs].
  split; [apply Hm | apply Hs]; reflexivity.
Defined.

(** A blocked Put of [MonitorBuffer] is at one of three points, and the
    buffer is the one it found, up to the lock it may hold. *)
Lemma mon_blocked_put_state (n : nat) (item : Item) (mb : MonitorBuffer.t) :
  MonitorBuffer.lock mb = false ->
  Z.of_nat (length (MonitorBuffer.q mb)) = MonitorBuffer.capacity mb ->
  let r := run_alone (replicate n false) (bb_produce item) mb in
  r = (MonitorBuffer.P_with item, mb) \/
  r = (MonitorBuffer.P_while item, MonitorBuffer.set_lock true mb) \/
  r = (MonitorBuffer.P_wait item, mb).
Proof.
  intros Hl Hfull. simpl.
  pose proof (mon_produce_inv_run item mb (replicate n false) _ _
                (mon_produce_inv_init item mb)) as [Hc H].
  pose proof (mon_put_blocks n (MonitorBuffer.P_with item) mb I Hfull) as (Hp & _ & _).
  change (MonitorBuffer.P_with item) with (MonitorBuffer.produce item) in Hp.
  destruct (run_alone (replicate n false) (MonitorBuffer.produce item) mb) as [p b'].
  simpl in *. destruct p; simpl in Hp; try tauto.
  - left. f_equal; [intuition congruence|]. apply mon_eq; intuition congruence.
  - right; left. f_equal; [intuition congruence|]. apply mon_eq; simpl; intuition congruence.
  - right; right. f_equal; [intuition congruence|]. apply mon_eq; intuition congruence.
Qed.

Lemma mon_blocked_get_state (n : nat) (mb : MonitorBuffer.t) :
  MonitorBuffer.lock mb = false ->
  MonitorBuffer.q mb = [] ->
  let r := run_alone (replicate n false) bb_consume mb in
  r = (MonitorBuffer.C_with, mb) \/
  r = (MonitorBuffer.C_while, MonitorBuffer.set_lock true mb) \/
  r = (MonitorBuffer.C_wait, mb).
Proof.
  intros Hl Hnil. simpl.
  pose proof (mon_consume_inv_run mb (replicate n false) _ _
                (mon_consume_inv_init mb)) as [Hc H].
  pose proof (mon_get_blocks n MonitorBuffer.C_with mb I Hnil) as (Hp & _ & _).
  change MonitorBuffer.C_with with MonitorBuffer.consume in Hp.
  destruct (run_alone (replicate n false) MonitorBuffer.consume mb) as [p b'].
  simpl in *. destruct p; simpl in Hp; try tauto.
  - left. f_equal. apply mon_eq; intuition congruence.
  - right; left. f_equal. apply mon_eq; simpl; intuition congruence.
  - right; right. f_equal. apply mon_eq; intuition congruence.
Qed.

(** X2: a Put blocked on a full buffer, and a Get blocked on an empty
    one, give up within two of their own steps once the stop signal is
    set, however long they had been polling: they return [False], resp.
    [None], and leave the buffer as it was.  Both implementations. *)
Theorem blocked_calls_give_up (n k : nat) (item : Item)
    (mb : MonitorBuffer.t) (sb : SemaphoreBuffer.t) :
  alike mb sb ->
  (2 <= k)%nat ->
  (Z.of_nat (length (MonitorBuffer.q mb)) = MonitorBuffer.capacity mb ->
   run_alone (replicate n false ++ replicate k true) (bb_produce item) mb =
     (MonitorBuffer.Ret (RBool false), mb) /\
   run_alone (replicate n false ++ replicate k true) (bb_produce item) sb =
     (SemaphoreBuffer.Ret (RBool false), sb)) /\
  (MonitorBuffer.q mb = [] ->
   run_alone (replicate n false ++ replicate k true) bb_consume mb =
     (MonitorBuffer.Ret (RItem None), mb) /\
   run_alone (replicate n false ++ replicate k true) bb_consume sb =
     (SemaphoreBuffer.Ret (RItem None), sb)).
Proof.
  intros [Hcap Hq Hl Hm Hf He Hr] Hk.
  destruct k as [|[|k]]; [lia|lia|]. split.
  - intros Hfull. split; rewrite run_alone_app.
    + destruct (mon_blocked_put_state n item mb Hl Hfull) as [-> | [-> | ->]];
        simpl; rewrite ?Hl; simpl;
        rewrite ?(bool_decide_eq_true_2 _ Hfull); simpl;
        rewrite ?(bool_decide_eq_true_2 _ Hfull); simpl;
        rewrite mon_ret_stays; f_equal; apply mon_eq; simpl; auto.
    + assert (SemaphoreBuffer.empty sb <= 0) as He0 by (rewrite Hq in Hfull; lia).
      pose proof (sem_put_blocks n (SemaphoreBuffer.P_loop1 item) sb I He0) as Hb.
      simpl in Hb |- *. unfold SemaphoreBuffer.produce.
      destruct (run_alone (replicate n false) (SemaphoreBuffer.P_loop1 item) sb)
        as [p b']. simpl in Hb. destruct Hb as [Hp ->].
      destruct p; simpl in Hp; try tauto; simpl.
      * apply sem_ret_stays.
      * unfold Semaphore.acquire. rewrite bool_decide_eq_false_2 by lia.
        simpl. apply sem_ret_stays.
  - intros Hnil. split; rewrite run_alone_app.
    + destruct (mon_blocked_get_state n mb Hl Hnil) as [-> | [-> | ->]];
        simpl; rewrite ?Hl; simpl; rewrite ?Hnil; simpl;
        rewrite mon_ret_stays; f_equal; apply mon_eq; simpl; auto.
    + assert (SemaphoreBuffer.full sb <= 0) as Hf0
        by (rewrite Hf, <- Hq, Hnil; simpl; lia).
      pose proof (sem_get_blocks n SemaphoreBuffer.C_loop1 sb I Hf0) as Hb.
      simpl in Hb |- *. unfold SemaphoreBuffer.consume.
      destruct (run_alone (replicate n false) SemaphoreBuffer.C_loop1 sb)
        as [p b']. simpl in Hb. destruct Hb as [Hp ->].
      destruct p; simpl in Hp; try tauto; simpl.
      * apply sem_ret_stays.
      * unfold Semaphore.acquire. rewrite bool_decide_eq_false_2 by lia.
        simpl. apply sem_ret_stays.
Qed.

Lemma blocked_calls_give_up_witness :
  (run_alone (replicate 5 false ++ replicate 2 true) (bb_produce "P1-2")
     (MonitorBuffer.mk 1 ["P1-1"] false) =
     (MonitorBuffer.Ret (RBool false), MonitorBuffer.mk 1 ["P1-1"] false) /\
   run_alone (replicate 5 false ++ replicate 2 true) (bb_produce "P1-2")
     (SemaphoreBuffer.mk 1 ["P1-1"] 0 1 1) =
     (SemaphoreBuffer.Ret (RBool false), SemaphoreBuffer.mk 1 ["P1-1"] 0 1 1)) /\
  (run_alone (replicate 4 false ++ replicate 2 true) bb_consume
     (MonitorBuffer.mk 1 [] false) =
     (MonitorBuffer.Ret (RItem None), MonitorBuffer.mk 1 [] false) /\
   run_alone (replicate 4 false ++ replicate 2 true) bb_consume
     (SemaphoreBuffer.mk 1 [] 1 0 1) =
     (SemaphoreBuffer.Ret (RItem None), SemaphoreBuffer.mk 1 [] 1 0 1)).
Proof.
  assert (alike (MonitorBuffer.mk 1 ["P1-1"] false) (SemaphoreBuffer.mk 1 ["P1-1"] 0 1 1))
    as Hfull by (constructor; simpl; (reflexivity || lia)).
  assert (alike (MonitorBuffer.mk 1 [] false) (SemaphoreBuffer.mk 1 [] 1 0 1))
    as Hnil by (constructor; simpl; (reflexivity || lia)).
  split.
  - apply (blocked_calls_give_up 5 2 "P1-2" _ _ Hfull); [lia | reflexivity].
  - apply (blocked_calls_give_up 4 2 "P1-2" _ _ Hnil); [lia | reflexivity].
Defined.

(** ** Mutual exclusion *)

Lemma total_lookup2_le {PC} (f : PC -> Z) (l : list PC) (i j : nat) (p p' : PC) :
  (forall x, 0 <= f x) -> i <> j ->
  l !! i = Some p -> l !! j = Some p' -> f p + f p' <= total f l.
Proof.
  intros Hf. revert i j. induction l as [|x l IH]; intros [|i] [|j] Hne Hi Hj;
    simplify_eq/=.
  - pose proof (total_lookup_le f l j p' Hf Hj). lia.
  - pose proof (total_lookup_le f l i p Hf Hi). lia.
  - assert (i <> j) as Hne' by congruence.
    specialize (IH i j Hne' Hi Hj). specialize (Hf x). lia.
Qed.

Lemma critical_nonneg (p : SemaphoreBuffer.pc) : 0 <= Permits.critical p.
Proof. destruct p; simpl; lia. Qed.

Lemma held_nonneg (p : SemaphoreBuffer.pc) : 0 <= Permits.held p.
Proof. destruct p; simpl; lia. Qed.

Lemma mon_inside_nonneg (p : MonitorBuffer.pc) : 0 <= mon_inside p.
Proof. destruct p; simpl; lia. Qed.

(** X3: in [SemaphoreBuffer], under every interleaving, at most one call
    is between its [mutex.acquire] and its [mutex.release], and a step
    that changes the queue is always a step of that call. *)
Theorem semaphore_mutual_exclusion (cap : Z) (sb0 : SemaphoreBuffer.t)
    (stop : bool) (sched : list action) :
  SemaphoreBuffer.init cap = Some sb0 ->
  (forall (i j : nat) (p p' : SemaphoreBuffer.pc),
     w_pool (exec sched (semaphore_world stop sb0)) !! i = Some p ->
     w_pool (exec sched (semaphore_world stop sb0)) !! j = Some p' ->
     Permits.critical p = 1 -> Permits.critical p' = 1 -> i = j) /\
  (forall (s : bool) (p : SemaphoreBuffer.pc) (b : SemaphoreBuffer.t),
     SemaphoreBuffer.q (SemaphoreBuffer.step s p b).2 <> SemaphoreBuffer.q b ->
     Permits.critical p = 1).
Proof.
  intros Hinit. split.
  - intros i j p p' Hi Hj Hp Hp'.
    destruct (sem_inv_fresh cap sb0 stop Hinit) as [H0 _].
    destruct (sem_inv_exec sched _ H0) as [[_ _ Hm _ _ Hcr _] _].
    fold (semaphore_world stop sb0) in *.
    destruct (decide (i = j)) as [|Hne]; [assumption|]. exfalso.
    pose proof (total_lookup2_le Permits.critical _ i j p p' critical_nonneg Hne Hi Hj).
    lia.
  - intros s p b Hq. destruct p; simpl in *; repeat case_match; simpl in *;
      try reflexivity; congruence.
Qed.

Lemma semaphore_mutual_exclusion_witness :
  w_pool (exec [CallProduce "P1-1"; CallConsume; Run 0; Run 0; Run 0; Run 0; Run 1]
            (semaphore_world false (SemaphoreBuffer.mk 2 [] 2 0 1))) !! 0%nat =
    Some (SemaphoreBuffer.P_append "P1-1") /\
  Permits.critical (SemaphoreBuffer.P_append "P1-1") = 1 /\
  0%nat = 0%nat.
Proof.
  split; [reflexivity|]. split; [reflexivity|].
  apply (proj1 (semaphore_mutual_exclusion 2 (SemaphoreBuffer.mk 2 [] 2 0 1) false
                  [CallProduce "P1-1"; CallConsume; Run 0; Run 0; Run 0; Run 0; Run 1]
                  eq_refl)
           0%nat 0%nat (SemaphoreBuffer.P_append "P1-1") (SemaphoreBuffer.P_append "P1-1"));
    reflexivity.
Defined.

Lemma mon_step_lock (s : bool) (p : MonitorBuffer.pc) (b : MonitorBuffer.t) :
  mon_inside p <= lock_value b ->
  lock_value (MonitorBuffer.step s p b).2 - mon_inside (MonitorBuffer.step s p b).1 =
  lock_value b - mon_inside p.
Proof.
  unfold lock_value. destruct p; simpl; repeat case_match; simpl in *;
    try congruence; lia.
Qed.

Lemma mon_lock_exec (sched : list action) (w : world MonitorBuffer.t MonitorBuffer.pc) :
  lock_value (w_buf w) = total mon_inside (w_pool w) ->
  lock_value (w_buf (exec sched w)) = total mon_inside (w_pool (exec sched w)).
Proof.
  revert w. induction sched as [|a sched IH]; intros w Hw; [exact Hw|].
  change (exec (a :: sched) w) with (exec sched (exec1 w a)). apply IH.
  destruct a as [item| | |tid]; simpl; rewrite ?total_app; simpl; try lia.
  destruct (w_pool w !! tid) as [p|] eqn:Hl; [|exact Hw].
  pose proof (total_lookup_le mon_inside _ _ _ mon_inside_nonneg Hl) as Hle.
  pose proof (mon_step_lock (w_stop w) p (w_buf w) ltac:(lia)) as H.
  destruct (MonitorBuffer.step (w_stop w) p (w_buf w)) as [p' b']. simpl in *.
  rewrite (total_insert _ _ _ _ _ Hl). lia.
Qed.

(** X4: in [MonitorBuffer], under every interleaving, the lock is held
    exactly when one call is inside the [with self.lock] block, no two
    calls are inside at once, and a step that changes the queue is always
    a step of the call inside. *)
Theorem monitor_mutual_exclusion (cap : Z) (stop : bool) (sched : list action) :
  lock_value (w_buf (exec sched (monitor_world stop cap))) =
    total mon_inside (w_pool (exec sched (monitor_world stop cap))) /\
  (forall (i j : nat) (p p' : MonitorBuffer.pc),
     w_pool (exec sched (monitor_world stop cap)) !! i = Some p ->
     w_pool (exec sched (monitor_world stop cap)) !! j = Some p' ->
     mon_inside p = 1 -> mon_inside p' = 1 -> i = j) /\
  (forall (s : bool) (p : MonitorBuffer.pc) (b : MonitorBuffer.t),
     MonitorBuffer.q (MonitorBuffer.step s p b).2 <> MonitorBuffer.q b ->
     mon_inside p = 1).
Proof.
  assert (lock_value (w_buf (exec sched (monitor_world stop cap))) =
          total mon_inside (w_pool (exec sched (monitor_world stop cap)))) as Hinv
    by (apply mon_lock_exec; reflexivity).
  split; [exact Hinv|]. split.
  - intros i j p p' Hi Hj Hp Hp'.
    destruct (decide (i = j)) as [|Hne]; [assumption|]. exfalso.
    pose proof (total_lookup2_le mon_inside _ i j p p' mon_inside_nonneg Hne Hi Hj).
    unfold lock_value in Hinv. destruct (MonitorBuffer.lock _); lia.
  - intros s p b Hq. destruct p; simpl in *; repeat case_match; simpl in *;
      try reflexivity; congruence.
Qed.

(** X5: the semaphores of a [SemaphoreBuffer] stay within their initial
    values under every interleaving: [empty] and [full] between 0 and the
    capacity, [mutex] between 0 and 1.  No release ever pushes a
    semaphore above the value it was created for. *)
Theorem semaphores_stay_bounded (cap : Z) (sb0 : SemaphoreBuffer.t)
    (stop : bool) (sched : list action) :
  SemaphoreBuffer.init cap = Some sb0 ->
  let b := w_buf (exec sched (semaphore_world stop sb0)) in
  0 <= SemaphoreBuffer.empty b <= cap /\
  0 <= SemaphoreBuffer.full b <= cap /\
  0 <= SemaphoreBuffer.mutex b <= 1.
Proof.
  intros Hinit. cbv zeta. unfold semaphore_world.
  destruct (sem_inv_fresh cap sb0 stop Hinit) as [H0 Hc].
  destruct (sem_inv_exec sched _ H0) as [[He Hf Hm Hp Hi Hcr _] H2].
  pose proof (total_nonneg Permits.held (w_pool (exec sched (fresh stop sb0))) held_nonneg).
  pose proof (total_nonneg Permits.critical (w_pool (exec sched (fresh stop sb0)))
                critical_nonneg).
  simpl in H2. lia.
Qed.

Lemma semaphores_stay_bounded_witness :
  let b := w_buf (exec [CallProduce "P1-1"; Run 0; Run 0; SetStop; Run 0; Run 0]
                    (semaphore_world false (SemaphoreBuffer.mk 2 [] 2 0 1))) in
  0 <= SemaphoreBuffer.empty b <= 2 /\
  0 <= SemaphoreBuffer.full b <= 2 /\
  0 <= SemaphoreBuffer.mutex b <= 1.
Proof.
  apply (semaphores_stay_bounded 2 (SemaphoreBuffer.mk 2 [] 2 0 1) false). reflexivity.
Defined.

(** ** Progress *)

(** A call that is the only one scheduled behaves as when run alone. *)
Lemma exec_run_alone {B PC} `{!BoundedBuffer B PC}
    (k : nat) (tid : nat) (p : PC) (w : world B PC) :
  w_pool w !! tid = Some p ->
  w_buf (exec (replicate k (Run tid)) w) =
    (run_alone (replicate k (w_stop w)) p (w_buf w)).2 /\
  w_pool (exec (replicate k (Run tid)) w) !! tid =
    Some (run_alone (replicate k (w_stop w)) p (w_buf w)).1.
Proof.
  revert p w. induction k as [|k IH]; intros p w Hl; [simpl; auto|].
  change (exec (replicate (S k) (Run tid)) w)
    with (exec (replicate k (Run tid)) (exec1 w (Run tid))).
  simpl. rewrite Hl.
  destruct (bb_step (w_stop w) p (w_buf w)) as [p' b'] eqn:E.
  apply (IH p' (World (w_stop w) b' (<[tid:=p']> (w_pool w)))).
  simpl. apply list_lookup_insert_eq. eapply lookup_lt_Some, Hl.
Qed.

Lemma sem_enabled_moves (p : SemaphoreBuffer.pc) (b : SemaphoreBuffer.t) :
  sem_enabled b p = true ->
  exists k : nat, (k <= 2)%nat /\
    (run_alone (replicate k false) p b).2 <> b.
Proof.
  intros He.
  assert (forall b' : SemaphoreBuffer.t,
            SemaphoreBuffer.empty b' <> SemaphoreBuffer.empty b \/
            SemaphoreBuffer.full b' <> SemaphoreBuffer.full b \/
            SemaphoreBuffer.mutex b' <> SemaphoreBuffer.mutex b \/
            length (SemaphoreBuffer.q b') <> length (SemaphoreBuffer.q b) ->
            b' <> b) as Hne.
  { intros b' H ->. tauto. }
  destruct p; simpl in He; try discriminate;
    try apply bool_decide_eq_true_1 in He;
    try (exists 1%nat; split; [lia|]; apply Hne; simpl;
         unfold Semaphore.acquire, Semaphore.release;
         rewrite ?bool_decide_eq_true_2 by assumption; simpl;
         rewrite ?length_app; simpl; lia);
    try (exists 2%nat; split; [lia|]; apply Hne; simpl;
         unfold Semaphore.acquire, Semaphore.release;
         rewrite ?bool_decide_eq_true_2 by assumption; simpl; lia).
  destruct (SemaphoreBuffer.q b) as [|x rest] eqn:E; [discriminate|].
  exists 1%nat. split; [lia|]. apply Hne. simpl. rewrite E. simpl. lia.
Qed.

Lemma total_zero {PC} (f : PC -> Z) (l : list PC) :
  Forall (fun p => f p = 0) l -> total f l = 0.
Proof. induction 1 as [|p l Hp _ IH]; simpl; lia. Qed.

(** X6: [SemaphoreBuffer] never deadlocks.  For a positive capacity,
    under every interleaving, whenever the stop signal is unset and a Put
    and a Get are both in flight, some call in flight changes the buffer
    within two steps of its own: it is never the case that every call
    waits for a permit nobody can release. *)
Theorem semaphore_never_deadlocks (cap : Z) (sb0 : SemaphoreBuffer.t)
    (stop : bool) (sched : list action)
    (tp tc : nat) (pp pc : SemaphoreBuffer.pc) :
  0 < cap ->
  SemaphoreBuffer.init cap = Some sb0 ->
  w_stop (exec sched (semaphore_world stop sb0)) = false ->
  w_pool (exec sched (semaphore_world stop sb0)) !! tp = Some pp ->
  sem_producing pp = true ->
  w_pool (exec sched (semaphore_world stop sb0)) !! tc = Some pc ->
  sem_consuming pc = true ->
  exists (tid k : nat), (k <= 2)%nat /\
    w_buf (exec (replicate k (Run tid)) (exec sched (semaphore_world stop sb0))) <>
    w_buf (exec sched (semaphore_world stop sb0)).
Proof.
  intros Hcap Hinit Hstop Hp Hpp Hc Hpc.
  destruct (sem_inv_fresh cap sb0 stop Hinit) as [H0 Hcap0].
  destruct (sem_inv_exec sched _ H0) as [[He Hf Hm Hper Hit Hcr Hn] H2].
  fold (semaphore_world stop sb0) in *.
  set (w := exec sched (semaphore_world stop sb0)) in *.
  assert (exists tid p, w_pool w !! tid = Some p /\ sem_enabled (w_buf w) p = true)
    as (tid & p & Hl & Hen).
  { destruct (Forall_Exists_dec (fun p => sem_acting p = false)
                (fun p => sem_acting p = true)
                (fun p => match sem_acting p as a return {a = false} + {a = true} with
                          | true => right eq_refl
                          | false => left eq_refl
                          end) (w_pool w)) as [Hnone | Hsome].
    - assert (total Permits.critical (w_pool w) = 0) as Hz.
      { apply total_zero. eapply Forall_impl; [exact Hnone|].
        intros [] ?; simpl in *; congruence. }
      destruct (Forall_Exists_dec (fun p => sem_wants_mutex p = false)
                  (fun p => sem_wants_mutex p = true)
                  (fun p => match sem_wants_mutex p as a
                                  return {a = false} + {a = true} with
                            | true => right eq_refl
                            | false => left eq_refl
                            end) (w_pool w)) as [Hnom | Hwm].
      + assert (total Permits.held (w_pool w) = 0) as Hh.
        { apply total_zero. apply Forall_lookup. intros i x Hx.
          pose proof (Forall_lookup_1 _ _ _ _ Hnone Hx) as Ha.
          pose proof (Forall_lookup_1 _ _ _ _ Hnom Hx) as Hb.
          destruct x; simpl in *; congruence. }
        pose proof (Forall_lookup_1 _ _ _ _ Hnone Hp) as Hpa.
        pose proof (Forall_lookup_1 _ _ _ _ Hnom Hp) as Hpb.
        pose proof (Forall_lookup_1 _ _ _ _ Hnone Hc) as Hca.
        pose proof (Forall_lookup_1 _ _ _ _ Hnom Hc) as Hcb.
        simpl in H2.
        destruct (decide (0 < SemaphoreBuffer.empty (w_buf w))) as [Hpos|Hzero].
        * exists tp, pp. split; [assumption|].
          destruct pp; simpl in *; try discriminate;
            apply bool_decide_eq_true_2; assumption.
        * exists tc, pc. split; [assumption|].
          destruct pc; simpl in *; try discriminate;
            apply bool_decide_eq_true_2; lia.
      + apply Exists_exists in Hwm as (p & [i Hi]%list_elem_of_lookup_1 & Hw).
        exists i, p. split; [assumption|].
        destruct p; simpl in *; try discriminate;
          apply bool_decide_eq_true_2; lia.
    - apply Exists_exists in Hsome as (p & [i Hi]%list_elem_of_lookup_1 & Ha).
      exists i, p. split; [assumption|].
      destruct p; simpl in *; try discriminate; try reflexivity.
      pose proof (total_lookup_le Permits.claimed _ _ _ claimed_nonneg Hi) as Hcl.
      simpl in Hcl.
      destruct (SemaphoreBuffer.q (w_buf w)); [simpl in Hit; lia | reflexivity]. }
  destruct (sem_enabled_moves p (w_buf w) Hen) as (k & Hk & Hmove).
  exists tid, k. split; [assumption|].
  destruct (exec_run_alone k tid p w Hl) as [-> _]. rewrite Hstop. exact Hmove.
Qed.

Lemma semaphore_never_deadlocks_witness :
  exists (tid k : nat), (k <= 2)%nat /\
    w_buf (exec (replicate k (Run tid))
             (exec [CallProduce "P1-1"; CallConsume; Run 1; Run 1; Run 1]
                (semaphore_world false (SemaphoreBuffer.mk 1 [] 1 0 1)))) <>
    w_buf (exec [CallProduce "P1-1"; CallConsume; Run 1; Run 1; Run 1]
             (semaphore_world false (SemaphoreBuffer.mk 1 [] 1 0 1))).
Proof.
  apply (semaphore_never_deadlocks 1 (SemaphoreBuffer.mk 1 [] 1 0 1) false
           [CallProduce "P1-1"; CallConsume; Run 1; Run 1; Run 1]
           0%nat 1%nat (SemaphoreBuffer.P_loop1 "P1-1") SemaphoreBuffer.C_acquire_full);
    (lia || reflexivity).
Defined.

(** * Further properties of the simulator *)


(** The workers write neither [running] nor the stop signal nor the
    capacity. *)
Lemma passes_keep_flags (evs : list FullSimulatorC.event) (s s' : FullSimulatorC.t) :
  forallb FullSimulatorC.is_pass evs = true ->
  FullSimulatorC.run evs s = Some s' ->
  FullSimulatorC.running s' = FullSimulatorC.running s /\
  FullSimulatorC.stop_event s' = FullSimulatorC.stop_event s /\
  FullSimulatorC.capacity s' = FullSimulatorC.capacity s.
Proof.
  revert s. induction evs as [|e evs IH]; intros s Hp; simpl.
  - intros [= <-]. auto.
  - simpl in Hp. apply andb_prop in Hp as [He Hp].
    destruct (FullSimulatorC.handle e s) as [s1|] eqn:E; [|discriminate]. simpl.
    intros Hr. destruct (IH s1 Hp Hr) as (H1 & H2 & H3). rewrite H1, H2, H3.
    destruct e as [mode| | |label stops|stops]; simpl in He, E; try discriminate.
    + unfold FullSimulatorC.producer_pass in E.
      destruct (FullSimulatorC.buffer_model s) as [m|]; [|discriminate]. simpl in E.
      destruct (FullSimulatorC.call (Put label stops) m) as [[[[]|]|] m'];
        simplify_eq/=; auto.
    + unfold FullSimulatorC.consumer_pass in E.
      destruct (FullSimulatorC.buffer_model s) as [m|]; [|discriminate]. simpl in E.
      destruct (FullSimulatorC.call (Get stops) m) as [[[|[x|]]|] m'];
        simplify_eq/=; auto.
Qed.

(** X8: Reset does not end the session.  Pressed while a session runs,
    it sets the stop signal and leaves [running] set, and the workers
    change neither: whatever passes they still make, a following Start
    is ignored and the signal stays set.  Only after Stop does Start
    open a session, with the signal cleared and a new buffer; the
    counters Reset has zeroed are then whatever the passes made since
    have left them at. *)
Theorem reset_needs_stop_before_start (mode : string)
    (after_reset after_stop : list FullSimulatorC.event)
    (s s1 s2 : FullSimulatorC.t) :
  FullSimulatorC.running s = true ->
  forallb FullSimulatorC.is_pass after_reset = true ->
  forallb FullSimulatorC.is_pass after_stop = true ->
  FullSimulatorC.run after_reset (FullSimulatorC.reset_all s) = Some s1 ->
  FullSimulatorC.run after_stop (FullSimulatorC.stop s1) = Some s2 ->
  FullSimulatorC.start mode s1 = s1 /\
  FullSimulatorC.running s1 = true /\
  FullSimulatorC.stop_event s1 = true /\
  let s' := FullSimulatorC.start mode s2 in
  FullSimulatorC.running s' = true /\
  FullSimulatorC.stop_event s' = false /\
  (forall m, FullSimulatorC.new_buffer mode (FullSimulatorC.capacity s) = Some m ->
             FullSimulatorC.buffer_model s' = Some m).
Proof.
  intros Hr Hp1 Hp2 Hrun1 Hrun2.
  destruct (passes_keep_flags _ _ _ Hp1 Hrun1) as (Ha & Hb & Hc).
  destruct (passes_keep_flags _ _ _ Hp2 Hrun2) as (Ha' & Hb' & Hc').
  simpl in Ha, Hb, Hc. rewrite Hr in Ha.
  assert (FullSimulatorC.running s2 = false /\
          FullSimulatorC.capacity s2 = FullSimulatorC.capacity s) as [Hr2 Hc2].
  { rewrite Ha', Hc'. unfold FullSimulatorC.stop. rewrite Ha. simpl. auto. }
  cbv zeta. split_and!; try assumption.
  - unfold FullSimulatorC.start. by rewrite Ha.
  - unfold FullSimulatorC.start. by rewrite Hr2.
  - unfold FullSimulatorC.start. by rewrite Hr2.
  - intros m Hm. unfold FullSimulatorC.start. rewrite Hr2. simpl.
    by rewrite Hc2, Hm.
Qed.

Lemma reset_needs_stop_before_start_witness :
  let s1 :=
    FullSimulatorC.mk 5 true true 1 0 1
      (Some (FullSimulatorC.MonitorModel (MonitorBuffer.mk 5 ["P1-1"] false))) in
  FullSimulatorC.start "Semaphore" s1 = s1 /\
  FullSimulatorC.running s1 = true /\
  FullSimulatorC.stop_event s1 = true /\
  let s' := FullSimulatorC.start "Semaphore" (FullSimulatorC.stop s1) in
  FullSimulatorC.running s' = true /\
  FullSimulatorC.stop_event s' = false /\
  (forall m, FullSimulatorC.new_buffer "Semaphore"
               (FullSimulatorC.capacity (FullSimulatorC.start "Monitor" FullSimulatorC.init)) =
             Some m ->
             FullSimulatorC.buffer_model s' = Some m).
Proof.
  intros s1.
  apply (reset_needs_stop_before_start "Semaphore"
           [FullSimulatorC.EvProduce "P1-1" [true; true]] []
           (FullSimulatorC.start "Monitor" FullSimulatorC.init) s1
           (FullSimulatorC.stop s1)); reflexivity.
Defined.

Lemma new_buffer_ok (mode : string) (cap : Z) (m : FullSimulatorC.buffer) :
  0 <= cap ->
  FullSimulatorC.new_buffer mode cap = Some m ->
  buffer_ok cap m /\ FullSimulatorC.buffer_q m = [].
Proof.
  intros Hcap.
  unfold FullSimulatorC.new_buffer, SemaphoreBuffer.init, Semaphore.init.
  destruct (String.eqb mode "Monitor").
  - intros [= <-]. simpl. repeat split; auto.
  - repeat case_bool_decide; try lia; simpl; intros [= <-]; simpl.
    repeat split; auto; lia.
Qed.

Lemma call_ok (cap : Z) (o : op) (m : FullSimulatorC.buffer) (r : result) :
  buffer_ok cap m ->
  (FullSimulatorC.call o m).1 = Some r ->
  buffer_ok cap (FullSimulatorC.call o m).2.
Proof.
  destruct m as [b|b]; unfold FullSimulatorC.call; simpl.
  - intros (Hc & Hl & Hb). destruct o as [item stops|stops]; simpl.
    + pose proof (mon_produce_inv_run item b stops _ _ (mon_produce_inv_init item b))
        as [Hc' H].
      destruct (run_alone stops (MonitorBuffer.produce item) b) as [p b'].
      simpl in *. intros Hr. destruct p; simpl in Hr; simplify_eq.
      destruct r as [[]|]; [| |tauto].
      * destruct H as (-> & -> & _ & Hne). rewrite length_app. simpl.
        repeat split; [congruence | lia].
      * destruct H as (-> & -> & _). repeat split; [congruence | lia].
    + pose proof (mon_consume_inv_run b stops _ _ (mon_consume_inv_init b))
        as [Hc' H].
      destruct (run_alone stops MonitorBuffer.consume b) as [p b'].
      simpl in *. intros Hr. destruct p; simpl in Hr; simplify_eq.
      destruct r as [|[x|]]; [tauto| |].
      * destruct H as (Hq & -> & _). rewrite Hq in Hb. simpl in Hb.
        repeat split; [congruence | lia].
      * destruct H as (-> & -> & _). repeat split; [congruence | lia].
  - intros (Hc & Hm & Hf & He & Hr0). destruct o as [item stops|stops]; simpl.
    + pose proof (sem_produce_inv_run item b stops _ _ (sem_produce_inv_init item b))
        as [Hc' H].
      destruct (run_alone stops (SemaphoreBuffer.produce item) b) as [p b'].
      simpl in *. intros Hr. destruct p; simpl in Hr; simplify_eq.
      unfold sem_delta in H. destruct r as [[]|]; [| |tauto].
      * destruct H as (-> & (? & ? & ?) & ?). rewrite length_app. simpl.
        repeat split; try congruence; lia.
      * destruct H as (-> & (? & ? & ?)). repeat split; try congruence; lia.
    + pose proof (sem_consume_inv_run b stops _ _ (sem_consume_inv_init b))
        as [Hc' H].
      destruct (run_alone stops SemaphoreBuffer.consume b) as [p b'].
      simpl in *. intros Hr. destruct p; simpl in Hr; simplify_eq.
      unfold sem_delta in H. destruct r as [|[x|]]; [tauto| |].
      * destruct H as (Hq & (? & ? & ?) & ?). rewrite Hq in *. simpl in *.
        repeat split; try congruence; lia.
      * destruct H as (-> & [(? & ? & ?) | (Hnil & _ & Hpos)]).
        -- repeat split; try congruence; lia.
        -- rewrite Hnil in Hf. simpl in Hf. lia.
Qed.

Lemma buffer_ok_bound (cap : Z) (m : FullSimulatorC.buffer) :
  buffer_ok cap m -> Z.of_nat (length (FullSimulatorC.buffer_q m)) <= cap.
Proof. destruct m; simpl; intros H; decompose [and] H; lia. Qed.

Lemma handle_ok (e : FullSimulatorC.event) (s s' : FullSimulatorC.t) :
  sim_ok s -> FullSimulatorC.handle e s = Some s' -> sim_ok s'.
Proof.
  intros [Hc Hb Hp Hpr Hco]. destruct e as [mode| | |label stops|stops]; simpl.
  - intros [= <-]. unfold FullSimulatorC.start.
    destruct (FullSimulatorC.running s); [constructor; assumption|].
    constructor; simpl; auto. rewrite Hc. intros m.
    destruct (FullSimulatorC.new_buffer mode 5) as [m0|] eqn:E.
    + intros [= <-]. apply (new_buffer_ok mode 5 m0 ltac:(lia) E).
    + apply Hb.
  - intros [= <-]. unfold FullSimulatorC.stop.
    destruct (FullSimulatorC.running s); constructor; assumption.
  - intros [= <-]. constructor; simpl; auto; lia.
  - unfold FullSimulatorC.producer_pass.
    destruct (FullSimulatorC.buffer_model s) as [m|] eqn:E; [|discriminate]. simpl.
    pose proof (call_ok 5 (Put label stops) m) as Hcall.
    destruct (FullSimulatorC.call (Put label stops) m) as [r m']. simpl in Hcall.
    destruct r as [[[]|]|]; intros Hs; simplify_eq/=.
    + specialize (Hcall _ (Hb m eq_refl) eq_refl).
      pose proof (buffer_ok_bound 5 m' Hcall).
      constructor; simpl; auto; try lia. intros ? [= <-]. assumption.
    + specialize (Hcall _ (Hb m eq_refl) eq_refl).
      constructor; simpl; auto. intros ? [= <-]. assumption.
  - unfold FullSimulatorC.consumer_pass.
    destruct (FullSimulatorC.buffer_model s) as [m|] eqn:E; [|discriminate]. simpl.
    pose proof (call_ok 5 (Get stops) m) as Hcall.
    destruct (FullSimulatorC.call (Get stops) m) as [r m']. simpl in Hcall.
    destruct r as [[|[x|]]|]; intros Hs; simplify_eq/=.
    + specialize (Hcall _ (Hb m eq_refl) eq_refl).
      constructor; simpl; auto; try lia. intros ? [= <-]. assumption.
    + specialize (Hcall _ (Hb m eq_refl) eq_refl).
      constructor; simpl; auto. intros ? [= <-]. assumption.
Qed.

Lemma run_ok (evs : list FullSimulatorC.event) (s s' : FullSimulatorC.t) :
  sim_ok s -> FullSimulatorC.run evs s = Some s' -> sim_ok s'.
Proof.
  revert s. induction evs as [|e evs IH]; intros s Hs; simpl.
  - intros [= <-]. exact Hs.
  - destruct (FullSimulatorC.handle e s) as [s1|] eqn:E; [|discriminate]. simpl.
    apply IH. eapply handle_ok; eauto.
Qed.

Lemma init_ok : sim_ok FullSimulatorC.init.
Proof. constructor; simpl; try lia; try reflexivity. discriminate. Qed.

(** X9: whatever buttons are pressed and whatever passes the workers
    make, in either mode, the capacity stays 5, the buffer never holds
    more than 5 items and the recorded peak stays between 0 and 5. *)
Theorem occupancy_and_peak_bounded (evs : list FullSimulatorC.event)
    (s : FullSimulatorC.t) :
  FullSimulatorC.run evs FullSimulatorC.init = Some s ->
  FullSimulatorC.capacity s = 5 /\
  0 <= FullSimulatorC.occupancy s <= 5 /\
  0 <= FullSimulatorC.peak_buffer s <= 5.
Proof.
  intros Hrun. destruct (run_ok evs _ s init_ok Hrun) as [Hc Hb Hp _ _].
  repeat split; try tauto; unfold FullSimulatorC.occupancy;
    destruct (FullSimulatorC.buffer_model s) as [m|]; try lia.
  apply (buffer_ok_bound 5 m (Hb m eq_refl)).
Qed.

Lemma occupancy_and_peak_bounded_witness :
  FullSimulatorC.capacity
    (FullSimulatorC.mk 5 true false 3 1 2
       (Some (FullSimulatorC.SemaphoreModel
                (SemaphoreBuffer.mk 5 ["P2-1"; "P1-2"] 3 2 1)))) = 5 /\
  0 <= FullSimulatorC.occupancy
    (FullSimulatorC.mk 5 true false 3 1 2
       (Some (FullSimulatorC.SemaphoreModel
                (SemaphoreBuffer.mk 5 ["P2-1"; "P1-2"] 3 2 1)))) <= 5 /\
  0 <= FullSimulatorC.peak_buffer
    (FullSimulatorC.mk 5 true false 3 1 2
       (Some (FullSimulatorC.SemaphoreModel
                (SemaphoreBuffer.mk 5 ["P2-1"; "P1-2"] 3 2 1)))) <= 5.
Proof.
  apply (occupancy_and_peak_bounded
           (FullSimulatorC.EvStart "Semaphore" :: first_session)).
  vm_compute. reflexivity.
Defined.

(** * The workers *)

(** ** Names and labels *)

Lemma name_of_inj (r r' : Session.role) (a b : Z) :
  Session.name_of r a = Session.name_of r' b -> r = r' /\ a = b.
Proof.
  unfold Session.name_of. destruct r, r'; simpl; intros H; simplify_eq; auto.
Qed.

Lemma dashless_char (x : N) (s : string) :
  dashless s = true -> dashless (String (pretty_N_char x) s) = true.
Proof.
  intros Hs. simpl. rewrite Hs, andb_true_r.
  unfold pretty_N_char. repeat case_match; reflexivity.
Qed.

Lemma dashless_go (x : N) (s : string) :
  dashless s = true -> dashless (pretty_N_go x s) = true.
Proof.
  revert s. induction (N.lt_wf_0 x) as [x _ IH]. intros s Hs.
  destruct (decide (x = 0%N)) as [->|Hx].
  - rewrite pretty_N_go_0. exact Hs.
  - rewrite pretty_N_go_step by lia. apply IH.
    + apply N.div_lt; lia.
    + apply dashless_char, Hs.
Qed.

Lemma dashless_pretty (a : Z) : 0 <= a -> dashless (pretty a) = true.
Proof.
  intros Ha. destruct a as [|x|x]; [reflexivity | | lia].
  change (pretty (Z.pos x)) with (pretty_N (N.pos x)). unfold pretty_N.
  destruct (decide (N.pos x = 0%N)); [reflexivity|]. apply dashless_go. reflexivity.
Qed.

Lemma dash_split (s1 s2 t1 t2 : string) :
  dashless s1 = true -> dashless s2 = true ->
  s1 +:+ String "-"%char t1 = s2 +:+ String "-"%char t2 -> s1 = s2 /\ t1 = t2.
Proof.
  revert s2. induction s1 as [|a s1 IH]; intros [|b s2]; simpl; intros H1 H2 H;
    simplify_eq/=; try done.
  apply andb_prop in H1 as [_ H1]. apply andb_prop in H2 as [_ H2].
  destruct (IH s2 H1 H2) as [-> ->]; [assumption|]. auto.
Qed.

Lemma label_of_inj (a b k j : Z) :
  0 <= a -> 0 <= b ->
  Session.label_of a k = Session.label_of b j -> a = b /\ k = j.
Proof.
  intros Ha Hb. unfold Session.label_of, Session.name_of. simpl. intros H.
  simplify_eq.
  destruct (dash_split (pretty a) (pretty b) (pretty k) (pretty j)) as [H1 H2];
    [by apply dashless_pretty | by apply dashless_pretty | assumption |].
  split; by apply (inj pretty).
Qed.

(** ** The roster *)

Lemma pids_NoDup (n : Z) : NoDup (Session.pids n).
Proof.
  unfold Session.pids. apply NoDup_fmap_2; [|apply NoDup_seq].
  intros i j H. lia.
Qed.

Lemma pids_pos (n x : Z) : x ∈ Session.pids n -> 1 <= x.
Proof.
  unfold Session.pids. intros (i & -> & _)%list_elem_of_fmap. lia.
Qed.

Lemma roster_NoDup (p c : Z) : NoDup (Session.roster p c).
Proof.
  unfold Session.roster. apply NoDup_app. split; [|split].
  - apply NoDup_fmap_2; [intros ? ? [= ->]; reflexivity | apply pids_NoDup].
  - intros x (a & -> & _)%list_elem_of_fmap (b & [=] & _)%list_elem_of_fmap.
  - apply NoDup_fmap_2; [intros ? ? [= ->]; reflexivity | apply pids_NoDup].
Qed.

Lemma roster_pos (p c : Z) (r : Session.role) (x : Z) :
  (r, x) ∈ Session.roster p c -> 1 <= x.
Proof.
  unfold Session.roster. intros [H|H]%elem_of_app;
    apply list_elem_of_fmap in H as (a & [= -> ->] & Ha); eapply pids_pos, Ha.
Qed.

Lemma worker_in_roster (p c : Z) (st : Session.t) (idx : nat) (wk : Session.worker) :
  role_pid <$> Session.workers st = Session.roster p c ->
  Session.workers st !! idx = Some wk ->
  Session.roster p c !! idx = Some (role_pid wk).
Proof. intros <- H. rewrite list_lookup_fmap, H. reflexivity. Qed.

Lemma worker_pid_pos (p c : Z) (st : Session.t) (idx : nat) (wk : Session.worker) :
  role_pid <$> Session.workers st = Session.roster p c ->
  Session.workers st !! idx = Some wk -> 1 <= Session.w_pid wk.
Proof.
  intros Hr Hl. apply (roster_pos p c (Session.w_role wk)).
  apply list_elem_of_lookup. exists idx. apply (worker_in_roster p c st idx wk Hr Hl).
Qed.

(** Two workers with the same name are the same thread. *)
Lemma names_distinct (p c : Z) (st : Session.t) (i j : nat) (wk wk' : Session.worker) :
  role_pid <$> Session.workers st = Session.roster p c ->
  Session.workers st !! i = Some wk -> Session.workers st !! j = Some wk' ->
  Session.name wk = Session.name wk' -> i = j.
Proof.
  intros Hr Hi Hj Hn. apply name_of_inj in Hn as [Hro Hpid].
  apply (NoDup_lookup _ i j (role_pid wk) (roster_NoDup p c)).
  - apply (worker_in_roster p c st i wk Hr Hi).
  - unfold role_pid. rewrite Hro, Hpid.
    apply (worker_in_roster p c st j wk' Hr Hj).
Qed.

Lemma roster_update (l : list Session.worker) (idx : nat) (wk wk' : Session.worker) :
  l !! idx = Some wk -> role_pid wk' = role_pid wk ->
  role_pid <$> <[idx := wk']> l = role_pid <$> l.
Proof.
  intros Hl Hrp. rewrite list_fmap_insert, Hrp. apply list_insert_id.
  rewrite list_lookup_fmap, Hl. reflexivity.
Qed.

(** ** Reports *)

Lemma chain_snoc (tl : list string) (b : string) :
  chain tl = true ->
  (tl = [] \/ exists a, last tl = Some a /\ allowed a b = true) ->
  chain (tl ++ [b]) = true.
Proof.
  induction tl as [|x tl IH]; [reflexivity|]. intros Hc Hl.
  destruct tl as [|y tl].
  - simpl. destruct Hl as [|(a & [= <-] & Ha)]; [discriminate|]. rewrite Ha. reflexivity.
  - simpl in Hc. apply andb_prop in Hc as [Hxy Hc].
    change (chain ((x :: y :: tl) ++ [b])) with (allowed x y && chain ((y :: tl) ++ [b])).
    rewrite Hxy. simpl. apply IH; [exact Hc|]. right.
    destruct Hl as [|(a & Hl & Ha)]; [discriminate|]. exists a. split; [|exact Ha].
    exact Hl.
Qed.

Lemma thread_state_change_spec (n s : string) (now : Z) (st st' : Session.t) :
  Session.thread_state_change n s now st = Some st' ->
  exists ts,
    Session.thread_states st = Some ts /\
    Session.thread_states st' = Some (<[n := s]> ts) /\
    Session.reported n st' = Session.reported n st ++ [s] /\
    (forall n', n' <> n -> Session.reported n' st' = Session.reported n' st) /\
    Session.sim st' = Session.sim st /\
    Session.workers st' = Session.workers st /\
    Session.done_badge st' = Session.done_badge st.
Proof.
  unfold Session.thread_state_change.
  destruct (Session.thread_states st) as [ts|]; [|discriminate]. simpl.
  intros [= <-]. exists ts. unfold Session.reported. simpl.
  repeat split; try reflexivity.
  - rewrite lookup_insert_eq. simpl. rewrite fmap_app. reflexivity.
  - intros n' Hne. rewrite lookup_insert_ne by congruence. reflexivity.
Qed.

Lemma states_after_report (p c : Z) (st st0 st' : Session.t) (idx : nat)
    (wk wk' : Session.worker) (s' : string) (now : Z) :
  session_core p c st ->
  Session.workers st !! idx = Some wk ->
  role_pid wk' = role_pid wk ->
  Session.thread_states st0 = Session.thread_states st ->
  Session.timeline_data st0 = Session.timeline_data st ->
  Session.workers st0 = Session.workers st ->
  Session.thread_state_change (Session.name wk) s' now st0 = Some st' ->
  shown (Session.w_pc wk') s' ->
  Session.w_pc wk' <> Session.W_enter ->
  (Session.w_pc wk <> Session.W_enter ->
   forall s, shown (Session.w_pc wk) s -> allowed s s' = true) ->
  exists ts, Session.thread_states st' = Some ts /\
    forall idx2 wk2, <[idx := wk']> (Session.workers st') !! idx2 = Some wk2 ->
      exists s, ts !! Session.name wk2 = Some s /\
                shown (Session.w_pc wk2) s /\
                timeline_ok (Session.w_pc wk2) s (Session.reported (Session.name wk2) st').
Proof.
  intros [Hr (ts & Hts & Hall) _ _] Hl Hrp Hts0 Htl0 Hw0 Htsc Hshown Hne Hallowed.
  destruct (thread_state_change_spec _ _ _ _ _ Htsc)
    as (ts0 & Hts0' & Hts' & Hrep & Hother & _ & Hw' & _).
  rewrite Hts0, Hts in Hts0'. injection Hts0' as <-.
  assert (forall n, Session.reported n st0 = Session.reported n st) as Hrep0.
  { intros n. unfold Session.reported. rewrite Htl0. reflexivity. }
  assert (Session.name wk' = Session.name wk) as Hname.
  { unfold Session.name. unfold role_pid in Hrp. injection Hrp as -> ->. reflexivity. }
  exists (<[Session.name wk := s']> ts). split; [exact Hts'|].
  intros idx2 wk2 Hl2. rewrite Hw', Hw0 in Hl2.
  destruct (decide (idx2 = idx)) as [->|Hidx].
  - rewrite list_lookup_insert_eq in Hl2 by (eapply lookup_lt_Some, Hl).
    injection Hl2 as <-. rewrite Hname.
    exists s'. split; [apply lookup_insert_eq|]. split; [exact Hshown|].
    destruct (Hall idx wk Hl) as (s & _ & Hs & Hchain & Hlast).
    rewrite Hrep, Hrep0.
    assert (chain (Session.reported (Session.name wk) st ++ [s']) = true) as Hc.
    { apply chain_snoc; [exact Hchain|].
      destruct (Session.w_pc wk) eqn:E; [by left | ..];
        (destruct Hlast as [|Hls]; [by left|]; right; exists s;
         split; [exact Hls | apply Hallowed; [discriminate | exact Hs]]). }
    split; [exact Hc|].
    assert (last (Session.reported (Session.name wk) st ++ [s']) = Some s') as Hls
      by apply last_snoc.
    destruct (Session.w_pc wk'); tauto.
  - rewrite list_lookup_insert_ne in Hl2 by congruence.
    assert (Session.name wk2 <> Session.name wk) as Hnn.
    { intros Heq. apply Hidx. eapply (names_distinct p c st); eauto. }
    destruct (Hall idx2 wk2 Hl2) as (s & Hs1 & Hs2 & Hs3).
    exists s. split; [rewrite lookup_insert_ne by congruence; exact Hs1|].
    split; [exact Hs2|]. rewrite (Hother _ Hnn), Hrep0. exact Hs3.
Qed.

Lemma states_unchanged (p c : Z) (st st' : Session.t) (idx : nat)
    (wk wk' : Session.worker) :
  session_core p c st ->
  Session.workers st !! idx = Some wk ->
  Session.thread_states st' = Session.thread_states st ->
  Session.timeline_data st' = Session.timeline_data st ->
  Session.workers st' = Session.workers st ->
  role_pid wk' = role_pid wk ->
  Session.w_pc wk <> Session.W_enter ->
  Session.w_pc wk' <> Session.W_enter ->
  (forall s, shown (Session.w_pc wk) s -> shown (Session.w_pc wk') s) ->
  exists ts, Session.thread_states st' = Some ts /\
    forall idx2 wk2, <[idx := wk']> (Session.workers st') !! idx2 = Some wk2 ->
      exists s, ts !! Session.name wk2 = Some s /\
                shown (Session.w_pc wk2) s /\
                timeline_ok (Session.w_pc wk2) s (Session.reported (Session.name wk2) st').
Proof.
  intros [Hr (ts & Hts & Hall) _ _] Hl Hts' Htl' Hw' Hrp Hne Hne' Hshown.
  assert (forall n, Session.reported n st' = Session.reported n st) as Hrep.
  { intros n. unfold Session.reported. rewrite Htl'. reflexivity. }
  assert (Session.name wk' = Session.name wk) as Hname.
  { unfold Session.name. unfold role_pid in Hrp. injection Hrp as -> ->. reflexivity. }
  exists ts. split; [congruence|].
  intros idx2 wk2 Hl2. rewrite Hw' in Hl2.
  destruct (decide (idx2 = idx)) as [->|Hidx].
  - rewrite list_lookup_insert_eq in Hl2 by (eapply lookup_lt_Some, Hl).
    injection Hl2 as <-. rewrite Hname, Hrep.
    destruct (Hall idx wk Hl) as (s & Hs1 & Hs2 & Hchain & Hlast).
    exists s. split; [exact Hs1|]. split; [by apply Hshown|]. split; [exact Hchain|].
    destruct (Session.w_pc wk), (Session.w_pc wk'); tauto.
  - rewrite list_lookup_insert_ne in Hl2 by congruence. rewrite Hrep.
    exact (Hall idx2 wk2 Hl2).
Qed.

(** ** The invariant of the first session *)

Lemma worker_determined (p c : Z) (st : Session.t) (i j : nat) (wk wk' : Session.worker) :
  role_pid <$> Session.workers st = Session.roster p c ->
  Session.workers st !! i = Some wk -> Session.workers st !! j = Some wk' ->
  Session.w_role wk = Session.w_role wk' -> Session.w_pid wk = Session.w_pid wk' ->
  i = j.
Proof.
  intros Hr Hi Hj Hro Hpid. eapply (names_distinct p c st); eauto.
  unfold Session.name. rewrite Hro, Hpid. reflexivity.
Qed.

Lemma buffer_after (p c : Z) (st st' : Session.t) (idx : nat)
    (wk wk' : Session.worker) (m' : FullSimulatorC.buffer) :
  session_core p c st ->
  Session.workers st !! idx = Some wk ->
  role_pid wk' = role_pid wk ->
  Session.workers st' = Session.workers st ->
  FullSimulatorC.buffer_model (Session.sim st') = Some m' ->
  NoDup (FullSimulatorC.buffer_q m') ->
  (forall m x, FullSimulatorC.buffer_model (Session.sim st) = Some m ->
     x ∈ FullSimulatorC.buffer_q m' ->
     x ∈ FullSimulatorC.buffer_q m \/
     (x = Session.label wk' /\ Session.w_pc wk' = Session.W_resume /\
      1 <= Session.w_item_id wk' /\ Session.w_role wk' = Session.Producer)) ->
  (Session.w_role wk = Session.Producer ->
   forall k, k < Session.w_item_id wk \/
             (Session.w_pc wk = Session.W_resume /\ k = Session.w_item_id wk) ->
             k < Session.w_item_id wk' \/
             (Session.w_pc wk' = Session.W_resume /\ k = Session.w_item_id wk')) ->
  exists m, FullSimulatorC.buffer_model (Session.sim st') = Some m /\
    NoDup (FullSimulatorC.buffer_q m) /\
    forall x, x ∈ FullSimulatorC.buffer_q m ->
      exists idx0 wk0 k,
        <[idx := wk']> (Session.workers st') !! idx0 = Some wk0 /\
        Session.w_role wk0 = Session.Producer /\
        x = Session.label_of (Session.w_pid wk0) k /\
        1 <= k /\
        (k < Session.w_item_id wk0 \/
         (Session.w_pc wk0 = Session.W_resume /\ k = Session.w_item_id wk0)).
Proof.
  intros [Hr _ (m & Hm & Hnd & Hitems) _] Hl Hrp Hw' Hm' Hnd' Hsub Hcompat.
  exists m'. split; [exact Hm'|]. split; [exact Hnd'|].
  assert (idx < length (Session.workers st))%nat as Hlt by (eapply lookup_lt_Some, Hl).
  unfold role_pid in Hrp. injection Hrp as Hro Hpid.
  intros x Hx. rewrite Hw'. destruct (Hsub m x Hm Hx) as [Hold | (-> & Hpc & Hid & Hrole)].
  - destruct (Hitems x Hold) as (idx0 & wk0 & k & Hl0 & Hrole0 & -> & Hk & Hkk).
    destruct (decide (idx0 = idx)) as [->|Hne].
    + rewrite Hl in Hl0. injection Hl0 as <-.
      exists idx, wk', k. rewrite list_lookup_insert_eq by assumption.
      repeat split; try congruence. apply Hcompat; assumption.
    + exists idx0, wk0, k. rewrite list_lookup_insert_ne by congruence.
      repeat split; assumption.
  - exists idx, wk', (Session.w_item_id wk').
    rewrite list_lookup_insert_eq by assumption.
    repeat split; try assumption. right. split; [assumption | reflexivity].
Qed.

(** The invariant only looks at the workers, the thread table, the
    timelines and the buffer. *)
Lemma core_ext (p c : Z) (st st' : Session.t) :
  Session.workers st' = Session.workers st ->
  Session.thread_states st' = Session.thread_states st ->
  Session.timeline_data st' = Session.timeline_data st ->
  FullSimulatorC.buffer_model (Session.sim st') =
    FullSimulatorC.buffer_model (Session.sim st) ->
  session_core p c st -> session_core p c st'.
Proof.
  intros Hw Hts Htl Hb [H1 H2 H3 H4].
  constructor; unfold Session.reported in *; rewrite ?Hw, ?Hts, ?Htl, ?Hb; assumption.
Qed.

Lemma core_assemble (p c : Z) (st st' : Session.t) (idx : nat)
    (wk wk' : Session.worker) :
  session_core p c st ->
  Session.workers st !! idx = Some wk ->
  role_pid wk' = role_pid wk ->
  Session.workers st' = Session.workers st ->
  (exists ts, Session.thread_states st' = Some ts /\
    forall idx2 wk2, <[idx := wk']> (Session.workers st') !! idx2 = Some wk2 ->
      exists s, ts !! Session.name wk2 = Some s /\
                shown (Session.w_pc wk2) s /\
                timeline_ok (Session.w_pc wk2) s (Session.reported (Session.name wk2) st')) ->
  (exists m, FullSimulatorC.buffer_model (Session.sim st') = Some m /\
    NoDup (FullSimulatorC.buffer_q m) /\
    forall x, x ∈ FullSimulatorC.buffer_q m ->
      exists idx0 wk0 k,
        <[idx := wk']> (Session.workers st') !! idx0 = Some wk0 /\
        Session.w_role wk0 = Session.Producer /\
        x = Session.label_of (Session.w_pid wk0) k /\
        1 <= k /\
        (k < Session.w_item_id wk0 \/
         (Session.w_pc wk0 = Session.W_resume /\ k = Session.w_item_id wk0))) ->
  1 <= Session.w_item_id wk' ->
  (Session.w_pc wk' = Session.W_enter -> Session.w_item_id wk' = 1) ->
  session_core p c (Session.set_workers (<[idx := wk']> (Session.workers st')) st').
Proof.
  intros Hcore Hl Hrp Hw' Hstates Hbuf Hid Hid1.
  pose proof Hcore as [Hr _ _ Hids].
  constructor; simpl.
  - rewrite Hw', (roster_update _ idx wk wk' Hl Hrp). exact Hr.
  - exact Hstates.
  - exact Hbuf.
  - intros idx2 wk2 Hl2. rewrite Hw' in Hl2.
    destruct (decide (idx2 = idx)) as [->|Hne].
    + rewrite list_lookup_insert_eq in Hl2 by (eapply lookup_lt_Some, Hl).
      injection Hl2 as <-. split; assumption.
    + rewrite list_lookup_insert_ne in Hl2 by congruence. exact (Hids idx2 wk2 Hl2).
Qed.

Lemma producer_pass_result (label : Item) (stops : list bool)
    (s s' : FullSimulatorC.t) (m : FullSimulatorC.buffer) :
  FullSimulatorC.producer_pass label stops s = Some s' ->
  FullSimulatorC.buffer_model s = Some m ->
  FullSimulatorC.buffer_model s' = Some (FullSimulatorC.call (Put label stops) m).2 /\
  (((FullSimulatorC.call (Put label stops) m).1 = Some (RBool true) /\
    FullSimulatorC.buffer_q (FullSimulatorC.call (Put label stops) m).2 =
      FullSimulatorC.buffer_q m ++ [label]) \/
   ((FullSimulatorC.call (Put label stops) m).1 = Some (RBool false) /\
    FullSimulatorC.buffer_q (FullSimulatorC.call (Put label stops) m).2 =
      FullSimulatorC.buffer_q m)).
Proof.
  unfold FullSimulatorC.producer_pass. intros Hp Hm. rewrite Hm in Hp. simpl in Hp.
  pose proof (call_effect (Put label stops) m) as H.
  destruct (FullSimulatorC.call (Put label stops) m) as [r m']. simpl in *.
  destruct r as [[[]|]|]; simplify_eq/=.
  - split; [reflexivity|]. left. split; [reflexivity|]. exact (H _ eq_refl).
  - split; [reflexivity|]. right. split; [reflexivity|].
    specialize (H _ eq_refl). simpl in H. rewrite app_nil_r in H. exact H.
Qed.

Lemma consumer_pass_result (stops : list bool)
    (s s' : FullSimulatorC.t) (m : FullSimulatorC.buffer) :
  FullSimulatorC.consumer_pass stops s = Some s' ->
  FullSimulatorC.buffer_model s = Some m ->
  FullSimulatorC.buffer_model s' = Some (FullSimulatorC.call (Get stops) m).2 /\
  ((exists x, (FullSimulatorC.call (Get stops) m).1 = Some (RItem (Some x)) /\
      FullSimulatorC.buffer_q m =
        x :: FullSimulatorC.buffer_q (FullSimulatorC.call (Get stops) m).2) \/
   ((FullSimulatorC.call (Get stops) m).1 = Some (RItem None) /\
    FullSimulatorC.buffer_q (FullSimulatorC.call (Get stops) m).2 =
      FullSimulatorC.buffer_q m)).
Proof.
  unfold FullSimulatorC.consumer_pass. intros Hp Hm. rewrite Hm in Hp. simpl in Hp.
  pose proof (call_effect (Get stops) m) as H.
  destruct (FullSimulatorC.call (Get stops) m) as [r m']. simpl in *.
  destruct r as [[|[x|]]|]; simplify_eq/=.
  - split; [reflexivity|]. left. exists x. split; [reflexivity|].
    specialize (H _ eq_refl). simpl in H. rewrite app_nil_r in H. symmetry. exact H.
  - split; [reflexivity|]. right. split; [reflexivity|].
    specialize (H _ eq_refl). simpl in H. rewrite app_nil_r in H. exact H.
Qed.

(** A label a producer is about to put is not in the buffer yet. *)
Lemma label_is_new (p c : Z) (st : Session.t) (idx : nat) (wk : Session.worker)
    (m : FullSimulatorC.buffer) :
  session_core p c st ->
  Session.workers st !! idx = Some wk ->
  Session.w_role wk = Session.Producer ->
  Session.w_pc wk <> Session.W_resume ->
  FullSimulatorC.buffer_model (Session.sim st) = Some m ->
  Session.label wk ∉ FullSimulatorC.buffer_q m.
Proof.
  intros [Hr _ (m0 & Hm0 & _ & Hitems) _] Hl Hrole Hpc Hm Hin.
  rewrite Hm in Hm0. injection Hm0 as <-.
  destruct (Hitems _ Hin) as (idx0 & wk0 & k & Hl0 & Hrole0 & Heq & Hk & Hkk).
  unfold Session.label in Heq.
  apply label_of_inj in Heq as [Hpid Hid].
  - assert (idx = idx0) as <-
      by (eapply (worker_determined p c st); eauto; congruence).
    rewrite Hl in Hl0. injection Hl0 as <-. destruct Hkk as [|[? _]]; [lia | tauto].
  - pose proof (worker_pid_pos p c st idx wk Hr Hl). lia.
  - pose proof (worker_pid_pos p c st idx0 wk0 Hr Hl0). lia.
Qed.

Lemma call_step_core (p c : Z) (st st' : Session.t) (idx : nat)
    (wk wk' : Session.worker) (stops : list bool) :
  session_core p c st ->
  Session.workers st !! idx = Some wk ->
  Session.w_pc wk = Session.W_call ->
  Session.call_step stops wk st = Some (wk', st') ->
  session_core p c (Session.set_workers (<[idx := wk']> (Session.workers st')) st') /\
  Session.done_badge st' = Session.done_badge st.
Proof.
  intros Hcore Hl Hpc Hstep.
  pose proof Hcore as [Hr _ (m & Hm & Hnd & Hitems) Hids].
  destruct (Hids idx wk Hl) as [Hid _].
  assert (forall q, Session.w_pc (Session.at_pc q wk) = q) as Hat by reflexivity.
  unfold Session.call_step in Hstep. rewrite Hm in Hstep. simpl in Hstep.
  destruct (Session.w_role wk) eqn:Hrole.
  - destruct (FullSimulatorC.producer_pass (Session.label wk) stops (Session.sim st))
      as [sim'|] eqn:Hpass; [|discriminate]. simpl in Hstep.
    destruct (producer_pass_result _ _ _ _ m Hpass Hm) as [Hm' [[Hres Hq] | [Hres Hq]]];
      rewrite Hres in Hstep; injection Hstep as Hwk Hst; subst wk' st';
      (split; [|reflexivity]);
      (apply (core_assemble p c st _ idx wk _ Hcore Hl);
       [reflexivity | reflexivity | | | exact Hid | discriminate]).
    + apply (states_unchanged p c st _ idx wk _ Hcore Hl);
        try reflexivity; try (rewrite Hpc; discriminate); try discriminate.
      rewrite Hpc. simpl. auto.
    + eapply (buffer_after p c st _ idx wk _ _ Hcore Hl); try reflexivity.
      * exact Hm'.
      * rewrite Hq. apply NoDup_app. split; [exact Hnd|]. split; [|apply NoDup_singleton].
        intros x Hx ->%list_elem_of_singleton.
        eapply (label_is_new p c st idx wk m); eauto. rewrite Hpc. discriminate.
      * intros m0 x Hm0 Hx. rewrite Hm in Hm0. injection Hm0 as <-.
        rewrite Hq in Hx. apply elem_of_app in Hx as [Hx | ->%list_elem_of_singleton];
          [by left|]. right. repeat split; auto.
      * intros _ k [Hk | [Hk _]]; [by left|]. rewrite Hpc in Hk. discriminate.
    + apply (states_unchanged p c st _ idx wk _ Hcore Hl);
        try reflexivity; try (rewrite Hpc; discriminate); try discriminate.
      rewrite Hpc. simpl. auto.
    + eapply (buffer_after p c st _ idx wk _ _ Hcore Hl); try reflexivity.
      * exact Hm'.
      * rewrite Hq. exact Hnd.
      * intros m0 x Hm0 Hx. rewrite Hm in Hm0. injection Hm0 as <-.
        rewrite Hq in Hx. by left.
      * intros _ k [Hk | [Hk _]]; [by left|]. rewrite Hpc in Hk. discriminate.
  - destruct (FullSimulatorC.consumer_pass stops (Session.sim st))
      as [sim'|] eqn:Hpass; [|discriminate]. simpl in Hstep.
    destruct (consumer_pass_result _ _ _ m Hpass Hm) as [Hm' [(x & Hres & Hq) | [Hres Hq]]];
      rewrite Hres in Hstep; injection Hstep as Hwk Hst; subst wk' st';
      (split; [|reflexivity]);
      (apply (core_assemble p c st _ idx wk _ Hcore Hl);
       [reflexivity | reflexivity | | | exact Hid | discriminate]).
    + apply (states_unchanged p c st _ idx wk _ Hcore Hl);
        try reflexivity; try (rewrite Hpc; discriminate); try discriminate.
      rewrite Hpc. simpl. auto.
    + rewrite Hq in Hnd. apply NoDup_cons in Hnd as [_ Hnd].
      eapply (buffer_after p c st _ idx wk _ _ Hcore Hl); try reflexivity.
      * exact Hm'.
      * exact Hnd.
      * intros m0 y Hm0 Hy. rewrite Hm in Hm0. injection Hm0 as <-.
        left. rewrite Hq. by apply list_elem_of_further.
      * simpl. intros Hro. rewrite Hrole in Hro. discriminate.
    + apply (states_unchanged p c st _ idx wk _ Hcore Hl);
        try reflexivity; try (rewrite Hpc; discriminate); try discriminate.
      rewrite Hpc. simpl. auto.
    + eapply (buffer_after p c st _ idx wk _ _ Hcore Hl); try reflexivity.
      * exact Hm'.
      * rewrite Hq. exact Hnd.
      * intros m0 y Hm0 Hy. rewrite Hm in Hm0. injection Hm0 as <-.
        rewrite Hq in Hy. by left.
      * simpl. intros Hro. rewrite Hrole in Hro. discriminate.
Qed.

Lemma sim_buffer_after (p c : Z) (st st' : Session.t) (idx : nat)
    (wk wk' : Session.worker) :
  session_core p c st ->
  Session.workers st !! idx = Some wk ->
  role_pid wk' = role_pid wk ->
  Session.workers st' = Session.workers st ->
  Session.sim st' = Session.sim st ->
  (Session.w_role wk = Session.Producer ->
   forall k, k < Session.w_item_id wk \/
             (Session.w_pc wk = Session.W_resume /\ k = Session.w_item_id wk) ->
             k < Session.w_item_id wk' \/
             (Session.w_pc wk' = Session.W_resume /\ k = Session.w_item_id wk')) ->
  exists m, FullSimulatorC.buffer_model (Session.sim st') = Some m /\
    NoDup (FullSimulatorC.buffer_q m) /\
    forall x, x ∈ FullSimulatorC.buffer_q m ->
      exists idx0 wk0 k,
        <[idx := wk']> (Session.workers st') !! idx0 = Some wk0 /\
        Session.w_role wk0 = Session.Producer /\
        x = Session.label_of (Session.w_pid wk0) k /\
        1 <= k /\
        (k < Session.w_item_id wk0 \/
         (Session.w_pc wk0 = Session.W_resume /\ k = Session.w_item_id wk0)).
Proof.
  intros Hcore Hl Hrp Hw Hsim Hcompat.
  pose proof Hcore as [_ _ (m & Hm & Hnd & _) _].
  eapply (buffer_after p c st st' idx wk wk' m Hcore Hl Hrp Hw); try assumption.
  - rewrite Hsim. exact Hm.
  - intros m0 x Hm0 Hx. rewrite Hm in Hm0. injection Hm0 as <-. by left.
Qed.

Lemma worker_step_core (p c : Z) (st st' : Session.t) (idx : nat)
    (wk wk' : Session.worker) (now : Z) (stops : list bool) :
  session_core p c st ->
  Session.workers st !! idx = Some wk ->
  Session.worker_step now stops wk st = Some (wk', st') ->
  session_core p c (Session.set_workers (<[idx := wk']> (Session.workers st')) st') /\
  (Session.w_pc wk <> Session.W_report -> Session.done_badge st' = Session.done_badge st).
Proof.
  intros Hcore Hl Hstep.
  pose proof Hcore as [Hr _ _ Hids]. destruct (Hids idx wk Hl) as [Hid Hid1].
  unfold Session.worker_step in Hstep.
  destruct (Session.w_pc wk) eqn:Hpc.
  - (* W_enter *)
    destruct (Session.thread_state_change (Session.name wk) "Running" now st)
      as [st1|] eqn:Htsc; [|discriminate]. simpl in Hstep.
    injection Hstep as Hwk Hst; subst wk' st1.
    destruct (thread_state_change_spec _ _ _ _ _ Htsc)
      as (ts0 & _ & _ & _ & _ & Hsim & Hw & Hdone).
    split; [|intros _; exact Hdone].
    apply (core_assemble p c st _ idx wk _ Hcore Hl);
      [reflexivity | exact Hw | | | simpl; lia | reflexivity].
    + apply (states_after_report p c st st st' idx wk _ "Running" now Hcore Hl);
        try reflexivity; try assumption; try discriminate.
      intros Hne. rewrite Hpc in Hne. congruence.
    + apply (sim_buffer_after p c st st' idx wk _ Hcore Hl); try assumption;
        try reflexivity.
      intros _ k [Hk | [Hk _]]; [|rewrite Hpc in Hk; discriminate].
      simpl. rewrite (Hid1 eq_refl) in Hk. by left.
  - (* W_guard *)
    assert (st' = st /\ (wk' = Session.at_pc Session.W_leave wk \/
                         wk' = Session.at_pc Session.W_announce wk)) as [-> Hwk].
    { destruct (FullSimulatorC.stop_event (Session.sim st));
        injection Hstep as <- <-; auto. }
    split; [|reflexivity].
    apply (core_assemble p c st _ idx wk _ Hcore Hl);
      [destruct Hwk as [-> | ->]; reflexivity | reflexivity | | |
       destruct Hwk as [-> | ->]; exact Hid |
       destruct Hwk as [-> | ->]; discriminate].
    + apply (states_unchanged p c st _ idx wk _ Hcore Hl); try reflexivity;
        try (rewrite Hpc; discriminate);
        destruct Hwk as [-> | ->]; try reflexivity; try discriminate;
        rewrite Hpc; simpl; auto.
    + apply (sim_buffer_after p c st st idx wk _ Hcore Hl); try reflexivity;
        destruct Hwk as [-> | ->]; try reflexivity;
        intros _ k [Hk | [Hk _]]; try (by left); rewrite Hpc in Hk; discriminate.
  - (* W_announce *)
    match type of Hstep with
    | context [Session.thread_state_change _ _ _ ?st0] =>
        destruct (Session.thread_state_change (Session.name wk) "Waiting" now st0)
          as [st1|] eqn:Htsc; [|discriminate]
    end.
    simpl in Hstep. injection Hstep as Hwk Hst; subst wk' st1.
    destruct (thread_state_change_spec _ _ _ _ _ Htsc)
      as (ts0 & _ & _ & _ & _ & Hsim & Hw & Hdone).
    split; [|intros _; exact Hdone].
    apply (core_assemble p c st _ idx wk _ Hcore Hl);
      [reflexivity | exact Hw | | | exact Hid | discriminate].
    + eapply (states_after_report p c st _ st' idx wk _ "Waiting" now Hcore Hl);
        [reflexivity | | | | exact Htsc | reflexivity | discriminate |];
        try reflexivity.
      intros _ s Hs. rewrite Hpc in Hs. simpl in Hs. subst s. reflexivity.
    + apply (sim_buffer_after p c st st' idx wk _ Hcore Hl); try assumption;
        try reflexivity.
      intros _ k [Hk | [Hk _]]; [by left | rewrite Hpc in Hk; discriminate].
  - (* W_call *)
    destruct (call_step_core p c st st' idx wk wk' stops Hcore Hl Hpc Hstep) as [H1 H2].
    split; [exact H1 | intros _; exact H2].
  - (* W_resume *)
    destruct (Session.thread_state_change (Session.name wk) "Running" now st)
      as [st1|] eqn:Htsc; [|discriminate]. simpl in Hstep.
    injection Hstep as Hwk Hst; subst wk' st1.
    destruct (thread_state_change_spec _ _ _ _ _ Htsc)
      as (ts0 & _ & _ & _ & _ & Hsim & Hw & Hdone).
    split; [|intros _; exact Hdone].
    apply (core_assemble p c st _ idx wk _ Hcore Hl);
      [destruct (Session.w_role wk); reflexivity | exact Hw | | |
       destruct (Session.w_role wk); simpl; lia |
       destruct (Session.w_role wk); discriminate].
    + apply (states_after_report p c st st st' idx wk _ "Running" now Hcore Hl);
        try reflexivity; try assumption;
        try (destruct (Session.w_role wk); (reflexivity || discriminate)).
      intros _ s Hs. rewrite Hpc in Hs. simpl in Hs. subst s. reflexivity.
    + apply (sim_buffer_after p c st st' idx wk _ Hcore Hl); try assumption;
        try (destruct (Session.w_role wk); reflexivity).
      intros Hrole k Hk. rewrite Hrole. simpl. left. destruct Hk as [Hk | [_ Hk]]; lia.
  - (* W_leave *)
    destruct (Session.thread_state_change (Session.name wk) "Stopped" now st)
      as [st1|] eqn:Htsc; [|discriminate]. simpl in Hstep.
    injection Hstep as Hwk Hst; subst wk' st1.
    destruct (thread_state_change_spec _ _ _ _ _ Htsc)
      as (ts0 & _ & _ & _ & _ & Hsim & Hw & Hdone).
    split; [|intros _; exact Hdone].
    apply (core_assemble p c st _ idx wk _ Hcore Hl);
      [reflexivity | exact Hw | | | exact Hid | discriminate].
    + apply (states_after_report p c st st st' idx wk _ "Stopped" now Hcore Hl);
        try reflexivity; try assumption; try discriminate.
      intros _ s Hs. rewrite Hpc in Hs. simpl in Hs. destruct Hs as [-> | ->]; reflexivity.
    + apply (sim_buffer_after p c st st' idx wk _ Hcore Hl); try assumption;
        try reflexivity.
      intros _ k [Hk | [Hk _]]; [by left | rewrite Hpc in Hk; discriminate].
  - (* W_report *)
    injection Hstep as Hwk Hst; subst wk' st'.
    split; [|congruence].
    assert (forall x : Session.t,
              Session.workers (Session.check_finished x) = Session.workers x /\
              Session.thread_states (Session.check_finished x) = Session.thread_states x /\
              Session.timeline_data (Session.check_finished x) = Session.timeline_data x /\
              Session.sim (Session.check_finished x) = Session.sim x) as Hcf.
    { intros x. unfold Session.check_finished.
      destruct (Session.thread_states x) eqn:E; simpl; rewrite ?E;
        repeat split; reflexivity. }
    match goal with
    | |- context [Session.check_finished ?x] => destruct (Hcf x) as (Ha & Hb & Hc & Hd)
    end.
    apply (core_assemble p c st _ idx wk _ Hcore Hl);
      [reflexivity | rewrite Ha; reflexivity | | | exact Hid | discriminate].
    + apply (states_unchanged p c st _ idx wk _ Hcore Hl);
        try (rewrite ?Ha, ?Hb, ?Hc; reflexivity);
        try (rewrite Hpc; discriminate); try discriminate.
      rewrite Hpc. simpl. auto.
    + apply (sim_buffer_after p c st _ idx wk _ Hcore Hl);
        try (rewrite ?Ha, ?Hd; reflexivity).
      intros _ k [Hk | [Hk _]]; [by left | rewrite Hpc in Hk; discriminate].
  - discriminate.
Qed.

Lemma shown_stopped (q : Session.wpc) : shown q "Stopped" -> has_left q.
Proof.
  unfold has_left. destruct q; simpl; intros H; auto; try discriminate.
  destruct H; discriminate.
Qed.

Lemma done_of_check (p c : Z) (F x : Session.t) :
  session_core p c F ->
  Session.done_badge F = Session.done_badge (Session.check_finished x) ->
  Session.thread_states x = Session.thread_states F ->
  FullSimulatorC.buffer_model (Session.sim x) =
    FullSimulatorC.buffer_model (Session.sim F) ->
  session_done F.
Proof.
  intros [_ (ts & Hts & Hall) _ _] Hbadge Hx Hb Hfin.
  rewrite Hbadge in Hfin. unfold Session.check_finished in Hfin.
  rewrite Hx, Hts in Hfin. simpl in Hfin. rewrite Hb in Hfin.
  destruct (bool_decide (map_Forall (fun _ s => s = "Stopped") ts)) eqn:Hall_stopped;
    [|discriminate].
  apply bool_decide_eq_true_1 in Hall_stopped. simpl in Hfin. split.
  - intros idx wk Hl. destruct (Hall idx wk Hl) as (s & Hs & Hshown & _).
    rewrite (Hall_stopped _ _ Hs) in Hshown. by apply shown_stopped.
  - intros m Hm. rewrite Hm in Hfin.
    destruct (bool_decide (length (FullSimulatorC.buffer_q m) = 0%nat)) eqn:He;
      [|discriminate].
    apply bool_decide_eq_true_1 in He. by apply nil_length_inv.
Qed.

Lemma done_vacuous (st F : Session.t) (idx : nat) (wk : Session.worker) :
  session_done st ->
  Session.workers st !! idx = Some wk ->
  ~ has_left (Session.w_pc wk) ->
  Session.done_badge F = Session.done_badge st ->
  session_done F.
Proof.
  intros Hdone Hl Hnot Hbadge Hfin. rewrite Hbadge in Hfin.
  destruct (Hdone Hfin) as [Hleft _]. exfalso. apply Hnot. exact (Hleft idx wk Hl).
Qed.

Lemma check_finished_proj (x : Session.t) :
  Session.workers (Session.check_finished x) = Session.workers x /\
  Session.thread_states (Session.check_finished x) = Session.thread_states x /\
  Session.timeline_data (Session.check_finished x) = Session.timeline_data x /\
  Session.sim (Session.check_finished x) = Session.sim x.
Proof.
  unfold Session.check_finished.
  destruct (Session.thread_states x) eqn:E; simpl; rewrite ?E; repeat split; reflexivity.
Qed.

(** The Finished badge only looks at the badge, the workers and the
    buffer. *)
Lemma done_ext (st st' : Session.t) :
  Session.workers st' = Session.workers st ->
  Session.done_badge st' = Session.done_badge st ->
  FullSimulatorC.buffer_model (Session.sim st') =
    FullSimulatorC.buffer_model (Session.sim st) ->
  session_done st -> session_done st'.
Proof.
  intros Hw Hd Hb Hdone. unfold session_done. rewrite Hw, Hd, Hb. exact Hdone.
Qed.

Lemma inv_ext (p c : Z) (st st' : Session.t) :
  Session.workers st' = Session.workers st ->
  Session.thread_states st' = Session.thread_states st ->
  Session.timeline_data st' = Session.timeline_data st ->
  Session.done_badge st' = Session.done_badge st ->
  FullSimulatorC.buffer_model (Session.sim st') =
    FullSimulatorC.buffer_model (Session.sim st) ->
  session_inv p c st -> session_inv p c st'.
Proof.
  intros Hw Hts Htl Hd Hb [Hcore Hdone]. constructor.
  - by apply (core_ext p c st).
  - by apply (done_ext st).
Qed.

(** What a tick of the GUI thread leaves alone. *)
Lemma do_task_frame (x : Session.task) (st st' : Session.t) :
  Session.do_task x st = Some st' ->
  Session.workers st' = Session.workers st /\
  Session.thread_states st' = Session.thread_states st /\
  Session.timeline_data st' = Session.timeline_data st /\
  Session.done_badge st' = Session.done_badge st /\
  Session.sim st' = Session.sim st /\
  Session.gui_q st' = Session.gui_q st.
Proof.
  destruct x as [tag msg|n|n s]; simpl.
  - intros [= <-]. repeat split.
  - intros [= <-]. repeat split.
  - unfold Session.update_thread_label.
    destruct (Session.thread_labels st) as [labels|]; [|discriminate]. simpl.
    destruct (labels !! n); intros [= <-]; repeat split.
Qed.

Lemma process_frame (room : nat) (st st' : Session.t) :
  Session.process room st = Some st' ->
  Session.workers st' = Session.workers st /\
  Session.thread_states st' = Session.thread_states st /\
  Session.timeline_data st' = Session.timeline_data st /\
  Session.done_badge st' = Session.done_badge st /\
  Session.sim st' = Session.sim st.
Proof.
  revert st. induction room as [|room IH]; intros st; simpl.
  - intros [= <-]. repeat split.
  - destruct (Session.gui_q st) as [|x rest] eqn:Hq; [intros [= <-]; repeat split|].
    destruct (Session.do_task x (Session.set_gui_q rest st)) as [st1|] eqn:Hx;
      [|discriminate]. simpl. intros Hp.
    destruct (do_task_frame _ _ _ Hx) as (H1 & H2 & H3 & H4 & H5 & _).
    destruct (IH _ Hp) as (K1 & K2 & K3 & K4 & K5).
    rewrite K1, K2, K3, K4, K5, H1, H2, H3, H4, H5. repeat split.
Qed.

Lemma step_worker_inv (p c : Z) (mv : Session.move) (st st' : Session.t) :
  session_inv p c st ->
  Session.step_worker mv st = Some st' ->
  session_inv p c st'.
Proof.
  intros [Hcore Hdone]. destruct mv as [[idx now] stops].
  unfold Session.step_worker. simpl.
  destruct (Session.workers st !! idx) as [wk|] eqn:Hl; [|discriminate]. simpl.
  destruct (Session.worker_step now stops wk st) as [[wk' st1]|] eqn:Hstep;
    [|discriminate]. simpl. intros [= <-].
  destruct (worker_step_core p c st st1 idx wk wk' now stops Hcore Hl Hstep)
    as [Hcore' Hbadge].
  constructor; [exact Hcore'|].
  destruct (Session.w_pc wk) eqn:Hpc;
    try (apply (done_vacuous st _ idx wk Hdone Hl);
         [unfold has_left; rewrite Hpc; intros [|]; discriminate |
          simpl; apply Hbadge; discriminate]).
  + (* W_report *)
    unfold Session.worker_step in Hstep. rewrite Hpc in Hstep.
    injection Hstep as Hwk Hst. subst wk' st1.
    match goal with
    | |- context [Session.check_finished ?x] =>
        destruct (check_finished_proj x) as (Ha & Hb & Hc & Hd);
        eapply (done_of_check p c _ x Hcore')
    end; simpl; rewrite ?Hb, ?Hd; reflexivity.
  + (* W_done *)
    unfold Session.worker_step in Hstep. rewrite Hpc in Hstep. discriminate.
Qed.

Lemma run_workers_inv (p c : Z) (mvs : list Session.move) (st st' : Session.t) :
  session_inv p c st ->
  Session.run_workers mvs st = Some st' ->
  session_inv p c st'.
Proof.
  revert st. induction mvs as [|mv mvs IH]; intros st Hinv; simpl.
  - intros [= <-]. exact Hinv.
  - destruct (Session.step_worker mv st) as [st1|] eqn:E; [|discriminate]. simpl.
    apply IH. by apply (step_worker_inv p c mv st).
Qed.

Lemma handle_inv (p c : Z) (e : Session.event) (st st' : Session.t) :
  session_inv p c st ->
  Session.is_start e = false ->
  Session.handle e st = Some st' ->
  session_inv p c st'.
Proof.
  intros Hinv Hns. destruct e as [mode p0 c0| |during| |idx now stops]; simpl;
    [discriminate | | | |].
  - (* Stop *)
    destruct Hinv as [Hcore Hdone].
    intros [= <-]. unfold Session.stop.
    destruct (FullSimulatorC.running (Session.sim st)) eqn:Hrun; [|by constructor].
    match goal with
    | |- session_inv _ _ (Session.check_finished ?x) =>
        destruct (check_finished_proj x) as (Ha & Hb & Hc & Hd);
        assert (session_core p c (Session.check_finished x)) as Hcore'
    end.
    { apply (core_ext p c st); rewrite ?Ha, ?Hb, ?Hc, ?Hd; try reflexivity; [|exact Hcore].
      simpl. unfold FullSimulatorC.stop. rewrite Hrun. reflexivity. }
    constructor; [exact Hcore'|].
    eapply (done_of_check p c _ _ Hcore'); [reflexivity | |];
      rewrite ?Hb, ?Hd; reflexivity.
  - (* Reset *)
    unfold Session.reset_all.
    match goal with
    | |- context [Session.run_workers during ?x] =>
        destruct (Session.run_workers during x) as [st1|] eqn:Hrun; [|discriminate];
        assert (session_inv p c x) as Hinv0
          by (apply (inv_ext p c st); [reflexivity .. | exact Hinv])
    end.
    simpl. intros [= <-].
    destruct (run_workers_inv p c during _ st1 Hinv0 Hrun)
      as [[Hr (ts & Hts & Hall) Hbuf Hids] _].
    constructor; [constructor|]; simpl; try assumption;
      [|intros Hfin; discriminate].
    exists ts. split; [exact Hts|]. intros idx wk Hl.
    destruct (Hall idx wk Hl) as (s & Hs1 & Hs2 & _).
    exists s. split; [exact Hs1|]. split; [exact Hs2|].
    unfold Session.reported. simpl. rewrite lookup_empty. simpl.
    split; [reflexivity|]. destruct (Session.w_pc wk); auto.
  - (* a tick of the GUI thread *)
    unfold Session.process_gui_queue. intros Hp.
    destruct (process_frame _ _ _ Hp) as (H1 & H2 & H3 & H4 & H5).
    apply (inv_ext p c st); [assumption .. | by rewrite H5 | exact Hinv].
  - (* a worker step *)
    apply (step_worker_inv p c (idx, now, stops) st st' Hinv).
Qed.

Lemma run_inv (p c : Z) (evs : list Session.event) (st st' : Session.t) :
  session_inv p c st ->
  forallb (fun e => negb (Session.is_start e)) evs = true ->
  Session.run evs st = Some st' ->
  session_inv p c st'.
Proof.
  revert st. induction evs as [|e evs IH]; intros st Hinv Hns; simpl.
  - intros [= <-]. exact Hinv.
  - simpl in Hns. apply andb_prop in Hns as [He Hns]. apply negb_true_iff in He.
    destruct (Session.handle e st) as [st1|] eqn:E; [|discriminate]. simpl.
    apply IH; [|exact Hns]. eapply handle_inv; eauto.
Qed.

Lemma foldl_insert_lookup {V} (f : Session.role * Z -> string) (v : V)
    (l : list (Session.role * Z)) (m0 : gmap string V) (k : string) :
  m0 !! k = Some v \/ k ∈ f <$> l ->
  foldl (fun m rp => <[f rp := v]> m) m0 l !! k = Some v.
Proof.
  revert m0. induction l as [|x l IH]; intros m0; simpl.
  - intros [H | H]; [exact H | by apply elem_of_nil in H].
  - intros H. apply IH. destruct (decide (k = f x)) as [->|Hne].
    + left. apply lookup_insert_eq.
    + destruct H as [H | H].
      * left. rewrite lookup_insert_ne by congruence. exact H.
      * apply elem_of_cons in H as [H | H]; [congruence | by right].
Qed.

Lemma new_buffer_five (mode : string) :
  exists m, FullSimulatorC.new_buffer mode 5 = Some m /\ FullSimulatorC.buffer_q m = [].
Proof.
  unfold FullSimulatorC.new_buffer. destruct (String.eqb mode "Monitor"); eauto.
Qed.

Lemma start_inv (mode : string) (p c : Z) :
  session_inv p c (Session.start mode p c Session.init).
Proof.
  unfold Session.start. simpl.
  destruct (new_buffer_five mode) as (m & Hm & Hq). rewrite Hm.
  assert (forall idx wk,
            ((fun rp : Session.role * Z => Session.Worker rp.1 rp.2 1 Session.W_enter)
               <$> Session.roster p c) !! idx = Some wk ->
            Session.w_pc wk = Session.W_enter /\ Session.w_item_id wk = 1 /\
            Session.roster p c !! idx = Some (role_pid wk)) as Hwk.
  { intros idx wk. rewrite list_lookup_fmap.
    destruct (Session.roster p c !! idx) as [[r x]|]; simpl; [|discriminate].
    intros [= <-]. auto. }
  constructor; [constructor|]; simpl.
  - rewrite <- list_fmap_compose. clear Hwk.
    induction (Session.roster p c) as [|[r x] l IH];
      [reflexivity | simpl; f_equal; exact IH].
  - eexists. split; [reflexivity|]. intros idx wk Hl.
    destruct (Hwk idx wk Hl) as (Hpc & _ & Hro).
    assert (Session.name wk ∈
              (fun rp : Session.role * Z => Session.name_of rp.1 rp.2)
                <$> Session.roster p c) as Hin.
    { apply list_elem_of_fmap. exists (role_pid wk). split; [reflexivity|].
      apply list_elem_of_lookup. eauto. }
    exists "Ready". split; [apply foldl_insert_lookup; by right|].
    rewrite Hpc. split; [reflexivity|]. unfold Session.reported. simpl.
    rewrite (foldl_insert_lookup
               (fun rp : Session.role * Z => Session.name_of rp.1 rp.2)
               [] (Session.roster p c) ∅ (Session.name wk) (or_intror Hin)).
    split; reflexivity.
  - exists m. unfold FullSimulatorC.start. simpl. rewrite Hm.
    split; [reflexivity|]. rewrite Hq. split; [apply NoDup_nil_2|].
    intros x Hx. by apply elem_of_nil in Hx.
  - intros idx wk Hl. destruct (Hwk idx wk Hl) as (_ & -> & _). split; [lia | auto].
  - intros Hfin. discriminate.
Qed.



(** X12: in the first session the buffer never holds the same label
    twice, and every label in it is [P<pid>-<k>] for a producer of the
    session and a [k] from 1 up to the number of items that producer has
    put so far. *)
Theorem labels_are_unique (mode : string) (p c : Z) (evs : list Session.event)
    (st : Session.t) (m : FullSimulatorC.buffer) :
  forallb (fun e => negb (Session.is_start e)) evs = true ->
  Session.run (Session.EvStart mode p c :: evs) Session.init = Some st ->
  FullSimulatorC.buffer_model (Session.sim st) = Some m ->
  NoDup (FullSimulatorC.buffer_q m) /\
  forall x, x ∈ FullSimulatorC.buffer_q m ->
    exists (idx : nat) (wk : Session.worker) (k : Z),
      Session.workers st !! idx = Some wk /\
      Session.w_role wk = Session.Producer /\
      (Session.Producer, Session.w_pid wk) ∈ Session.roster p c /\
      x = Session.label_of (Session.w_pid wk) k /\
      1 <= k <= Session.w_item_id wk.
Proof.
  intros Hns Hrun Hm. simpl in Hrun.
  destruct (run_inv p c evs _ st (start_inv mode p c) Hns Hrun)
    as [[Hr _ (m0 & Hm0 & Hnd & Hitems) _] _].
  rewrite Hm in Hm0. injection Hm0 as <-. split; [exact Hnd|].
  intros x Hx. destruct (Hitems x Hx) as (idx & wk & k & Hl & Hrole & -> & Hk & Hkk).
  exists idx, wk, k. repeat split; try assumption.
  - rewrite <- Hrole. apply list_elem_of_lookup. exists idx.
    apply (worker_in_roster p c st idx wk Hr Hl).
  - destruct Hkk as [|[_ ->]]; lia.
Qed.

Lemma labels_are_unique_witness :
  let st := session_after (Session.EvStart "Monitor" 1 1 :: one_item_session) in
  let m := FullSimulatorC.MonitorModel (MonitorBuffer.mk 5 ["P1-1"] false) in
  NoDup (FullSimulatorC.buffer_q m) /\
  forall x, x ∈ FullSimulatorC.buffer_q m ->
    exists (idx : nat) (wk : Session.worker) (k : Z),
      Session.workers st !! idx = Some wk /\
      Session.w_role wk = Session.Producer /\
      (Session.Producer, Session.w_pid wk) ∈ Session.roster 1 1 /\
      x = Session.label_of (Session.w_pid wk) k /\
      1 <= k <= Session.w_item_id wk.
Proof.
  intros st m.
  apply (labels_are_unique "Monitor" 1 1 one_item_session st m).
  - reflexivity.
  - vm_compute. reflexivity.
  - vm_compute. reflexivity.
Defined.

(** X13: in the first session the Finished badge is shown only when
    every worker has left its loop and the buffer is empty.  Workers
    that stop while items are left never make the simulator report that
    it has finished. *)
Theorem finished_badge_is_true (mode : string) (p c : Z) (evs : list Session.event)
    (st : Session.t) :
  forallb (fun e => negb (Session.is_start e)) evs = true ->
  Session.run (Session.EvStart mode p c :: evs) Session.init = Some st ->
  Session.done_badge st = "✔ Simulation Finished" ->
  (forall idx wk, Session.workers st !! idx = Some wk -> has_left (Session.w_pc wk)) /\
  FullSimulatorC.occupancy (Session.sim st) = 0.
Proof.
  intros Hns Hrun Hfin. simpl in Hrun.
  destruct (run_inv p c evs _ st (start_inv mode p c) Hns Hrun) as [_ Hdone].
  destruct (Hdone Hfin) as [Hleft Hempty]. split; [exact Hleft|].
  unfold FullSimulatorC.occupancy.
  destruct (FullSimulatorC.buffer_model (Session.sim st)) as [m|]; [|reflexivity].
  rewrite (Hempty m eq_refl). reflexivity.
Qed.

Lemma finished_badge_is_true_witness :
  let st := session_after (Session.EvStart "Monitor" 1 1 :: whole_session) in
  (forall idx wk, Session.workers st !! idx = Some wk -> has_left (Session.w_pc wk)) /\
  FullSimulatorC.occupancy (Session.sim st) = 0.
Proof.
  intros st.
  apply (finished_badge_is_true "Monitor" 1 1 whole_session st).
  - reflexivity.
  - vm_compute. reflexivity.
  - vm_compute. reflexivity.
Defined.

(** * The GUI thread *)

(** ** What a worker step hands to the GUI thread *)

Lemma occupancy_ok (s : FullSimulatorC.t) :
  sim_ok s -> 0 <= FullSimulatorC.occupancy s <= 5.
Proof.
  intros [_ Hb _ _ _]. unfold FullSimulatorC.occupancy.
  destruct (FullSimulatorC.buffer_model s) as [m|]; [|lia].
  pose proof (buffer_ok_bound 5 m (Hb m eq_refl)). lia.
Qed.

Lemma worker_step_gui (now : Z) (stops : list bool) (wk wk' : Session.worker)
    (st st' : Session.t) :
  Session.worker_step now stops wk st = Some (wk', st') ->
  Session.name wk' = Session.name wk /\
  Session.thread_labels st' = Session.thread_labels st /\
  Session.slot_colours st' = Session.slot_colours st /\
  Session.workers st' = Session.workers st /\
  (sim_ok (Session.sim st) -> sim_ok (Session.sim st')) /\
  exists extra,
    Forall (fun x => is_set_thread x = false) extra /\
    (sim_ok (Session.sim st) -> Forall slot_in_range extra) /\
    ((Session.thread_states st' = Session.thread_states st /\
      Session.gui_q st' = Session.gui_q st ++ extra) \/
     (exists ts s,
        Session.thread_states st = Some ts /\
        Session.thread_states st' = Some (<[Session.name wk := s]> ts) /\
        Session.gui_q st' =
          Session.gui_q st ++ extra ++ [Session.TSetThread (Session.name wk) s])).
Proof.
  unfold Session.worker_step.
  destruct (Session.w_pc wk) eqn:Hpc.
  - (* W_enter *)
    unfold Session.thread_state_change.
    destruct (Session.thread_states st) as [ts|] eqn:Hts; [|discriminate]. simpl.
    intros [= <- <-]. simpl. split_and!; try done.
    exists []. split_and!; try done. right. by exists ts, "Running".
  - (* W_guard *)
    destruct (FullSimulatorC.stop_event (Session.sim st)); intros [= <- <-];
      (split_and!; try done; exists []; split_and!; try done; left;
       by rewrite app_nil_r).
  - (* W_announce *)
    unfold Session.thread_state_change. simpl.
    destruct (Session.thread_states st) as [ts|] eqn:Hts; [|discriminate]. simpl.
    intros [= <- <-]. simpl. split_and!; try done.
    refine (ex_intro _ [_] _). split_and!; revgoals.
    + right. exists ts, "Waiting". split_and!; try done. by rewrite <- app_assoc.
    + intros _. constructor; [|constructor]. destruct (Session.w_role wk); exact I.
    + constructor; [|constructor]. destruct (Session.w_role wk); reflexivity.
  - (* W_call *)
    unfold Session.call_step.
    destruct (FullSimulatorC.buffer_model (Session.sim st)) as [m|] eqn:Hm;
      [|discriminate]. simpl.
    destruct (Session.w_role wk) eqn:Hrole.
    + destruct (FullSimulatorC.producer_pass (Session.label wk) stops (Session.sim st))
        as [sim'|] eqn:Hpass; [|discriminate]. simpl.
      assert (sim_ok (Session.sim st) -> sim_ok sim') as Hok.
      { intros Hs.
        apply (handle_ok (FullSimulatorC.EvProduce (Session.label wk) stops) _ _ Hs Hpass). }
      destruct (FullSimulatorC.call (Put (Session.label wk) stops) m).1 as [[[]|]|];
        intros [= <- <-]; simpl; unfold Session.name; simpl;
        (split_and!; try done; try (by rewrite Hrole)).
      * refine (ex_intro _ [_; _] _). split_and!; revgoals.
        -- left. split; [reflexivity|]. by rewrite <- app_assoc.
        -- intros Hs. constructor; [exact I|]. constructor; [|constructor].
           simpl. by apply occupancy_ok, Hok.
        -- repeat constructor.
      * exists []. split_and!; try done. left. by rewrite app_nil_r.
      * exists []. split_and!; try done. left. by rewrite app_nil_r.
      * exists []. split_and!; try done. left. by rewrite app_nil_r.
    + destruct (FullSimulatorC.consumer_pass stops (Session.sim st))
        as [sim'|] eqn:Hpass; [|discriminate]. simpl.
      assert (sim_ok (Session.sim st) -> sim_ok sim') as Hok.
      { intros Hs.
        apply (handle_ok (FullSimulatorC.EvConsume stops) _ _ Hs Hpass). }
      destruct (FullSimulatorC.call (Get stops) m).1 as [[|[item|]]|];
        intros [= <- <-]; simpl; unfold Session.name; simpl;
        (split_and!; try done; try (by rewrite Hrole)).
      * exists []. split_and!; try done. left. by rewrite app_nil_r.
      * refine (ex_intro _ [_; _] _). split_and!; revgoals.
        -- left. split; [reflexivity|]. by rewrite <- app_assoc.
        -- intros Hs. constructor; [exact I|]. constructor; [|constructor].
           simpl. by apply occupancy_ok, Hok.
        -- repeat constructor.
      * exists []. split_and!; try done. left. by rewrite app_nil_r.
      * exists []. split_and!; try done. left. by rewrite app_nil_r.
  - (* W_resume *)
    unfold Session.thread_state_change.
    destruct (Session.thread_states st) as [ts|] eqn:Hts; [|discriminate]. simpl.
    intros [= <- <-]. simpl. split_and!; try done.
    + by destruct (Session.w_role wk).
    + exists []. split_and!; try done. right. by exists ts, "Running".
  - (* W_leave *)
    unfold Session.thread_state_change.
    destruct (Session.thread_states st) as [ts|] eqn:Hts; [|discriminate]. simpl.
    intros [= <- <-]. simpl. split_and!; try done.
    exists []. split_and!; try done. right. by exists ts, "Stopped".
  - (* W_report *)
    intros [= <- <-].
    match goal with
    | |- context [Session.check_finished ?x] =>
        destruct (check_finished_proj x) as (Ha & Hb & Hc & Hd);
        assert (Session.thread_labels (Session.check_finished x) = Session.thread_labels x /\
                Session.slot_colours (Session.check_finished x) = Session.slot_colours x /\
                Session.gui_q (Session.check_finished x) = Session.gui_q x) as (He & Hf & Hg)
          by (unfold Session.check_finished; destruct (Session.thread_states x);
              repeat split)
    end.
    rewrite Ha, Hb, Hd, He, Hf, Hg. simpl. split_and!; try done.
    refine (ex_intro _ [_] _). split_and!; revgoals.
    + left. split; reflexivity.
    + intros _. repeat constructor.
    + repeat constructor.
  - discriminate.
Qed.

Lemma check_finished_gui (x : Session.t) :
  Session.thread_labels (Session.check_finished x) = Session.thread_labels x /\
  Session.slot_colours (Session.check_finished x) = Session.slot_colours x /\
  Session.gui_q (Session.check_finished x) = Session.gui_q x.
Proof.
  unfold Session.check_finished. destruct (Session.thread_states x); repeat split.
Qed.

(** ** The labels follow the thread table *)

Lemma replay_app (n : string) (q1 q2 : list Session.task) (cur : option Session.widget) :
  replay n (q1 ++ q2) cur = replay n q2 (replay n q1 cur).
Proof. apply foldl_app. Qed.

Lemma replay_quiet (n : string) (extra : list Session.task) (cur : option Session.widget) :
  Forall (fun x => is_set_thread x = false) extra ->
  replay n extra cur = cur.
Proof.
  intros H. revert cur. induction H as [|x l Hx _ IH]; intros cur; [reflexivity|].
  simpl. rewrite <- (IH cur) at 2. unfold replay. f_equal.
  destruct x; try discriminate; reflexivity.
Qed.

Lemma do_task_labels (x : Session.task) (rest : list Session.task)
    (labels : gmap string Session.widget) (st st' : Session.t) :
  Session.thread_labels st = Some labels ->
  Session.do_task x (Session.set_gui_q rest st) = Some st' ->
  exists labels',
    Session.thread_labels st' = Some labels' /\
    (forall n, labels' !! n = relabel n (labels !! n) x) /\
    Session.gui_q st' = rest /\
    Session.thread_states st' = Session.thread_states st /\
    Session.workers st' = Session.workers st.
Proof.
  intros Hlab. destruct x as [tag msg|k|n s]; simpl.
  - intros [= <-]. by exists labels.
  - intros [= <-]. by exists labels.
  - unfold Session.update_thread_label. simpl. rewrite Hlab. simpl.
    destruct (labels !! n) as [w|] eqn:Hn; intros [= <-]; simpl.
    + exists (<[n := Session.label_for n s]> labels). split_and!; try done.
      intros n'. destruct (String.eqb_spec n n') as [<-|Hne].
      * rewrite lookup_insert_eq, Hn. reflexivity.
      * rewrite lookup_insert_ne by exact Hne. by destruct (labels !! n').
    + exists labels. split_and!; try done.
      intros n'. destruct (String.eqb_spec n n') as [<-|Hne].
      * rewrite Hn. reflexivity.
      * by destruct (labels !! n').
Qed.

Lemma foldl_insert_lookup_fn {V} (f : Session.role * Z -> string) (g : Session.role * Z -> V)
    (l : list (Session.role * Z)) (m0 : gmap string V) (x : Session.role * Z) :
  (forall y, f y = f x -> g y = g x) ->
  x ∈ l ->
  foldl (fun m rp => <[f rp := g rp]> m) m0 l !! f x = Some (g x).
Proof.
  intros Hg. revert m0.
  assert (forall l (m0 : gmap string V), m0 !! f x = Some (g x) ->
            foldl (fun m rp => <[f rp := g rp]> m) m0 l !! f x = Some (g x)) as Hkeep.
  { clear l. induction l as [|y l IH]; intros m0 H0; simpl; [exact H0|].
    apply IH. destruct (decide (f y = f x)) as [Heq|Hne].
    - rewrite Heq, lookup_insert_eq. f_equal. by apply Hg.
    - rewrite lookup_insert_ne by exact Hne. exact H0. }
  induction l as [|y l IH]; intros m0 Hin; [by apply elem_of_nil in Hin|].
  simpl. apply elem_of_cons in Hin as [<-|Hin].
  - apply Hkeep. apply lookup_insert_eq.
  - by apply IH.
Qed.

(** ** A tick never fails *)

Lemma step_worker_exist (mv : Session.move) (st st' : Session.t) :
  labels_exist st ->
  Session.step_worker mv st = Some st' ->
  labels_exist st'.
Proof.
  intros Hinv. destruct mv as [[idx now] stops]. unfold Session.step_worker. simpl.
  destruct (Session.workers st !! idx) as [wk|] eqn:Hl; [|discriminate]. simpl.
  destruct (Session.worker_step now stops wk st) as [[wk' st1]|] eqn:Hstep;
    [|discriminate]. simpl. intros [= <-].
  destruct (worker_step_gui _ _ _ _ _ _ Hstep) as (_ & Hlab & _).
  left. simpl. rewrite Hlab. destruct Hinv as [H|[_ Hw]]; [exact H|].
  rewrite Hw in Hl. discriminate.
Qed.

Lemma run_workers_exist (mvs : list Session.move) (st st' : Session.t) :
  labels_exist st ->
  Session.run_workers mvs st = Some st' ->
  labels_exist st'.
Proof.
  revert st. induction mvs as [|mv mvs IH]; intros st Hinv; simpl.
  - intros [= <-]. exact Hinv.
  - destruct (Session.step_worker mv st) as [st1|] eqn:E; [|discriminate]. simpl.
    apply IH. by apply (step_worker_exist mv st).
Qed.

Lemma process_takes (room : nat) (st : Session.t) :
  labels_exist st ->
  exists st', Session.process room st = Some st' /\
              Session.gui_q st' = drop room (Session.gui_q st) /\
              labels_exist st'.
Proof.
  revert st. induction room as [|room IH]; intros st Hinv; simpl.
  - exists st. rewrite drop_0. auto.
  - destruct (Session.gui_q st) as [|x rest] eqn:Hq.
    + exists st. rewrite Hq. auto.
    + destruct Hinv as [Hlab|[Hnil _]]; [|congruence].
      destruct (Session.thread_labels st) as [labels|] eqn:Hl; [|done].
      assert (exists st1, Session.do_task x (Session.set_gui_q rest st) = Some st1)
        as (st1 & Hx).
      { destruct x as [tag msg|k|n s]; simpl; eauto.
        unfold Session.update_thread_label. simpl. rewrite Hl. simpl.
        destruct (labels !! n); eauto. }
      destruct (do_task_labels x rest labels st st1 Hl Hx)
        as (labels' & Hlab' & _ & Hq' & _).
      rewrite Hx. simpl.
      destruct (IH st1) as (st' & Hp & Hd & Hinv'); [left; by rewrite Hlab'|].
      exists st'. rewrite <- Hq'. auto.
Qed.

Lemma handle_exist (e : Session.event) (st st' : Session.t) :
  labels_exist st ->
  Session.handle e st = Some st' ->
  labels_exist st'.
Proof.
  intros Hinv. destruct e as [mode p0 c0| |during| |idx now stops]; simpl.
  - intros [= <-]. unfold Session.start.
    destruct (FullSimulatorC.running (Session.sim st)); [exact Hinv|].
    destruct (FullSimulatorC.new_buffer mode _); [by left | exact Hinv].
  - intros [= <-]. unfold Session.stop.
    destruct (FullSimulatorC.running (Session.sim st)); [|exact Hinv].
    match goal with
    | |- labels_exist (Session.check_finished ?x) =>
        destruct (check_finished_proj x) as (Ha & _);
        destruct (check_finished_gui x) as (He & _ & Hg)
    end.
    unfold labels_exist. rewrite Ha, He, Hg. exact Hinv.
  - unfold Session.reset_all.
    match goal with
    | |- context [Session.run_workers during ?x] =>
        destruct (Session.run_workers during x) as [st1|] eqn:Hrun; [|discriminate];
        assert (labels_exist x) as Hinv0 by exact Hinv
    end.
    simpl. intros [= <-].
    exact (run_workers_exist during _ st1 Hinv0 Hrun).
  - unfold Session.process_gui_queue. intros Hp.
    destruct (process_takes 200 st Hinv) as (st1 & Hp1 & _ & Hinv1). congruence.
  - by apply step_worker_exist.
Qed.

Lemma run_exist (evs : list Session.event) (st st' : Session.t) :
  labels_exist st ->
  Session.run evs st = Some st' ->
  labels_exist st'.
Proof.
  revert st. induction evs as [|e evs IH]; intros st Hinv; simpl.
  - intros [= <-]. exact Hinv.
  - destruct (Session.handle e st) as [st1|] eqn:E; [|discriminate]. simpl.
    apply IH. eapply handle_exist; eauto.
Qed.

(** X15: whatever has happened before, over any number of sessions, a
    tick of the GUI thread does not fail: it handles the first 200
    tasks of the queue, or all of them when there are fewer, and leaves
    the rest in the queue. *)
Theorem tick_takes_200 (evs : list Session.event) (st : Session.t) :
  Session.run evs Session.init = Some st ->
  exists st', Session.process_gui_queue st = Some st' /\
              Session.gui_q st' = drop 200 (Session.gui_q st).
Proof.
  intros Hrun.
  assert (labels_exist Session.init) as H0 by (right; split; reflexivity).
  destruct (process_takes 200 st (run_exist evs _ st H0 Hrun)) as (st' & Hp & Hd & _).
  exists st'. split; assumption.
Qed.

Lemma tick_takes_200_witness :
  let st := session_after (Session.EvStart "Monitor" 1 1 :: one_item_session) in
  exists st', Session.process_gui_queue st = Some st' /\
              Session.gui_q st' = drop 200 (Session.gui_q st).
Proof.
  intros st.
  apply (tick_takes_200 (Session.EvStart "Monitor" 1 1 :: one_item_session) st).
  vm_compute. reflexivity.
Defined.

(** ** The strip of slots *)

Lemma update_slots_painted (n : Z) :
  0 <= n <= 5 ->
  (fun i => if i <? n then NEON.slot_fill else NEON.slot_empty) <$> seqZ 0 5 = painted n.
Proof.
  intros Hn.
  assert (n = 0 \/ n = 1 \/ n = 2 \/ n = 3 \/ n = 4 \/ n = 5) as H by lia.
  destruct H as [->|[->|[->|[->|[->| ->]]]]]; reflexivity.
Qed.

Lemma gui_ok_ext (st st' : Session.t) :
  Session.sim st' = Session.sim st ->
  Session.gui_q st' = Session.gui_q st ->
  Session.slot_colours st' = Session.slot_colours st ->
  gui_ok st -> gui_ok st'.
Proof.
  intros Hs Hq Hc [H1 H2 H3]. constructor; rewrite ?Hs, ?Hq, ?Hc; assumption.
Qed.

Lemma step_worker_ok (mv : Session.move) (st st' : Session.t) :
  gui_ok st ->
  Session.step_worker mv st = Some st' ->
  gui_ok st'.
Proof.
  intros [Hsim Hq Hslots]. destruct mv as [[idx now] stops].
  unfold Session.step_worker. simpl.
  destruct (Session.workers st !! idx) as [wk|] eqn:Hl; [|discriminate]. simpl.
  destruct (Session.worker_step now stops wk st) as [[wk' st1]|] eqn:Hstep;
    [|discriminate]. simpl. intros [= <-].
  destruct (worker_step_gui _ _ _ _ _ _ Hstep)
    as (_ & _ & Hcol & _ & Hok & extra & _ & Hrange & Hq').
  constructor; simpl.
  - by apply Hok.
  - destruct Hq' as [[_ ->] | (ts & s & _ & _ & ->)].
    + apply Forall_app. split; [exact Hq | by apply Hrange].
    + rewrite !Forall_app. split_and!; [exact Hq | by apply Hrange |].
      constructor; [exact I | constructor].
  - rewrite Hcol. exact Hslots.
Qed.

Lemma run_workers_ok (mvs : list Session.move) (st st' : Session.t) :
  gui_ok st ->
  Session.run_workers mvs st = Some st' ->
  gui_ok st'.
Proof.
  revert st. induction mvs as [|mv mvs IH]; intros st Hinv; simpl.
  - intros [= <-]. exact Hinv.
  - destruct (Session.step_worker mv st) as [st1|] eqn:E; [|discriminate]. simpl.
    apply IH. by apply (step_worker_ok mv st).
Qed.

Lemma process_ok (room : nat) (st st' : Session.t) :
  gui_ok st ->
  Session.process room st = Some st' ->
  gui_ok st'.
Proof.
  revert st. induction room as [|room IH]; intros st Hinv; simpl.
  - intros [= <-]. exact Hinv.
  - destruct (Session.gui_q st) as [|x rest] eqn:Hq; [intros [= <-]; exact Hinv|].
    destruct (Session.do_task x (Session.set_gui_q rest st)) as [st1|] eqn:Hx;
      [|discriminate]. simpl.
    apply IH. destruct Hinv as [Hsim Hall Hslots].
    rewrite Hq in Hall. apply Forall_cons in Hall as [Hx0 Hrest].
    destruct x as [tag msg|k|n s]; simpl in Hx.
    + injection Hx as <-. by constructor.
    + injection Hx as <-. constructor; simpl; try assumption.
      exists k. split; [exact Hx0|].
      rewrite (ok_capacity _ Hsim). by apply update_slots_painted.
    + unfold Session.update_thread_label in Hx. simpl in Hx.
      destruct (Session.thread_labels st) as [labels|]; [|discriminate]. simpl in Hx.
      destruct (labels !! n); injection Hx as <-; by constructor.
Qed.

Lemma handle_gui_ok (e : Session.event) (st st' : Session.t) :
  gui_ok st ->
  Session.handle e st = Some st' ->
  gui_ok st'.
Proof.
  intros Hinv. pose proof Hinv as [Hsim Hq Hslots].
  destruct e as [mode p0 c0| |during| |idx now stops]; simpl.
  - intros [= <-]. unfold Session.start.
    destruct (FullSimulatorC.running (Session.sim st)) eqn:Hrun; [exact Hinv|].
    assert (sim_ok (FullSimulatorC.start mode (Session.sim st))) as Hsim'
      by exact (handle_ok (FullSimulatorC.EvStart mode) _ _ Hsim eq_refl).
    destruct (FullSimulatorC.new_buffer mode _); by constructor.
  - intros [= <-]. unfold Session.stop.
    destruct (FullSimulatorC.running (Session.sim st)) eqn:Hrun; [|exact Hinv].
    assert (sim_ok (FullSimulatorC.stop (Session.sim st))) as Hsim'
      by exact (handle_ok FullSimulatorC.EvStop _ _ Hsim eq_refl).
    match goal with
    | |- gui_ok (Session.check_finished ?x) =>
        destruct (check_finished_proj x) as (_ & _ & _ & Hd);
        destruct (check_finished_gui x) as (_ & Hf & Hg);
        apply (gui_ok_ext x); [exact Hd | exact Hg | exact Hf |]
    end.
    by constructor.
  - unfold Session.reset_all.
    match goal with
    | |- context [Session.run_workers during ?x] =>
        destruct (Session.run_workers during x) as [st1|] eqn:Hrun; [|discriminate];
        assert (gui_ok x) as Hinv0
    end.
    { destruct Hsim. constructor; simpl; try assumption. by constructor. }
    simpl. intros [= <-].
    destruct (run_workers_ok during _ st1 Hinv0 Hrun) as [Hsim1 Hq1 _].
    constructor; simpl.
    + exact (handle_ok FullSimulatorC.EvResetAll _ _ Hsim1 eq_refl).
    + exact Hq1.
    + exists 0. split; [lia|]. rewrite (ok_capacity _ Hsim1). reflexivity.
  - by apply process_ok.
  - by apply step_worker_ok.
Qed.

Lemma run_gui_ok (evs : list Session.event) (st st' : Session.t) :
  gui_ok st ->
  Session.run evs st = Some st' ->
  gui_ok st'.
Proof.
  revert st. induction evs as [|e evs IH]; intros st Hinv; simpl.
  - intros [= <-]. exact Hinv.
  - destruct (Session.handle e st) as [st1|] eqn:E; [|discriminate]. simpl.
    apply IH. eapply handle_gui_ok; eauto.
Qed.

(** X16: whatever has happened before, every [slot_update] task in the
    queue carries a number between 0 and the capacity 5, and the strip
    of slots shows some [k] filled slots followed by [5 - k] empty
    ones. *)
Theorem slots_show_a_filled_prefix (evs : list Session.event) (st : Session.t) :
  Session.run evs Session.init = Some st ->
  (forall n, Session.TSlotUpdate n ∈ Session.gui_q st -> 0 <= n <= 5) /\
  exists k, 0 <= k <= 5 /\ Session.slot_colours st = painted k.
Proof.
  intros Hrun.
  assert (gui_ok Session.init) as H0.
  { constructor; simpl; [exact init_ok | constructor |].
    exists 0. split; [lia | reflexivity]. }
  destruct (run_gui_ok evs _ st H0 Hrun) as [_ Hq Hslots].
  split; [|exact Hslots].
  intros n Hn. rewrite Forall_forall in Hq. exact (Hq _ Hn).
Qed.

Lemma slots_show_a_filled_prefix_witness :
  let st := session_after (Session.EvStart "Semaphore" 1 1 :: ticked_session) in
  (forall n, Session.TSlotUpdate n ∈ Session.gui_q st -> 0 <= n <= 5) /\
  exists k, 0 <= k <= 5 /\ Session.slot_colours st = painted k.
Proof.
  intros st.
  apply (slots_show_a_filled_prefix (Session.EvStart "Semaphore" 1 1 :: ticked_session) st).
  vm_compute. reflexivity.
Defined.


(** * Colours *)

Lemma string_length_app (s1 s2 : string) :
  String.length (s1 +:+ s2) = (String.length s1 + String.length s2)%nat.
Proof. induction s1 as [|a s1 IH]; simpl; [reflexivity | by rewrite IH]. Qed.

Lemma all_hex_app (s1 s2 : string) :
  all_hex (s1 +:+ s2) = all_hex s1 && all_hex s2.
Proof.
  induction s1 as [|a s1 IH]; simpl; [reflexivity|].
  by rewrite IH, andb_assoc.
Qed.

Lemma hex_go_length (fuel : nat) (n : Z) (acc : string) :
  (String.length acc <= String.length (hex_go fuel n acc))%nat.
Proof.
  revert n acc. induction fuel as [|fuel IH]; intros n acc; simpl; [lia|].
  destruct (n <? 16); simpl; [lia|].
  etransitivity; [|apply IH]. simpl. lia.
Qed.

Lemma hex_length (n : Z) : (1 <= String.length (hex n))%nat.
Proof.
  unfold hex. simpl. destruct (n <? 16); simpl; [lia|].
  etransitivity; [|apply hex_go_length]. simpl. lia.
Qed.

Lemma fmt_02x_length (n : Z) : (2 <= String.length (fmt_02x n))%nat.
Proof.
  unfold fmt_02x. pose proof (hex_length n). pose proof (hex_length (- n)).
  destruct (n <? 0); [rewrite string_length_app; change (String.length "-") with 1%nat; lia|].
  destruct (Nat.ltb_spec (String.length (hex n)) 2); [|lia].
  rewrite string_length_app. change (String.length "0") with 1%nat. lia.
Qed.

Lemma fmt_02x_big (n : Z) : 256 <= n -> (3 <= String.length (fmt_02x n))%nat.
Proof.
  intros Hn. unfold fmt_02x. destruct (Z.ltb_spec n 0); [lia|].
  assert (3 <= String.length (hex n))%nat as H3.
  { unfold hex. simpl. destruct (Z.ltb_spec n 16); [lia|].
    destruct (Z.to_nat n) as [|k] eqn:Hk; [lia|]. simpl.
    assert (16 <= n / 16) by (apply Z.div_le_lower_bound; lia).
    destruct (Z.ltb_spec (n / 16) 16); [lia|].
    destruct k as [|k]; [lia|]. simpl.
    destruct (n / 16 / 16 <? 16); simpl; [lia|].
    etransitivity; [|apply hex_go_length]. simpl. lia. }
  destruct (Nat.ltb_spec (String.length (hex n)) 2); [lia | exact H3].
Qed.

Lemma fmt_02x_negative (n : Z) : n < 0 -> all_hex (fmt_02x n) = false.
Proof.
  intros Hn. unfold fmt_02x. destruct (Z.ltb_spec n 0); [reflexivity | lia].
Qed.

(** For a channel the padding and the loop come to the two digits. *)
Lemma fmt_02x_channel (n : Z) : 0 <= n <= 255 -> fmt_02x n = two_digits n.
Proof.
  intros Hn.
  assert (Forall (fun n => fmt_02x n = two_digits n) (seqZ 0 256)) as H
    by (apply (bool_decide_unpack _); vm_compute; exact I).
  rewrite Forall_forall in H. apply H, elem_of_seqZ. lia.
Qed.

Lemma hex_digit_value (d : Z) :
  0 <= d <= 15 -> hex_value (hex_digit d) = d /\ hex_char (hex_digit d) = true.
Proof.
  intros Hd.
  assert (Forall (fun d => hex_value (hex_digit d) = d /\ hex_char (hex_digit d) = true)
            (seqZ 0 16)) as H
    by (apply (bool_decide_unpack _); vm_compute; exact I).
  rewrite Forall_forall in H. apply H, elem_of_seqZ. lia.
Qed.

Lemma channel_digits (n : Z) :
  0 <= n <= 255 -> 0 <= n / 16 <= 15 /\ 0 <= n mod 16 <= 15.
Proof.
  intros Hn. pose proof (Z.mod_pos_bound n 16 ltac:(lia)).
  pose proof (Z.div_pos n 16 ltac:(lia) ltac:(lia)).
  pose proof (Z.div_lt_upper_bound n 16 16 ltac:(lia) ltac:(lia)). lia.
Qed.

Lemma two_digits_inj (n n' : Z) :
  0 <= n <= 255 -> 0 <= n' <= 255 -> two_digits n = two_digits n' -> n = n'.
Proof.
  intros Hn Hn'. unfold two_digits. intros [= H1 H2].
  destruct (channel_digits n Hn) as [Hq Hm], (channel_digits n' Hn') as [Hq' Hm'].
  apply (f_equal hex_value) in H1, H2.
  rewrite (proj1 (hex_digit_value _ Hq)), (proj1 (hex_digit_value _ Hq')) in H1.
  rewrite (proj1 (hex_digit_value _ Hm)), (proj1 (hex_digit_value _ Hm')) in H2.
  rewrite (Z.div_mod n 16), (Z.div_mod n' 16) by lia. congruence.
Qed.

(** X17: [rgb_to_hex] of a triple is a colour of the form [#rrggbb],
    a [#] and six digits of base 16, exactly when each of the three
    channels lies between 0 and 255. *)
Theorem rgb_to_hex_six_digits (r g b : Z) :
  six_digits (rgb_to_hex (RGB r g b)) = true <->
  (0 <= r <= 255 /\ 0 <= g <= 255 /\ 0 <= b <= 255).
Proof.
  split.
  - simpl. rewrite andb_true_iff, Nat.eqb_eq, !string_length_app, !all_hex_app,
      !andb_true_iff.
    intros (Hlen & _ & Hr & Hg & Hb). simpl in Hlen.
    pose proof (fmt_02x_length r). pose proof (fmt_02x_length g).
    pose proof (fmt_02x_length b).
    assert (forall n, (String.length (fmt_02x n) <= 2)%nat ->
                      all_hex (fmt_02x n) = true -> 0 <= n <= 255) as Hch.
    { intros n Hl Hh. destruct (Z.lt_ge_cases n 0) as [Hneg|Hpos].
      - rewrite (fmt_02x_negative n Hneg) in Hh. discriminate.
      - destruct (Z.le_gt_cases 256 n) as [Hbig|]; [|lia].
        pose proof (fmt_02x_big n Hbig). lia. }
    split; [|split]; apply Hch; (lia || assumption).
  - intros (Hr & Hg & Hb). unfold rgb_to_hex.
    rewrite (fmt_02x_channel r Hr), (fmt_02x_channel g Hg), (fmt_02x_channel b Hb).
    unfold two_digits, six_digits.
    assert (forall n, 0 <= n <= 255 ->
              hex_char (hex_digit (n / 16)) = true /\
              hex_char (hex_digit (n mod 16)) = true) as Hd.
    { intros n Hn. destruct (channel_digits n Hn).
      split; by apply hex_digit_value. }
    destruct (Hd r Hr) as [H1 H2], (Hd g Hg) as [H3 H4], (Hd b Hb) as [H5 H6].
    revert H1 H2 H3 H4 H5 H6.
    generalize (hex_digit (r / 16)) (hex_digit (r mod 16)) (hex_digit (g / 16))
      (hex_digit (g mod 16)) (hex_digit (b / 16)) (hex_digit (b mod 16)).
    intros a1 a2 a3 a4 a5 a6 H1 H2 H3 H4 H5 H6.
    change ("#" +:+ String a1 (String a2 "") +:+ String a3 (String a4 "") +:+
              String a5 (String a6 ""))
      with (String "#" (String a1 (String a2 (String a3 (String a4 (String a5
              (String a6 ""))))))).
    cbn -[hex_char]. by rewrite H1, H2, H3, H4, H5, H6.
Qed.

(** X18: on triples of channels between 0 and 255 [rgb_to_hex] is
    one-to-one: two colours with the same string are the same colour. *)
Theorem rgb_to_hex_injective (r g b r' g' b' : Z) :
  0 <= r <= 255 -> 0 <= g <= 255 -> 0 <= b <= 255 ->
  0 <= r' <= 255 -> 0 <= g' <= 255 -> 0 <= b' <= 255 ->
  rgb_to_hex (RGB r g b) = rgb_to_hex (RGB r' g' b') ->
  RGB r g b = RGB r' g' b'.
Proof.
  intros Hr Hg Hb Hr' Hg' Hb'. simpl.
  rewrite !fmt_02x_channel by assumption.
  unfold two_digits at 1 2 3 4 5 6. simpl. intros [= H1 H2 H3 H4 H5 H6].
  f_equal; apply two_digits_inj; try assumption; unfold two_digits; congruence.
Qed.

Lemma rgb_to_hex_injective_witness :
  RGB 102 187 106 = RGB 102 187 106.
Proof.
  apply (rgb_to_hex_injective 102 187 106 102 187 106); try lia. reflexivity.
Defined.

(** ** First in, first out, call by call *)

Lemma of_thread_app (tid : nat) (l1 l2 : list (nat * Item)) :
  of_thread tid (l1 ++ l2) = of_thread tid l1 ++ of_thread tid l2.
Proof. apply flat_map_app. Qed.

Lemma of_thread_same (tid : nat) (l : list Item) :
  of_thread tid (pair tid <$> l) = l.
Proof.
  induction l as [|x l IH]; [reflexivity|].
  unfold of_thread in *. simpl. rewrite Nat.eqb_refl. simpl. f_equal. exact IH.
Qed.

Lemma of_thread_other (tid j : nat) (l : list Item) :
  j <> tid -> of_thread tid (pair j <$> l) = [].
Proof.
  intros Hne. induction l as [|x l IH]; [reflexivity|].
  unfold of_thread in *. simpl.
  destruct (Nat.eqb_spec j tid); [contradiction | exact IH].
Qed.

Lemma of_thread_fresh (tid : nat) (l : list (nat * Item)) :
  Forall (fun e => (e.1 < tid)%nat) l -> of_thread tid l = [].
Proof.
  induction 1 as [|e l He _ IH]; [reflexivity|].
  unfold of_thread in *. simpl.
  destruct (Nat.eqb_spec e.1 tid); [lia | exact IH].
Qed.

Lemma snd_pair (j : nat) (l : list Item) : (pair j <$> l).*2 = l.
Proof. induction l as [|x l IH]; [reflexivity | simpl; f_equal; exact IH]. Qed.

Lemma calls_of_app (s1 s2 : list action) :
  calls_of (s1 ++ s2) = calls_of s1 ++ calls_of s2.
Proof.
  induction s1 as [|a s1 IH]; [reflexivity|].
  destruct a; simpl; rewrite IH; reflexivity.
Qed.

Lemma ledger_app {B PC} `{!BoundedBuffer B PC}
    (s1 s2 : list action) (w : world B PC) :
  ledger (s1 ++ s2) w =
  ((ledger s1 w).1 ++ (ledger s2 (exec s1 w)).1,
   (ledger s1 w).2 ++ (ledger s2 (exec s1 w)).2).
Proof.
  revert w. induction s1 as [|a s1 IH]; intros w.
  - simpl. by destruct (ledger s2 w).
  - change (exec (a :: s1) w) with (exec s1 (exec1 w a)). simpl.
    rewrite IH. destruct (ledger s1 (exec1 w a)) as [ins outs]. simpl.
    by rewrite !app_assoc.
Qed.

Lemma queue_same (q : list Item) :
  appended_by q q = [] /\ removed_by q q = [].
Proof.
  unfold appended_by, removed_by. by rewrite drop_all, Nat.sub_diag.
Qed.

Lemma queue_appended (q : list Item) (x : Item) :
  appended_by q (q ++ [x]) = [x] /\ removed_by q (q ++ [x]) = [].
Proof.
  unfold appended_by, removed_by. rewrite drop_app_length, length_app. simpl.
  by replace (length q - (length q + 1))%nat with 0%nat by lia.
Qed.

Lemma queue_popped (x : Item) (q : list Item) :
  appended_by (x :: q) q = [] /\ removed_by (x :: q) q = [x].
Proof.
  unfold appended_by, removed_by. rewrite drop_ge by (simpl; lia). simpl.
  by replace (S (length q) - length q)%nat with 1%nat by lia.
Qed.

Ltac queue_effect :=
  simpl;
  rewrite ?(proj1 (queue_same _)), ?(proj2 (queue_same _)),
    ?(proj1 (queue_appended _ _)), ?(proj2 (queue_appended _ _)),
    ?(proj1 (queue_popped _ _)), ?(proj2 (queue_popped _ _)),
    ?app_nil_r, ?String.eqb_refl;
  try reflexivity.

Lemma mon_effect_step (c : call) (s : bool) (p : MonitorBuffer.pc)
    (b : MonitorBuffer.t) (a r : list Item) :
  mon_effect c p = Some (a, r) ->
  mon_effect c (bb_step s p b).1 =
    Some (a ++ appended_by (bb_q b) (bb_q (bb_step s p b).2),
          r ++ removed_by (bb_q b) (bb_q (bb_step s p b).2)).
Proof.
  destruct c as [item| |], p as [i|i|i| | | |[[]|o]]; simpl; try discriminate;
    try (destruct (String.eqb_spec i item) as [->|]; [|discriminate]);
    intros [= <- <-].
  all: try (destruct (MonitorBuffer.lock b); queue_effect).
  all: try (case_bool_decide; [destruct s|]; queue_effect).
  all: try (destruct (MonitorBuffer.q b) as [|x rest] eqn:E; [destruct s|];
            simpl; rewrite ?E; queue_effect).
  all: queue_effect.
Qed.

Lemma sem_effect_step (c : call) (s : bool) (p : SemaphoreBuffer.pc)
    (b : SemaphoreBuffer.t) (a r : list Item) :
  sem_effect c p = Some (a, r) ->
  sem_effect c (bb_step s p b).1 =
    Some (a ++ appended_by (bb_q b) (bb_q (bb_step s p b).2),
          r ++ removed_by (bb_q b) (bb_q (bb_step s p b).2)).
Proof.
  destruct c as [item| |],
    p as [i|i|i|i| |i| | | | | | | | |o|o|[[]|o]]; simpl; try discriminate;
    try (destruct (String.eqb_spec i item) as [->|]; [|discriminate]);
    intros [= <- <-].
  all: try (destruct s; queue_effect; fail).
  all: try (unfold Semaphore.acquire; case_bool_decide; queue_effect; fail).
  all: try (destruct (SemaphoreBuffer.q b) as [|x rest] eqn:E;
            simpl; rewrite ?E; queue_effect; fail).
  all: queue_effect.
Qed.

Lemma mon_effect_returned (c : call) (p : MonitorBuffer.pc) (res : result)
    (a r : list Item) :
  mon_effect c p = Some (a, r) -> bb_returned p = Some res ->
  answers c res /\ a = accepted_by c res /\ r = delivered_by res.
Proof.
  destruct p; simpl; try discriminate. intros He [= ->].
  destruct c as [item| |], res as [[]|[x|]]; simpl in *; simplify_eq; auto.
Qed.

Lemma sem_effect_returned (c : call) (p : SemaphoreBuffer.pc) (res : result)
    (a r : list Item) :
  sem_effect c p = Some (a, r) -> bb_returned p = Some res ->
  answers c res /\ a = accepted_by c res /\ r = delivered_by res.
Proof.
  destruct p; simpl; try discriminate. intros He [= ->].
  destruct c as [item| |], res as [[]|[x|]]; simpl in *; simplify_eq; auto.
Qed.

Section Ledger.
Context {B PC : Type} `{!BoundedBuffer B PC}.
Variable effect : call -> PC -> option (list Item * list Item).

Hypothesis step_queue : forall (s : bool) (p : PC) (b : B),
  bb_q (bb_step s p b).2 = bb_q b \/
  (exists x, bb_q (bb_step s p b).2 = bb_q b ++ [x]) \/
  (exists x, bb_q b = x :: bb_q (bb_step s p b).2).
Hypothesis effect_put : forall item, effect (CPut item) (bb_produce item) = Some ([], []).
Hypothesis effect_get : effect CGet bb_consume = Some ([], []).
Hypothesis effect_step : forall c s p b a r,
  effect c p = Some (a, r) ->
  effect c (bb_step s p b).1 =
    Some (a ++ appended_by (bb_q b) (bb_q (bb_step s p b).2),
          r ++ removed_by (bb_q b) (bb_q (bb_step s p b).2)).
Hypothesis effect_returned : forall c p res a r,
  effect c p = Some (a, r) -> bb_returned p = Some res ->
  answers c res /\ a = accepted_by c res /\ r = delivered_by res.

(** What holds of the ledger along a schedule. *)
Record ledger_inv (w0 : world B PC) (sched : list action) : Prop := {
  li_fifo :
    (snd <$> (ledger sched w0).2) ++ bb_q (w_buf (exec sched w0)) =
    bb_q (w_buf w0) ++ (snd <$> (ledger sched w0).1);
  li_pool : length (w_pool (exec sched w0)) = length (calls_of sched);
  li_known :
    Forall (fun e => (e.1 < length (w_pool (exec sched w0)))%nat)
      ((ledger sched w0).1 ++ (ledger sched w0).2);
  li_effect : forall tid p,
    w_pool (exec sched w0) !! tid = Some p ->
    exists c, calls_of sched !! tid = Some c /\
      effect c p = Some (of_thread tid (ledger sched w0).1,
                         of_thread tid (ledger sched w0).2);
}.

Lemma ledger_inv_nil (w0 : world B PC) : w_pool w0 = [] -> ledger_inv w0 [].
Proof.
  intros Hp. constructor; simpl.
  - by rewrite app_nil_r.
  - by rewrite Hp.
  - constructor.
  - intros tid p. rewrite Hp. by rewrite lookup_nil.
Qed.

Lemma ledger_snoc (sched : list action) (a : action) (w0 : world B PC) :
  ledger (sched ++ [a]) w0 =
  ((ledger sched w0).1 ++
     by_thread a (appended_by (bb_q (w_buf (exec sched w0)))
                    (bb_q (w_buf (exec1 (exec sched w0) a)))),
   (ledger sched w0).2 ++
     by_thread a (removed_by (bb_q (w_buf (exec sched w0)))
                    (bb_q (w_buf (exec1 (exec sched w0) a))))).
Proof. rewrite ledger_app. simpl. by rewrite !app_nil_r. Qed.

Lemma by_thread_quiet (a : action) (w : world B PC) :
  w_buf (exec1 w a) = w_buf w ->
  by_thread a (appended_by (bb_q (w_buf w)) (bb_q (w_buf (exec1 w a)))) = [] /\
  by_thread a (removed_by (bb_q (w_buf w)) (bb_q (w_buf (exec1 w a)))) = [].
Proof.
  intros ->. destruct (queue_same (bb_q (w_buf w))) as [-> ->].
  by destruct a.
Qed.

Lemma ledger_inv_snoc (w0 : world B PC) (sched : list action) (a : action) :
  ledger_inv w0 sched -> ledger_inv w0 (sched ++ [a]).
Proof.
  intros [Hfifo Hpool Hknown Heff].
  assert (exec (sched ++ [a]) w0 = exec1 (exec sched w0) a) as Hex
    by (unfold exec; by rewrite foldl_app).
  set (w := exec sched w0) in *.
  assert (forall (l : list (nat * Item)) (n m : nat),
            (n <= m)%nat -> Forall (fun e => (e.1 < n)%nat) l ->
            Forall (fun e => (e.1 < m)%nat) l) as Hmono.
  { intros l n m Hnm Hl. eapply Forall_impl; [exact Hl|]. intros e He. simpl in *. lia. }
  destruct a as [item| | |j].
  - (* a Put is called *)
    destruct (by_thread_quiet (CallProduce item) w eq_refl) as [Ha Hr].
    constructor; rewrite ?Hex, ?ledger_snoc; fold w; simpl; rewrite ?app_nil_r.
    + exact Hfifo.
    + rewrite calls_of_app, !length_app, Hpool. reflexivity.
    + rewrite length_app. simpl. eapply Hmono; [|exact Hknown]. lia.
    + intros tid p Hl. rewrite calls_of_app.
      destruct (decide (tid < length (w_pool w))%nat) as [Hlt|Hge].
      * rewrite lookup_app_l in Hl by exact Hlt.
        rewrite lookup_app_l by (rewrite <- Hpool; exact Hlt). by apply Heff.
      * assert (tid = length (w_pool w)) as ->.
        { apply lookup_lt_Some in Hl. rewrite length_app in Hl. simpl in Hl. lia. }
        rewrite list_lookup_middle in Hl by reflexivity. injection Hl as <-.
        exists (CPut item). split.
        { simpl. apply list_lookup_middle. by rewrite Hpool. }
        apply Forall_app in Hknown as [Hk1 Hk2].
        rewrite (of_thread_fresh _ _ Hk1), (of_thread_fresh _ _ Hk2).
        apply effect_put.
  - (* a Get is called *)
    constructor; rewrite ?Hex, ?ledger_snoc; fold w; simpl; rewrite ?app_nil_r.
    + exact Hfifo.
    + rewrite calls_of_app, !length_app, Hpool. reflexivity.
    + rewrite length_app. simpl. eapply Hmono; [|exact Hknown]. lia.
    + intros tid p Hl. rewrite calls_of_app.
      destruct (decide (tid < length (w_pool w))%nat) as [Hlt|Hge].
      * rewrite lookup_app_l in Hl by exact Hlt.
        rewrite lookup_app_l by (rewrite <- Hpool; exact Hlt). by apply Heff.
      * assert (tid = length (w_pool w)) as ->.
        { apply lookup_lt_Some in Hl. rewrite length_app in Hl. simpl in Hl. lia. }
        rewrite list_lookup_middle in Hl by reflexivity. injection Hl as <-.
        exists CGet. split.
        { simpl. apply list_lookup_middle. by rewrite Hpool. }
        apply Forall_app in Hknown as [Hk1 Hk2].
        rewrite (of_thread_fresh _ _ Hk1), (of_thread_fresh _ _ Hk2).
        apply effect_get.
  - (* the signal is set *)
    constructor; rewrite ?Hex, ?ledger_snoc; fold w; simpl;
      rewrite ?app_nil_r, ?calls_of_app; simpl; rewrite ?app_nil_r; assumption.
  - (* a thread takes a step *)
    destruct (w_pool w !! j) as [p|] eqn:Hj.
    + assert (exec1 w (Run j) =
              World (w_stop w) (bb_step (w_stop w) p (w_buf w)).2
                (<[j := (bb_step (w_stop w) p (w_buf w)).1]> (w_pool w))) as Hstep.
      { simpl. rewrite Hj. by destruct (bb_step (w_stop w) p (w_buf w)). }
      pose proof (exec1_queue step_queue (Run j) w) as Hq.
      assert (j < length (w_pool w))%nat as Hlt by (eapply lookup_lt_Some, Hj).
      remember (exec1 w (Run j)) as w' eqn:Hw'.
      assert (length (w_pool w') = length (w_pool w)) as Hlen
        by (rewrite Hstep; simpl; apply length_insert).
      assert (forall tid, w_pool w' !! tid =
                if decide (tid = j) then Some (bb_step (w_stop w) p (w_buf w)).1
                else w_pool w !! tid) as Hlook.
      { intros tid. rewrite Hstep. simpl. case_decide as Htid.
        - subst tid. by apply list_lookup_insert_eq.
        - by apply list_lookup_insert_ne. }
      clear Hstep.
      constructor; rewrite ?Hex, ?ledger_snoc; fold w; rewrite <- ?Hw', ?calls_of_app;
        simpl calls_of; rewrite ?app_nil_r; cbn [fst snd by_thread].
      * rewrite !fmap_app, !snd_pair.
        rewrite <- app_assoc, Hq, app_assoc, Hfifo, <- app_assoc. reflexivity.
      * rewrite Hlen. exact Hpool.
      * rewrite Hlen. apply Forall_app in Hknown as [Hk1 Hk2].
        rewrite !Forall_app. split_and!; try assumption;
          apply Forall_fmap, Forall_forall; intros x _; exact Hlt.
      * intros tid p'. rewrite Hlook. intros Hl. rewrite !of_thread_app.
        case_decide as Htid.
        -- subst tid. injection Hl as <-.
           destruct (Heff j p Hj) as (c & Hc & He). exists c. split; [exact Hc|].
           rewrite !of_thread_same.
           replace (bb_q (w_buf w')) with (bb_q (bb_step (w_stop w) p (w_buf w)).2)
             by (rewrite Hw'; simpl; rewrite Hj;
                 by destruct (bb_step (w_stop w) p (w_buf w))).
           by apply effect_step.
        -- destruct (Heff tid p' Hl) as (c & Hc & He). exists c. split; [exact Hc|].
           rewrite !of_thread_other, !app_nil_r by congruence. exact He.
    + assert (exec1 w (Run j) = w) as Hstep by (simpl; by rewrite Hj).
      destruct (by_thread_quiet (Run j) w ltac:(by rewrite Hstep)) as [Ha Hr].
      constructor; rewrite ?Hex, ?ledger_snoc; fold w; rewrite ?Ha, ?Hr, ?Hstep,
        ?calls_of_app; simpl; rewrite ?app_nil_r; assumption.
Qed.

Lemma ledger_inv_all (w0 : world B PC) (sched : list action) :
  w_pool w0 = [] -> ledger_inv w0 sched.
Proof.
  intros Hp. induction sched as [|a sched IH] using rev_ind.
  - by apply ledger_inv_nil.
  - by apply ledger_inv_snoc.
Qed.

Lemma fifo_of_effect (w0 : world B PC) (sched : list action) :
  w_pool w0 = [] -> bb_q (w_buf w0) = [] -> fifo_holds w0 sched.
Proof.
  intros Hp Hq. destruct (ledger_inv_all w0 sched Hp) as [Hfifo _ Hknown Heff].
  split; [|split].
  - rewrite Hfifo, Hq. reflexivity.
  - exact Hknown.
  - intros tid p r Hl Hr. destruct (Heff tid p Hl) as (c & Hc & He).
    destruct (effect_returned c p r _ _ He Hr) as (H1 & H2 & H3).
    exists c. split_and!; assumption.
Qed.

End Ledger.

(** C3: in both implementations, however the steps of the calls
    interleave and whenever the stop signal is set, the items removed
    from the queue, in the order of their removal, followed by what is
    left in the queue, are the items appended in the order of their
    appending; a Put that has returned [True] appended its item exactly
    once, a Put that has returned [False] appended nothing, a Get that
    has returned an item removed that item and nothing else, and a Get
    that has returned [None] removed nothing.  So the items the Gets
    hand out are the items of the accepted Puts, in the order of their
    appending, none of them twice and none of them lost. *)
Theorem fifo_order (cap : Z) (sb0 : SemaphoreBuffer.t)
    (stop : bool) (sched : list action) :
  SemaphoreBuffer.init cap = Some sb0 ->
  fifo_holds (monitor_world stop cap) sched /\
  fifo_holds (semaphore_world stop sb0) sched.
Proof.
  intros Hinit. split.
  - apply (fifo_of_effect mon_effect mon_step_queue); try reflexivity.
    + intros item. simpl. by rewrite String.eqb_refl.
    + apply mon_effect_step.
    + apply mon_effect_returned.
  - apply (fifo_of_effect sem_effect sem_step_queue); try reflexivity.
    + intros item. simpl. by rewrite String.eqb_refl.
    + apply sem_effect_step.
    + apply sem_effect_returned.
    + unfold SemaphoreBuffer.init, Semaphore.init in Hinit.
      repeat case_bool_decide; simplify_eq/=. reflexivity.
Qed.

Lemma fifo_order_witness :
  fifo_holds (monitor_world false 2) overlapping_calls /\
  fifo_holds (semaphore_world false (SemaphoreBuffer.mk 2 [] 2 0 1)) overlapping_calls.
Proof.
  apply (fifo_order 2 (SemaphoreBuffer.mk 2 [] 2 0 1) false overlapping_calls).
  reflexivity.
Defined.

(** ** The consumer that has passed both acquires *)
Section SemaphorePop.
Import SemaphoreBuffer.

Lemma runs_of_app (tid : nat) (s1 s2 : list action) :
  runs_of tid (s1 ++ s2) = (runs_of tid s1 + runs_of tid s2)%nat.
Proof.
  induction s1 as [|a s1 IH]; [reflexivity|].
  destruct a; simpl; rewrite IH; lia.
Qed.

(** Only a call inside the critical section changes the queue. *)
Lemma sem_step_outside (s : bool) (p : pc) (b : t) :
  Permits.critical p = 0 -> q (step s p b).2 = q b.
Proof.
  destruct p; simpl; try discriminate; intros _; repeat case_match; reflexivity.
Qed.

Lemma popping_step (x : Item) (n : nat) (s : bool) (p : pc) (b : t) :
  popping x n p b -> popping x (S n) (step s p b).1 (step s p b).2.
Proof.
  destruct p as [i|i|i|i| |i| | | | | | | | |[y|]|[y|]|[[]|[y|]]]; simpl; try tauto.
  - intros [-> Hh]. destruct (q b) as [|y rest]; simplify_eq/=. auto.
  - intros [-> ->]. auto.
  - intros [-> ->]. auto.
  - intros [Hn ->]. split; [lia | reflexivity].
Qed.

Lemma popping_exec1 (x : Item) (n : nat) (tid : nat) (p : pc) (a : action)
    (w : world t pc) :
  sem_inv w ->
  w_pool w !! tid = Some p ->
  popping x n p (w_buf w) ->
  exists p', w_pool (exec1 w a) !! tid = Some p' /\
             popping x (n + runs_of tid [a]) p' (w_buf (exec1 w a)).
Proof.
  intros [_ _ Hm _ _ Hcr _] Hl Hp. destruct a as [item| | |j]; simpl.
  - exists p. rewrite lookup_app_l by (eapply lookup_lt_Some, Hl).
    by rewrite Nat.add_0_r.
  - exists p. rewrite lookup_app_l by (eapply lookup_lt_Some, Hl).
    by rewrite Nat.add_0_r.
  - exists p. by rewrite Nat.add_0_r.
  - destruct (w_pool w !! j) as [pj|] eqn:Hj.
    + destruct (decide (j = tid)) as [->|Hne].
      * rewrite Hl in Hj. injection Hj as <-. rewrite Nat.eqb_refl.
        pose proof (popping_step x n (w_stop w) p (w_buf w) Hp) as Hs.
        destruct (step (w_stop w) p (w_buf w)) as [p' b']. simpl in *.
        exists p'. rewrite list_lookup_insert_eq by (eapply lookup_lt_Some, Hl).
        replace (n + 1)%nat with (S n) by lia. auto.
      * destruct (Nat.eqb_spec j tid) as [|_]; [contradiction|].
        rewrite Nat.add_0_r.
        pose proof (sem_step_outside (w_stop w) pj (w_buf w)) as Hq.
        destruct (step (w_stop w) pj (w_buf w)) as [p' b']. simpl in *.
        exists p. rewrite list_lookup_insert_ne by exact Hne. split; [exact Hl|].
        destruct p as [i|i|i|i| |i| | | | | | | | |[y|]|[y|]|[[]|[y|]]];
          simpl in *; try tauto.
        rewrite Hq; [exact Hp|].
        pose proof (total_lookup2_le Permits.critical _ j tid pj C_pop
                      critical_nonneg Hne Hj Hl) as Hle.
        pose proof (critical_nonneg pj). simpl in Hle. lia.
    + exists p. destruct (Nat.eqb_spec j tid) as [->|_]; [congruence|].
      by rewrite Nat.add_0_r.
Qed.

Lemma popping_exec (x : Item) (tid : nat) (later : list action) :
  forall (n : nat) (p : pc) (w : world t pc),
  sem_inv w ->
  w_pool w !! tid = Some p ->
  popping x n p (w_buf w) ->
  exists p', w_pool (exec later w) !! tid = Some p' /\
             popping x (n + runs_of tid later) p' (w_buf (exec later w)).
Proof.
  induction later as [|a later IH]; intros n p w Hinv Hl Hp.
  - exists p. by rewrite Nat.add_0_r.
  - change (exec (a :: later) w) with (exec later (exec1 w a)).
    destruct (popping_exec1 x n tid p a w Hinv Hl Hp) as (p1 & Hl1 & Hp1).
    destruct (IH _ p1 (exec1 w a) (proj1 (sem_inv_exec1 a w Hinv)) Hl1 Hp1)
      as (p' & Hl' & Hp').
    exists p'. split; [exact Hl'|].
    change (a :: later) with ([a] ++ later). rewrite runs_of_app.
    by rewrite Nat.add_assoc.
Qed.

Lemma popping_returned (x : Item) (n : nat) (p : pc) (b : t) :
  popping x n p b ->
  (forall r, returned p = Some r -> r = RItem (Some x)) /\
  ((3 <= n)%nat -> returned p = Some (RItem (Some x))).
Proof.
  destruct p as [i|i|i|i| |i| | | | | | | | |[y|]|[y|]|[[]|[y|]]]; simpl; try tauto;
    intros [Hn He]; subst; split; try (intros; lia); try discriminate.
  - intros r [= <-]. reflexivity.
  - reflexivity.
Qed.

(** A consumer gives up only under a set signal. *)
Lemma gave_up_exec1 (a : action) (w : world t pc) :
  sem_inv w ->
  Forall (fun p => gave_up p = true -> w_stop w = true) (w_pool w) ->
  Forall (fun p => gave_up p = true -> w_stop (exec1 w a) = true)
    (w_pool (exec1 w a)).
Proof.
  intros [_ _ _ _ _ _ Hn] Hg. destruct a as [item| | |j]; simpl.
  - apply Forall_app. split; [exact Hg|]. repeat constructor. discriminate.
  - apply Forall_app. split; [exact Hg|]. repeat constructor. discriminate.
  - eapply Forall_impl; [exact Hg|]. auto.
  - destruct (w_pool w !! j) as [p|] eqn:Hj; [|exact Hg].
    pose proof (Forall_lookup_1 _ _ _ _ Hg Hj) as Hp.
    pose proof (Forall_lookup_1 _ _ _ _ Hn Hj) as Hpn.
    assert (gave_up (step (w_stop w) p (w_buf w)).1 = true -> w_stop w = true) as Hs.
    { destruct p as [i|i|i|i| |i| | | | | | | | |[y|]|[y|]|r]; simpl in *;
        try discriminate; repeat case_match; simpl; try discriminate; auto. }
    destruct (step (w_stop w) p (w_buf w)) as [p' b']. simpl in *.
    apply Forall_insert; assumption.
Qed.

Lemma gave_up_exec (sched : list action) (w : world t pc) :
  sem_inv w ->
  Forall (fun p => gave_up p = true -> w_stop w = true) (w_pool w) ->
  Forall (fun p => gave_up p = true -> w_stop (exec sched w) = true)
    (w_pool (exec sched w)).
Proof.
  revert w. induction sched as [|a sched IH]; intros w Hinv Hg; [exact Hg|].
  change (exec (a :: sched) w) with (exec sched (exec1 w a)).
  apply IH; [exact (proj1 (sem_inv_exec1 a w Hinv)) | by apply gave_up_exec1].
Qed.

End SemaphorePop.

(** C10: under every interleaving, a consumer that holds a [full]
    permit and has not popped yet finds the queue non-empty, so no
    consumer leaves the critical section carrying [None].  A consumer
    that stands at its pop finds an item [x] at the head of the queue;
    whatever the other threads do from then on, after three steps of
    its own it has returned, and what it returns is [x].  A [consume]
    returns [None] only when the stop signal has been set. *)
Theorem consume_pops_an_item (cap : Z) (sb0 : SemaphoreBuffer.t)
    (stop : bool) (sched : list action) (tid : nat) (p : SemaphoreBuffer.pc) :
  SemaphoreBuffer.init cap = Some sb0 ->
  w_pool (exec sched (semaphore_world stop sb0)) !! tid = Some p ->
  (Permits.claimed p = 1 ->
   SemaphoreBuffer.q (w_buf (exec sched (semaphore_world stop sb0))) <> []) /\
  Permits.popped_nothing p = false /\
  (bb_returned p = Some (RItem None) ->
   w_stop (exec sched (semaphore_world stop sb0)) = true) /\
  (p = SemaphoreBuffer.C_pop ->
   exists x,
     head (SemaphoreBuffer.q (w_buf (exec sched (semaphore_world stop sb0)))) = Some x /\
     forall later, exists p',
       w_pool (exec later (exec sched (semaphore_world stop sb0))) !! tid = Some p' /\
       (forall r, bb_returned p' = Some r -> r = RItem (Some x)) /\
       ((3 <= runs_of tid later)%nat -> bb_returned p' = Some (RItem (Some x)))).
Proof.
  intros Hinit Hl.
  destruct (sem_inv_fresh cap sb0 stop Hinit) as [H0 Hc].
  pose proof (proj1 (sem_inv_exec sched _ H0)) as Hinv.
  pose proof Hinv as [He Hf Hm Hp Hi Hcr Hn].
  fold (semaphore_world stop sb0) in *.
  pose proof (total_lookup_le Permits.claimed _ _ _ claimed_nonneg Hl) as Hcl.
  assert (Permits.claimed p = 1 ->
          SemaphoreBuffer.q (w_buf (exec sched (semaphore_world stop sb0))) <> []) as Hne.
  { intros H1 Hq. rewrite Hq in Hi. simpl in Hi. lia. }
  split; [exact Hne|]. split; [|split].
  - eapply Forall_lookup_1 in Hn; eauto.
  - intros Hr.
    pose proof (gave_up_exec sched (semaphore_world stop sb0) H0
                  ltac:(apply Forall_nil_2)) as Hg.
    apply (Forall_lookup_1 _ _ _ _ Hg Hl).
    destruct p; simpl in Hr; try discriminate. injection Hr as ->. reflexivity.
  - intros ->. specialize (Hne eq_refl).
    destruct (SemaphoreBuffer.q (w_buf (exec sched (semaphore_world stop sb0))))
      as [|x rest] eqn:Hq; [congruence|].
    exists x. split; [reflexivity|]. intros later.
    destruct (popping_exec x tid later 0 SemaphoreBuffer.C_pop _ Hinv Hl)
      as (p' & Hl' & Hp').
    { simpl. rewrite Hq. auto. }
    exists p'. split; [exact Hl'|]. exact (popping_returned x _ p' _ Hp').
Qed.

Lemma consume_pops_an_item_witness :
  let w := exec
     [CallProduce "A1"; Run 0; Run 0; Run 0; Run 0; Run 0; Run 0; Run 0;
      CallConsume; Run 1; Run 1; Run 1; Run 1]
     (semaphore_world false (SemaphoreBuffer.mk 2 [] 2 0 1)) in
  (Permits.claimed SemaphoreBuffer.C_pop = 1 -> SemaphoreBuffer.q (w_buf w) <> []) /\
  Permits.popped_nothing SemaphoreBuffer.C_pop = false /\
  (bb_returned SemaphoreBuffer.C_pop = Some (RItem None) -> w_stop w = true) /\
  (SemaphoreBuffer.C_pop = SemaphoreBuffer.C_pop ->
   exists x,
     head (SemaphoreBuffer.q (w_buf w)) = Some x /\
     forall later, exists p',
       w_pool (exec later w) !! 1%nat = Some p' /\
       (forall r, bb_returned p' = Some r -> r = RItem (Some x)) /\
       ((3 <= runs_of 1 later)%nat -> bb_returned p' = Some (RItem (Some x)))).
Proof.
  apply (consume_pops_an_item 2 (SemaphoreBuffer.mk 2 [] 2 0 1) false _ 1%nat).
  - reflexivity.
  - reflexivity.
Defined.

(** * The worker threads, statement by statement *)

Lemma along_cons (P : Threads.t -> bool) (e : Session.event)
    (evs : list Session.event) (st st' : Threads.t) :
  Threads.along P (e :: evs) st = true ->
  Threads.handle e st = Some st' ->
  P st = true /\ Threads.along P evs st' = true.
Proof.
  simpl. intros H He. rewrite He in H. by apply andb_prop in H.
Qed.

Lemma occupancy_set_buffer (m : FullSimulatorC.buffer) (s : FullSimulatorC.t) :
  FullSimulatorC.occupancy (FullSimulatorC.set_buffer m s) =
  Z.of_nat (length (FullSimulatorC.buffer_q m)).
Proof. reflexivity. Qed.

(** ** The counters *)

(** What one statement of a worker outside the buffer does to the
    counters, the buffer and the worker's own debt. *)
Lemma statement_balance (now : Z) (wk wk' : Threads.worker) (g g' : Session.t) :
  Threads.statement now wk g = Some (wk', g') ->
  fresh_read (Session.sim g) wk = true ->
  FullSimulatorC.produced_count (Session.sim g') -
    FullSimulatorC.consumed_count (Session.sim g') -
    FullSimulatorC.occupancy (Session.sim g') +
    owed Session.Producer wk' - owed Session.Consumer wk' =
  FullSimulatorC.produced_count (Session.sim g) -
    FullSimulatorC.consumed_count (Session.sim g) -
    FullSimulatorC.occupancy (Session.sim g) +
    owed Session.Producer wk - owed Session.Consumer wk.
Proof.
  unfold Threads.statement, fresh_read, owed.
  destruct (Threads.w_pc wk) as [s [| |]| | | |on| |v| |v| | | | |] eqn:Hpc.
  - destruct (Session.thread_states g); [|discriminate]. simpl.
    intros [= <- <-] _. reflexivity.
  - intros [= <- <-] _. reflexivity.
  - intros [= <- <-] _. destruct s; simpl; try reflexivity.
    destruct (Threads.w_role wk); reflexivity.
  - destruct (FullSimulatorC.stop_event (Session.sim g)); intros [= <- <-] _; reflexivity.
  - intros [= <- <-] _. reflexivity.
  - destruct (FullSimulatorC.buffer_model (Session.sim g)); [|discriminate]. simpl.
    intros [= <- <-] _. reflexivity.
  - discriminate.
  - intros [= <- <-] _. simpl. reflexivity.
  - intros [= <- <-] Hv. apply Z.eqb_eq in Hv. subst v.
    destruct (Threads.w_role wk); simpl; unfold FullSimulatorC.occupancy; simpl; lia.
  - intros [= <- <-] _. reflexivity.
  - intros [= <- <-] _. reflexivity.
  - destruct (Threads.w_role wk); [intros [= <- <-] _; reflexivity|].
    destruct (Threads.w_item wk); [|discriminate]. intros [= <- <-] _. reflexivity.
  - intros [= <- <-] _. reflexivity.
  - intros [= <- <-] _. reflexivity.
  - intros [= <- <-] _. simpl.
    destruct (check_finished_proj g) as (_ & _ & _ & ->). reflexivity.
  - discriminate.
Qed.

(** What a call does to the buffer it is bound to: a Put that is
    accepted makes it one longer, a Get that hands out an item one
    shorter, and the worker then owes the increment of its counter. *)
Lemma inside_balance (stops : list bool) (on : option nat) (wk wk' : Threads.worker)
    (g g' : Session.t) (old old' : list FullSimulatorC.buffer) :
  Threads.inside_step stops on wk g old = Some (wk', (g', old')) ->
  Threads.w_pc wk = Threads.T_inside on ->
  FullSimulatorC.produced_count (Session.sim g') = FullSimulatorC.produced_count (Session.sim g) /\
  FullSimulatorC.consumed_count (Session.sim g') = FullSimulatorC.consumed_count (Session.sim g) /\
  FullSimulatorC.occupancy (Session.sim g') + total held_by old' -
    owed Session.Producer wk' + owed Session.Consumer wk' =
  FullSimulatorC.occupancy (Session.sim g) + total held_by old -
    owed Session.Producer wk + owed Session.Consumer wk.
Proof.
  unfold Threads.inside_step, owed. intros H Hpc. rewrite Hpc.
  assert (forall (o : op) (m m' : FullSimulatorC.buffer) (r : result),
            FullSimulatorC.call o m = (Some r, m') ->
            Z.of_nat (length (delivered (o, Some r))) + held_by m' =
            held_by m + Z.of_nat (length (accepted (o, Some r)))) as Hcall.
  { intros o m m' r Hc. pose proof (call_effect o m r) as He. rewrite Hc in He.
    specialize (He eq_refl). apply (f_equal length) in He.
    rewrite !length_app in He. unfold held_by. simpl in He |- *. lia. }
  destruct on as [i|].
  - destruct (old !! i) as [m|] eqn:Hm; [|discriminate]. simpl in H.
    destruct (Threads.w_role wk) eqn:Hrole.
    + destruct (FullSimulatorC.call (Put (Threads.label wk) stops) m) as [r m'] eqn:Hc.
      destruct r as [[[]|]|]; try discriminate; injection H as <- <- <-;
        apply Hcall in Hc; simpl in Hc; split_and!; try reflexivity;
        simpl; rewrite ?Hrole, (total_insert _ _ _ _ _ Hm); simpl; lia.
    + destruct (FullSimulatorC.call (Get stops) m) as [r m'] eqn:Hc.
      destruct r as [[|[x|]]|]; try discriminate; injection H as <- <- <-;
        apply Hcall in Hc; simpl in Hc; split_and!; try reflexivity;
        simpl; rewrite ?Hrole, (total_insert _ _ _ _ _ Hm); simpl; lia.
  - destruct (FullSimulatorC.buffer_model (Session.sim g)) as [m|] eqn:Hm;
      [|discriminate]. simpl in H.
    assert (FullSimulatorC.occupancy (Session.sim g) = held_by m) as Hocc
      by (unfold FullSimulatorC.occupancy; by rewrite Hm).
    destruct (Threads.w_role wk) eqn:Hrole.
    + destruct (FullSimulatorC.call (Put (Threads.label wk) stops) m) as [r m'] eqn:Hc.
      destruct r as [[[]|]|]; try discriminate; injection H as <- <- <-;
        apply Hcall in Hc; simpl in Hc; split_and!; try reflexivity;
        simpl; rewrite ?Hrole, Hocc, occupancy_set_buffer; fold (held_by m'); simpl; lia.
    + destruct (FullSimulatorC.call (Get stops) m) as [r m'] eqn:Hc.
      destruct r as [[|[x|]]|]; try discriminate; injection H as <- <- <-;
        apply Hcall in Hc; simpl in Hc; split_and!; try reflexivity;
        simpl; rewrite ?Hrole, Hocc, occupancy_set_buffer; fold (held_by m'); simpl; lia.
Qed.

Lemma worker_step_balance (now : Z) (stops : list bool) (wk wk' : Threads.worker)
    (g g' : Session.t) (old old' : list FullSimulatorC.buffer) :
  Threads.worker_step now stops wk g old = Some (wk', (g', old')) ->
  fresh_read (Session.sim g) wk = true ->
  FullSimulatorC.produced_count (Session.sim g') -
    FullSimulatorC.consumed_count (Session.sim g') -
    (FullSimulatorC.occupancy (Session.sim g') + total held_by old') +
    owed Session.Producer wk' - owed Session.Consumer wk' =
  FullSimulatorC.produced_count (Session.sim g) -
    FullSimulatorC.consumed_count (Session.sim g) -
    (FullSimulatorC.occupancy (Session.sim g) + total held_by old) +
    owed Session.Producer wk - owed Session.Consumer wk.
Proof.
  unfold Threads.worker_step. intros H Hf.
  destruct (Threads.w_pc wk) as [s k| | | |on| |v| |v| | | | |] eqn:Hpc;
    try (destruct (Threads.statement now wk g) as [[wk1 g1]|] eqn:Hs; [|discriminate];
         simpl in H; injection H as <- <- <-;
         pose proof (statement_balance _ _ _ _ _ Hs Hf); lia).
  destruct (inside_balance _ _ _ _ _ _ _ _ H Hpc) as (Hp & Hq & Hb). lia.
Qed.

Lemma fresh_reads_lookup (st : Threads.t) (idx : nat) (wk : Threads.worker) :
  fresh_reads st = true -> Threads.workers st !! idx = Some wk ->
  fresh_read (Threads.sim st) wk = true.
Proof.
  unfold fresh_reads. rewrite forallb_forall. intros H Hl. apply H.
  apply list_elem_of_In, list_elem_of_lookup. eauto.
Qed.

Lemma step_worker_balance (mv : Session.move) (st st' : Threads.t) :
  Threads.step_worker mv st = Some st' ->
  fresh_reads st = true ->
  balance st' = balance st.
Proof.
  destruct mv as [[idx now] stops]. unfold Threads.step_worker. simpl.
  destruct (Threads.workers st !! idx) as [wk|] eqn:Hl; [|discriminate]. simpl.
  destruct (Threads.worker_step now stops wk (Threads.gui st) (Threads.retired st))
    as [[wk' [g' old']]|] eqn:Hs; [|discriminate]. simpl. intros [= <-] Hf.
  pose proof (worker_step_balance _ _ _ _ _ _ _ _ Hs (fresh_reads_lookup _ _ _ Hf Hl)) as Hb.
  unfold balance, stored, Threads.sim in *. simpl.
  rewrite !(total_insert _ _ _ _ _ Hl). lia.
Qed.

Lemma stop_sim (g : Session.t) :
  FullSimulatorC.produced_count (Session.sim (Session.stop g)) =
    FullSimulatorC.produced_count (Session.sim g) /\
  FullSimulatorC.consumed_count (Session.sim (Session.stop g)) =
    FullSimulatorC.consumed_count (Session.sim g) /\
  FullSimulatorC.buffer_model (Session.sim (Session.stop g)) =
    FullSimulatorC.buffer_model (Session.sim g).
Proof.
  unfold Session.stop.
  destruct (FullSimulatorC.running (Session.sim g)) eqn:Hr; [|auto].
  match goal with
  | |- context [Session.check_finished ?x] =>
      destruct (check_finished_proj x) as (_ & _ & _ & ->)
  end.
  simpl. unfold FullSimulatorC.stop. rewrite Hr. auto.
Qed.

Lemma total_fmap_zero {A PC} (f : PC -> Z) (g : A -> PC) (l : list A) :
  (forall x, f (g x) = 0) -> total f (g <$> l) = 0.
Proof.
  intros H. induction l as [|x l IH]; [reflexivity|].
  change (f (g x) + total f (g <$> l) = 0). rewrite H, IH. reflexivity.
Qed.

Lemma total_fmap_same {PC} (f : PC -> Z) (g : PC -> PC) (l : list PC) :
  (forall x, f (g x) = f x) -> total f (g <$> l) = total f l.
Proof.
  intros H. induction l as [|x l IH]; [reflexivity|].
  change (f (g x) + total f (g <$> l) = f x + total f l). rewrite H, IH. reflexivity.
Qed.

Lemma owed_retire (r : Session.role) (n : nat) (wk : Threads.worker) :
  owed r (Threads.retire n wk) = owed r wk.
Proof.
  unfold Threads.retire, owed.
  destruct (Threads.w_pc wk) as [s k| | | |[i|]| |v| |v| | | | |] eqn:Hpc;
    simpl; rewrite ?Hpc; reflexivity.
Qed.

Lemma new_buffer_empty (mode : string) (cap : Z) (m : FullSimulatorC.buffer) :
  FullSimulatorC.new_buffer mode cap = Some m -> FullSimulatorC.buffer_q m = [].
Proof.
  unfold FullSimulatorC.new_buffer, SemaphoreBuffer.init, Semaphore.init.
  destruct (String.eqb mode "Monitor"); [by intros [= <-]|].
  repeat case_bool_decide; simpl; intros; simplify_eq/=; reflexivity.
Qed.

(** [start] keeps the items of the old buffer in store: the counters
    stay, the old buffer is retired with what it holds, and the new one
    is empty. *)
Lemma start_keeps_balance (mode : string) (p c : Z) (st : Threads.t) :
  balance (Threads.start mode p c st) = balance st.
Proof.
  unfold Threads.start.
  destruct (FullSimulatorC.running (Threads.sim st)) eqn:Hr; [reflexivity|].
  destruct (FullSimulatorC.new_buffer mode (FullSimulatorC.capacity (Threads.sim st)))
    as [m|] eqn:Hm.
  - unfold balance, stored, Threads.sim in *. simpl.
    unfold FullSimulatorC.start. rewrite Hr. simpl.
    rewrite !total_app.
    rewrite !(total_fmap_same _ (Threads.retire _)) by (intros; apply owed_retire).
    rewrite !total_fmap_zero by reflexivity.
    rewrite Hm. unfold FullSimulatorC.occupancy. simpl.
    rewrite (new_buffer_empty _ _ _ Hm). simpl.
    destruct (FullSimulatorC.buffer_model (Session.sim (Threads.gui st))); simpl;
      unfold held_by; lia.
  - unfold balance, stored, Threads.sim in *. simpl.
    unfold FullSimulatorC.start. rewrite Hr. simpl.
    unfold FullSimulatorC.occupancy in *. simpl. rewrite Hm. reflexivity.
Qed.

Lemma handle_balance (e : Session.event) (st st' : Threads.t) :
  no_reset e = true ->
  Threads.handle e st = Some st' ->
  fresh_reads st = true ->
  balance st' = balance st.
Proof.
  destruct e as [mode p c| |during| |idx now stops]; simpl; try discriminate; intros _.
  - intros [= <-] _. apply start_keeps_balance.
  - intros [= <-] _. unfold balance, stored, Threads.sim, FullSimulatorC.occupancy. simpl.
    destruct (stop_sim (Threads.gui st)) as (-> & -> & ->). reflexivity.
  - destruct (Session.process_gui_queue (Threads.gui st)) as [g|] eqn:Hp; [|discriminate].
    simpl. intros [= <-] _.
    destruct (process_frame _ _ _ Hp) as (_ & _ & _ & _ & Hsim).
    unfold balance, stored, Threads.sim. simpl. rewrite Hsim. reflexivity.
  - apply step_worker_balance.
Qed.

Lemma run_balance (evs : list Session.event) (st st' : Threads.t) :
  forallb no_reset evs = true ->
  Threads.along fresh_reads evs st = true ->
  Threads.run evs st = Some st' ->
  balance st' = balance st.
Proof.
  revert st. induction evs as [|e evs IH]; intros st Hc Ha; simpl.
  - intros [= <-]. reflexivity.
  - simpl in Hc. apply andb_prop in Hc as [He Hc].
    destruct (Threads.handle e st) as [st1|] eqn:E; [|discriminate]. simpl. intros Hr.
    destruct (along_cons _ _ _ _ _ Ha E) as [Hf Ha1].
    rewrite (IH st1 Hc Ha1 Hr). by apply (handle_balance e).
Qed.

Lemma calm_no_reset (evs : list Session.event) :
  forallb calm evs = true -> forallb no_reset evs = true.
Proof.
  induction evs as [|e evs IH]; [reflexivity|]. simpl.
  intros H. apply andb_prop in H as [He H]. rewrite (IH H).
  by destruct e.
Qed.

(** ** The buffers of earlier sessions *)

(** Without Start no buffer is retired. *)
Lemma worker_step_retired (now : Z) (stops : list bool) (wk wk' : Threads.worker)
    (g g' : Session.t) (old old' : list FullSimulatorC.buffer) :
  Threads.worker_step now stops wk g old = Some (wk', (g', old')) ->
  length old' = length old.
Proof.
  unfold Threads.worker_step, Threads.inside_step.
  destruct (Threads.w_pc wk) as [s k| | | |[i|]| |v| |v| | | | |];
    try (destruct (Threads.statement now wk g) as [[wk1 g1]|]; [|discriminate];
         simpl; by intros [= _ _ <-]).
  - destruct (old !! i) as [m|]; [|discriminate]. simpl.
    repeat case_match; try discriminate; intros [= _ _ <-]; apply length_insert.
  - destruct (FullSimulatorC.buffer_model (Session.sim g)) as [m|]; [|discriminate]. simpl.
    repeat case_match; try discriminate; by intros [= _ _ <-].
Qed.

Lemma handle_retired (e : Session.event) (st st' : Threads.t) :
  calm e = true ->
  Threads.handle e st = Some st' ->
  length (Threads.retired st') = length (Threads.retired st).
Proof.
  destruct e as [mode p c| |during| |idx now stops]; simpl; try discriminate; intros _.
  - by intros [= <-].
  - destruct (Session.process_gui_queue (Threads.gui st)); [|discriminate].
    simpl. by intros [= <-].
  - unfold Threads.step_worker. simpl.
    destruct (Threads.workers st !! idx) as [wk|]; [|discriminate]. simpl.
    destruct (Threads.worker_step now stops wk (Threads.gui st) (Threads.retired st))
      as [[wk' [g' old']]|] eqn:Hs; [|discriminate]. simpl. intros [= <-]. simpl.
    exact (worker_step_retired _ _ _ _ _ _ _ _ Hs).
Qed.

Lemma run_retired (evs : list Session.event) (st st' : Threads.t) :
  forallb calm evs = true ->
  Threads.run evs st = Some st' ->
  length (Threads.retired st') = length (Threads.retired st).
Proof.
  revert st. induction evs as [|e evs IH]; intros st Hc; simpl.
  - by intros [= <-].
  - simpl in Hc. apply andb_prop in Hc as [He Hc].
    destruct (Threads.handle e st) as [st1|] eqn:E; [|discriminate]. simpl. intros Hr.
    rewrite (IH st1 Hc Hr). by apply (handle_retired e).
Qed.

Lemma first_session_retired (mode : string) (p c : Z) :
  Threads.retired (Threads.start mode p c Threads.init) = [].
Proof.
  unfold Threads.start. simpl.
  destruct (new_buffer_five mode) as (m & Hm & Hq). by rewrite Hm.
Qed.

(** C8 as stated fails: [start] builds a new, empty buffer and keeps
    the counters.  A producer puts one item and counts it, Stop is
    pressed and the producer runs to its end; the session Start then
    opens begins with produced - consumed = 1, an empty buffer and no
    call in flight. *)
Lemma restart_keeps_counters_counterexample :
  exists st,
    Threads.run restart_history Threads.init = Some st /\
    FullSimulatorC.running (Threads.sim st) = true /\
    Threads.w_pc <$> Threads.workers st =
      [Threads.T_done; Threads.T_change Threads.Enter Threads.Table] /\
    FullSimulatorC.produced_count (Threads.sim st) -
      FullSimulatorC.consumed_count (Threads.sim st) = 1 /\
    FullSimulatorC.occupancy (Threads.sim st) = 0.
Proof.
  assert (exists st, Threads.run restart_history Threads.init = Some st) as [st Hst]
    by (vm_compute; eauto).
  exists st. split; [exact Hst|]. revert Hst. vm_compute. intros [= <-].
  repeat split.
Qed.

(** C8, amended: the call of a worker changes the length of the buffer
    it is bound to by one exactly when it is accepted or hands out an
    item, and the worker then owes one increment of its counter, which
    it reads and writes back in the two steps of line 406 or 432.  So
    over any history without Start and without Reset in which no
    increment writes back a stale value, produced - consumed - items
    stored changes only by the increments owed: corrected by them it
    keeps its value.  In the first session the buffer of the session
    is the only one and that value is 0, so there produced - consumed -
    buffer length is the number of consumers owing an increment minus
    the number of producers owing one, and 0 whenever no worker stands
    between the effect of its call and the write of its counter. *)
Theorem counters_track_occupancy (evs : list Session.event) (st0 st : Threads.t) :
  forallb calm evs = true ->
  Threads.along fresh_reads evs st0 = true ->
  Threads.run evs st0 = Some st ->
  balance st = balance st0 /\
  (forall mode p c, st0 = Threads.start mode p c Threads.init ->
     FullSimulatorC.produced_count (Threads.sim st) -
       FullSimulatorC.consumed_count (Threads.sim st) -
       FullSimulatorC.occupancy (Threads.sim st) =
     total (owed Session.Consumer) (Threads.workers st) -
       total (owed Session.Producer) (Threads.workers st)).
Proof.
  intros Hc Ha Hr.
  pose proof (run_balance evs st0 st (calm_no_reset _ Hc) Ha Hr) as Hb.
  split; [exact Hb|]. intros mode p c ->.
  pose proof (run_retired _ _ _ Hc Hr) as Hlen.
  rewrite first_session_retired in Hlen.
  destruct (Threads.retired st) as [|m old] eqn:Hret; [|discriminate].
  rewrite start_keeps_balance in Hb. change (balance Threads.init) with 0 in Hb.
  unfold balance, stored in Hb. rewrite Hret in Hb. simpl in Hb. lia.
Qed.

Lemma counters_track_occupancy_witness :
  let st0 := Threads.start "Semaphore" 1 1 Threads.init in
  let st := threads_after (alternating_history 12) st0 in
  balance st = balance st0 /\
  (forall mode p c, st0 = Threads.start mode p c Threads.init ->
     FullSimulatorC.produced_count (Threads.sim st) -
       FullSimulatorC.consumed_count (Threads.sim st) -
       FullSimulatorC.occupancy (Threads.sim st) =
     total (owed Session.Consumer) (Threads.workers st) -
       total (owed Session.Producer) (Threads.workers st)).
Proof.
  intros st0 st.
  apply (counters_track_occupancy (alternating_history 12) st0 st).
  - reflexivity.
  - vm_compute. reflexivity.
  - vm_compute. reflexivity.
Defined.

(** An increment that writes back a stale value loses a count: two
    producers read the counter before either writes, and two accepted
    items are counted as one. *)
Example overlapping_increments_lose_a_count :
  let evs :=
    ((fun n => Session.EvStep 0 (Z.of_nat n) (replicate 7 false)) <$> seq 0 11) ++
    ((fun n => Session.EvStep 1 (Z.of_nat n) (replicate 7 false)) <$> seq 0 12) ++
    [Session.EvStep 0 11 []] in
  let st := threads_after evs (Threads.start "Monitor" 2 0 Threads.init) in
  Threads.along fresh_reads evs (Threads.start "Monitor" 2 0 Threads.init) = false /\
  FullSimulatorC.produced_count (Threads.sim st) = 1 /\
  FullSimulatorC.occupancy (Threads.sim st) = 2 /\
  total (owed Session.Producer) (Threads.workers st) = 0.
Proof. vm_compute. repeat split. Qed.

(** A call entered before Stop and Start goes on with the buffer of
    the session it was entered in: the consumer of the first session,
    still inside its call when the second session opens, is handed the
    item the producer of the first session then puts. *)
Example call_stays_with_its_buffer :
  let st := threads_after late_call_history Threads.init in
  Threads.w_pc <$> Threads.workers st =
    [Threads.T_count_read; Threads.T_count_read;
     Threads.T_change Threads.Enter Threads.Table;
     Threads.T_change Threads.Enter Threads.Table] /\
  Threads.w_item <$> Threads.workers st = [None; Some "P1-1"; None; None] /\
  FullSimulatorC.buffer_q <$> Threads.retired st = [[]] /\
  FullSimulatorC.occupancy (Threads.sim st) = 0 /\
  Threads.along fresh_reads late_call_history Threads.init = true.
Proof. vm_compute. repeat split. Qed.

(** ** The counters over several sessions *)

Lemma occupancy_nonneg (s : FullSimulatorC.t) : 0 <= FullSimulatorC.occupancy s.
Proof. unfold FullSimulatorC.occupancy. destruct (FullSimulatorC.buffer_model s); lia. Qed.

Lemma owed_nonneg (r : Session.role) (wk : Threads.worker) : 0 <= owed r wk.
Proof. unfold owed. repeat case_match; lia. Qed.

Lemma held_by_nonneg (m : FullSimulatorC.buffer) : 0 <= held_by m.
Proof. unfold held_by. lia. Qed.

(** X10: as long as Reset is not pressed and no increment writes back a
    stale value, over any number of sessions and in either mode, the
    produced counter plus the increments the producers owe is the
    consumed counter plus the increments the consumers owe plus the
    items stored in the buffers of this and the earlier sessions.  So
    the consumed counter plus the length of the buffer plus the
    increments the consumers owe is at most the produced counter plus
    the increments the producers owe, and whenever no producer stands
    between the effect of its Put and the write of its counter, the
    simulator shows at most as many items consumed as produced. *)
Theorem tallies_without_reset (evs : list Session.event) (st : Threads.t) :
  forallb no_reset evs = true ->
  Threads.along fresh_reads evs Threads.init = true ->
  Threads.run evs Threads.init = Some st ->
  FullSimulatorC.produced_count (Threads.sim st) +
    total (owed Session.Producer) (Threads.workers st) =
  FullSimulatorC.consumed_count (Threads.sim st) +
    total (owed Session.Consumer) (Threads.workers st) + stored st /\
  FullSimulatorC.consumed_count (Threads.sim st) +
    FullSimulatorC.occupancy (Threads.sim st) +
    total (owed Session.Consumer) (Threads.workers st) <=
  FullSimulatorC.produced_count (Threads.sim st) +
    total (owed Session.Producer) (Threads.workers st) /\
  (total (owed Session.Producer) (Threads.workers st) = 0 ->
   FullSimulatorC.consumed_count (Threads.sim st) <=
   FullSimulatorC.produced_count (Threads.sim st)).
Proof.
  intros Hn Ha Hr. pose proof (run_balance evs _ st Hn Ha Hr) as Hb.
  change (balance Threads.init) with 0 in Hb. unfold balance, stored in *.
  pose proof (occupancy_nonneg (Threads.sim st)).
  pose proof (total_nonneg (owed Session.Consumer) (Threads.workers st)
                (owed_nonneg _)).
  pose proof (total_nonneg held_by (Threads.retired st) held_by_nonneg).
  split; [lia|]. split; [lia|]. intros Hz. lia.
Qed.

Lemma tallies_without_reset_witness :
  let st := threads_after late_call_history Threads.init in
  FullSimulatorC.produced_count (Threads.sim st) +
    total (owed Session.Producer) (Threads.workers st) =
  FullSimulatorC.consumed_count (Threads.sim st) +
    total (owed Session.Consumer) (Threads.workers st) + stored st /\
  FullSimulatorC.consumed_count (Threads.sim st) +
    FullSimulatorC.occupancy (Threads.sim st) +
    total (owed Session.Consumer) (Threads.workers st) <=
  FullSimulatorC.produced_count (Threads.sim st) +
    total (owed Session.Producer) (Threads.workers st) /\
  (total (owed Session.Producer) (Threads.workers st) = 0 ->
   FullSimulatorC.consumed_count (Threads.sim st) <=
   FullSimulatorC.produced_count (Threads.sim st)).
Proof.
  intros st. apply (tallies_without_reset late_call_history st).
  - reflexivity.
  - vm_compute. reflexivity.
  - vm_compute. reflexivity.
Defined.


(** ** The labels follow the thread table, statement by statement *)

Lemma roster_names_distinct (l : list (Session.role * Z)) (i j : nat)
    (x y : Session.role * Z) :
  NoDup l -> l !! i = Some x -> l !! j = Some y ->
  Session.name_of x.1 x.2 = Session.name_of y.1 y.2 -> i = j.
Proof.
  intros Hnd Hi Hj Hn. apply name_of_inj in Hn as [H1 H2].
  apply (NoDup_lookup l i j x Hnd Hi). rewrite Hj. f_equal.
  destruct x, y; simpl in *; congruence.
Qed.

Lemma thread_names_distinct (p c : Z) (st : Threads.t) (i j : nat)
    (wk wk' : Threads.worker) :
  thread_role_pid <$> Threads.workers st = Session.roster p c ->
  Threads.workers st !! i = Some wk -> Threads.workers st !! j = Some wk' ->
  Threads.name wk = Threads.name wk' -> i = j.
Proof.
  intros Hr Hi Hj Hn.
  apply (roster_names_distinct (Session.roster p c) i j
           (thread_role_pid wk) (thread_role_pid wk')).
  - apply roster_NoDup.
  - rewrite <- Hr, list_lookup_fmap, Hi. reflexivity.
  - rewrite <- Hr, list_lookup_fmap, Hj. reflexivity.
  - exact Hn.
Qed.

(** What one statement of a worker does to the thread table and the
    queue of the GUI thread. *)
Lemma statement_announces (now : Z) (wk wk' : Threads.worker) (g g' : Session.t) :
  Threads.statement now wk g = Some (wk', g') ->
  thread_role_pid wk' = thread_role_pid wk /\
  Session.thread_labels g' = Session.thread_labels g /\
  ((exists s ts,
      Threads.w_pc wk = Threads.T_change s Threads.Table /\
      in_change wk' = Some (Threads.state_of s) /\
      Session.thread_states g = Some ts /\
      Session.thread_states g' = Some (<[Threads.name wk := Threads.state_of s]> ts) /\
      Session.gui_q g' = Session.gui_q g) \/
   (exists s,
      in_change wk = Some s /\ in_change wk' = Some s /\
      Session.thread_states g' = Session.thread_states g /\
      Session.gui_q g' = Session.gui_q g) \/
   (exists s,
      in_change wk = Some s /\ in_change wk' = None /\
      Session.thread_states g' = Session.thread_states g /\
      Session.gui_q g' = Session.gui_q g ++ [Session.TSetThread (Threads.name wk) s]) \/
   (exists extra,
      in_change wk = None /\ in_change wk' = None /\
      Forall (fun x => is_set_thread x = false) extra /\
      Session.thread_states g' = Session.thread_states g /\
      Session.gui_q g' = Session.gui_q g ++ extra)).
Proof.
  unfold Threads.statement, in_change.
  destruct (Threads.w_pc wk) as [s [| |]| | | |on| |v| |v| | | | |] eqn:Hpc.
  - destruct (Session.thread_states g) as [ts|] eqn:Hts; [|discriminate]. simpl.
    intros [= <- <-]. split_and!; try done. left. by exists s, ts.
  - intros [= <- <-]. split_and!; try done. right. left. by exists (Threads.state_of s).
  - intros [= <- <-]. split_and!.
    + destruct s; simpl; try done. by destruct (Threads.w_role wk).
    + done.
    + right. right. left. exists (Threads.state_of s). split_and!; try done.
      destruct s; simpl; try done. by destruct (Threads.w_role wk).
  - destruct (FullSimulatorC.stop_event (Session.sim g)); intros [= <- <-];
      (split_and!; try done; do 3 right; exists []; split_and!; try done;
       by rewrite app_nil_r).
  - intros [= <- <-]. split_and!; try done. do 3 right.
    refine (ex_intro _ [_] _). split_and!; try done.
    constructor; [|constructor]. by destruct (Threads.w_role wk).
  - destruct (FullSimulatorC.buffer_model (Session.sim g)) as [m|]; [|discriminate].
    simpl. intros [= <- <-]. split_and!; try done. do 3 right. exists [].
    split_and!; try done. by rewrite app_nil_r.
  - discriminate.
  - intros [= <- <-]. split_and!; try done. do 3 right. exists [].
    split_and!; try done. by rewrite app_nil_r.
  - intros [= <- <-]. split_and!; try done. do 3 right. exists [].
    split_and!; try done; [by destruct (Threads.w_role wk) | by rewrite app_nil_r].
  - intros [= <- <-]. split_and!; try done. do 3 right. exists [].
    split_and!; try done. by rewrite app_nil_r.
  - intros [= <- <-]. split_and!; try done. do 3 right. exists [].
    split_and!; try done. by rewrite app_nil_r.
  - destruct (Threads.w_role wk) eqn:Hrole.
    + intros [= <- <-]. split_and!; try done. do 3 right.
      refine (ex_intro _ [_] _). split_and!; try done. by repeat constructor.
    + destruct (Threads.w_item wk); [|discriminate]. intros [= <- <-].
      split_and!; try done. do 3 right.
      refine (ex_intro _ [_] _). split_and!; try done. by repeat constructor.
  - intros [= <- <-]. split_and!; try done. do 3 right.
    refine (ex_intro _ [_] _). split_and!; try done. by repeat constructor.
  - intros [= <- <-]. split_and!; try done. do 3 right.
    refine (ex_intro _ [_] _). split_and!; try done. by repeat constructor.
  - intros [= <- <-].
    destruct (check_finished_proj g) as (_ & Hb & _ & _).
    destruct (check_finished_gui g) as (He & _ & Hg).
    split_and!; try done. do 3 right. exists [].
    split_and!; try done. by rewrite app_nil_r.
  - discriminate.
Qed.

(** A call of the buffer touches neither the thread table nor the
    queue of the GUI thread. *)
Lemma worker_step_announces (now : Z) (stops : list bool) (wk wk' : Threads.worker)
    (g g' : Session.t) (old old' : list FullSimulatorC.buffer) :
  Threads.worker_step now stops wk g old = Some (wk', (g', old')) ->
  thread_role_pid wk' = thread_role_pid wk /\
  Session.thread_labels g' = Session.thread_labels g /\
  ((exists s ts,
      Threads.w_pc wk = Threads.T_change s Threads.Table /\
      in_change wk' = Some (Threads.state_of s) /\
      Session.thread_states g = Some ts /\
      Session.thread_states g' = Some (<[Threads.name wk := Threads.state_of s]> ts) /\
      Session.gui_q g' = Session.gui_q g) \/
   (exists s,
      in_change wk = Some s /\ in_change wk' = Some s /\
      Session.thread_states g' = Session.thread_states g /\
      Session.gui_q g' = Session.gui_q g) \/
   (exists s,
      in_change wk = Some s /\ in_change wk' = None /\
      Session.thread_states g' = Session.thread_states g /\
      Session.gui_q g' = Session.gui_q g ++ [Session.TSetThread (Threads.name wk) s]) \/
   (exists extra,
      in_change wk = None /\ in_change wk' = None /\
      Forall (fun x => is_set_thread x = false) extra /\
      Session.thread_states g' = Session.thread_states g /\
      Session.gui_q g' = Session.gui_q g ++ extra)).
Proof.
  unfold Threads.worker_step.
  destruct (Threads.w_pc wk) as [s k| | | |on| |v| |v| | | | |] eqn:Hpc;
    try (destruct (Threads.statement now wk g) as [[wk1 g1]|] eqn:Hs; [|discriminate];
         simpl; intros [= <- <- <-];
         pose proof (statement_announces _ _ _ _ _ Hs) as Ha; rewrite Hpc in Ha; exact Ha).
  unfold Threads.inside_step, in_change. rewrite Hpc.
  destruct on as [i|];
    (match goal with
     | |- context [?o ≫= _] => destruct o as [m|]; [|discriminate]
     end; simpl;
     destruct (Threads.w_role wk) eqn:Hrole;
     [destruct (FullSimulatorC.call (Put (Threads.label wk) stops) m) as [r m'];
      destruct r as [[[]|]|]
     |destruct (FullSimulatorC.call (Get stops) m) as [r m'];
      destruct r as [[|[x|]]|]];
     try discriminate; intros [= <- <- <-];
     (split_and!; [unfold thread_role_pid; simpl; by rewrite Hrole | done |];
      do 3 right; exists []; split_and!; try done; simpl; by rewrite ?app_nil_r)).
Qed.

Lemma replay_snoc (n : string) (q : list Session.task) (x : Session.task)
    (cur : option Session.widget) :
  replay n (q ++ [x]) cur = relabel n (replay n q cur) x.
Proof. unfold replay. by rewrite foldl_app. Qed.

Lemma relabel_same (n s : string) (w : Session.widget) :
  relabel n (Some w) (Session.TSetThread n s) = Some (Session.label_for n s).
Proof. unfold relabel. by rewrite String.eqb_refl. Qed.

Lemma relabel_other (n m s : string) (cur : option Session.widget) :
  m <> n -> relabel n cur (Session.TSetThread m s) = cur.
Proof.
  intros Hne. unfold relabel. destruct cur; [|reflexivity].
  destruct (String.eqb_spec m n); [contradiction | reflexivity].
Qed.

Lemma step_worker_thread_labels (p c : Z) (mv : Session.move) (st st' : Threads.t) :
  thread_labels_inv p c st ->
  Threads.step_worker mv st = Some st' ->
  thread_labels_inv p c st'.
Proof.
  intros [Hr (ts & labels & Hts & Hlab & Hall)]. destruct mv as [[idx now] stops].
  unfold Threads.step_worker. simpl.
  destruct (Threads.workers st !! idx) as [wk|] eqn:Hl; [|discriminate]. simpl.
  destruct (Threads.worker_step now stops wk (Threads.gui st) (Threads.retired st))
    as [[wk' [g' old']]|] eqn:Hs; [|discriminate]. simpl. intros [= <-].
  destruct (worker_step_announces _ _ _ _ _ _ _ _ Hs) as (Hrp & Hlab' & Hcases).
  assert (Threads.name wk' = Threads.name wk) as Hname.
  { unfold Threads.name. unfold thread_role_pid in Hrp. by injection Hrp as -> ->. }
  assert (idx < length (Threads.workers st))%nat as Hlt by (eapply lookup_lt_Some, Hl).
  destruct (Hall idx wk Hl) as (s0 & Hrep0 & Htab0).
  constructor; simpl.
  { rewrite list_fmap_insert, Hrp, <- Hr. apply list_insert_id.
    by rewrite list_lookup_fmap, Hl. }
  rewrite Hlab', Hlab.
  assert (forall idx2 wk2, idx2 <> idx -> Threads.workers st !! idx2 = Some wk2 ->
            Threads.name wk2 <> Threads.name wk) as Hother.
  { intros idx2 wk2 Hne Hl2 Hn. apply Hne.
    apply (thread_names_distinct p c st idx2 idx wk2 wk Hr Hl2 Hl Hn). }
  destruct Hcases as [(s & ts0 & Hpc & Hin' & Hts0 & Hts' & Hq) |
                      [(s & Hin & Hin' & Hts' & Hq) |
                       [(s & Hin & Hin' & Hts' & Hq) |
                        (extra & Hin & Hin' & Hquiet & Hts' & Hq)]]].
  - (* the table is written *)
    rewrite Hts in Hts0. injection Hts0 as <-.
    exists (<[Threads.name wk := Threads.state_of s]> ts), labels.
    split_and!; try done. intros idx2 wk2 Hl2. rewrite Hq.
    destruct (decide (idx2 = idx)) as [->|Hne].
    + rewrite list_lookup_insert_eq in Hl2 by exact Hlt. injection Hl2 as <-.
      rewrite Hname. exists s0. split; [exact Hrep0|].
      rewrite Hin'. simpl. apply lookup_insert_eq.
    + rewrite list_lookup_insert_ne in Hl2 by congruence.
      destruct (Hall idx2 wk2 Hl2) as (s2 & Hrep2 & Htab2).
      exists s2. split; [exact Hrep2|].
      rewrite lookup_insert_ne; [exact Htab2|].
      intros Heq. by apply (Hother idx2 wk2 Hne Hl2).
  - (* the timeline is written *)
    exists ts, labels. rewrite Hts', Hq. split_and!; try done.
    intros idx2 wk2 Hl2. destruct (decide (idx2 = idx)) as [->|Hne].
    + rewrite list_lookup_insert_eq in Hl2 by exact Hlt. injection Hl2 as <-.
      rewrite Hname. exists s0. split; [exact Hrep0|].
      rewrite Hin'. rewrite Hin in Htab0. exact Htab0.
    + rewrite list_lookup_insert_ne in Hl2 by congruence. exact (Hall idx2 wk2 Hl2).
  - (* the task is put *)
    exists ts, labels. rewrite Hts', Hq. split_and!; try done.
    intros idx2 wk2 Hl2. rewrite replay_snoc.
    destruct (decide (idx2 = idx)) as [->|Hne].
    + rewrite list_lookup_insert_eq in Hl2 by exact Hlt. injection Hl2 as <-.
      rewrite Hname, Hrep0, relabel_same. exists s.
      split; [reflexivity|]. rewrite Hin'. rewrite Hin in Htab0. exact Htab0.
    + rewrite list_lookup_insert_ne in Hl2 by congruence.
      destruct (Hall idx2 wk2 Hl2) as (s2 & Hrep2 & Htab2).
      exists s2. split; [|exact Htab2].
      rewrite relabel_other; [exact Hrep2|].
      intros Heq. by apply (Hother idx2 wk2 Hne Hl2).
  - (* anything else *)
    exists ts, labels. rewrite Hts', Hq. split_and!; try done.
    intros idx2 wk2 Hl2. rewrite replay_app.
    destruct (decide (idx2 = idx)) as [->|Hne].
    + rewrite list_lookup_insert_eq in Hl2 by exact Hlt. injection Hl2 as <-.
      rewrite Hname, Hrep0, (replay_quiet _ _ _ Hquiet). exists s0.
      split; [reflexivity|]. rewrite Hin'. rewrite Hin in Htab0. exact Htab0.
    + rewrite list_lookup_insert_ne in Hl2 by congruence.
      destruct (Hall idx2 wk2 Hl2) as (s2 & Hrep2 & Htab2).
      exists s2. rewrite Hrep2, (replay_quiet _ _ _ Hquiet). by split.
Qed.

Lemma run_workers_thread_labels (p c : Z) (mvs : list Session.move)
    (st st' : Threads.t) :
  thread_labels_inv p c st ->
  Threads.run_workers mvs st = Some st' ->
  thread_labels_inv p c st'.
Proof.
  revert st. induction mvs as [|mv mvs IH]; intros st Hinv; simpl.
  - intros [= <-]. exact Hinv.
  - destruct (Threads.step_worker mv st) as [st1|] eqn:E; [|discriminate]. simpl.
    apply IH. by apply (step_worker_thread_labels p c mv st).
Qed.

Lemma thread_labels_ext (p c : Z) (st st' : Threads.t) :
  Threads.workers st' = Threads.workers st ->
  Session.thread_states (Threads.gui st') = Session.thread_states (Threads.gui st) ->
  Session.thread_labels (Threads.gui st') = Session.thread_labels (Threads.gui st) ->
  Session.gui_q (Threads.gui st') = Session.gui_q (Threads.gui st) ->
  thread_labels_inv p c st -> thread_labels_inv p c st'.
Proof.
  intros Hw Hts Hl Hq [H1 H2]. constructor; rewrite ?Hw, ?Hts, ?Hl, ?Hq; assumption.
Qed.

(** A tick handles a part of the queue: what is left to handle brings
    the labels where the whole queue would have brought them. *)
Lemma process_replay (room : nat) (g g' : Session.t)
    (labels : gmap string Session.widget) :
  Session.thread_labels g = Some labels ->
  Session.process room g = Some g' ->
  Session.thread_states g' = Session.thread_states g /\
  exists labels',
    Session.thread_labels g' = Some labels' /\
    forall n, replay n (Session.gui_q g') (labels' !! n) =
              replay n (Session.gui_q g) (labels !! n).
Proof.
  revert g labels. induction room as [|room IH]; intros g labels Hlab; simpl.
  - intros [= <-]. split; [reflexivity|]. by exists labels.
  - destruct (Session.gui_q g) as [|x rest] eqn:Hq.
    + intros [= <-]. split; [reflexivity|]. exists labels. by rewrite Hq.
    + destruct (Session.do_task x (Session.set_gui_q rest g)) as [g1|] eqn:Hx;
        [|discriminate]. simpl. intros Hp.
      destruct (do_task_labels x rest labels g g1 Hlab Hx)
        as (labels1 & Hlab1 & Hrel & Hq1 & Hts1 & _).
      destruct (IH g1 labels1 Hlab1 Hp) as (Hts' & labels' & Hlab' & Hrep).
      split; [congruence|]. exists labels'. split; [exact Hlab'|].
      intros n. rewrite Hrep, Hq1, Hrel. reflexivity.
Qed.

Lemma handle_thread_labels (p c : Z) (e : Session.event) (st st' : Threads.t) :
  thread_labels_inv p c st ->
  Session.is_start e = false ->
  Threads.handle e st = Some st' ->
  thread_labels_inv p c st'.
Proof.
  intros Hinv Hns. destruct e as [mode p0 c0| |during| |idx now stops]; simpl;
    [discriminate | | | |].
  - intros [= <-]. apply (thread_labels_ext p c st); simpl; try reflexivity;
      [| | |exact Hinv]; unfold Session.stop;
      destruct (FullSimulatorC.running (Session.sim (Threads.gui st))); try reflexivity;
      match goal with
      | |- context [Session.check_finished ?x] =>
          destruct (check_finished_proj x) as (_ & Hb & _ & _);
          destruct (check_finished_gui x) as (He & _ & Hg)
      end; rewrite ?Hb, ?He, ?Hg; reflexivity.
  - unfold Threads.reset_all.
    match goal with
    | |- context [Threads.run_workers during ?x] =>
        destruct (Threads.run_workers during x) as [st1|] eqn:Hrun; [|discriminate];
        assert (thread_labels_inv p c x) as Hinv0
          by (apply (thread_labels_ext p c st); [reflexivity .. | exact Hinv])
    end.
    simpl. intros [= <-].
    apply (thread_labels_ext p c st1); try reflexivity.
    by apply (run_workers_thread_labels p c during _ st1 Hinv0).
  - destruct (Session.process_gui_queue (Threads.gui st)) as [g|] eqn:Hp; [|discriminate].
    simpl. intros [= <-]. destruct Hinv as [Hr (ts & labels & Hts & Hlab & Hall)].
    destruct (process_replay _ _ _ labels Hlab Hp) as (Hts' & labels' & Hlab' & Hrep).
    constructor; simpl; [exact Hr|].
    exists ts, labels'. split_and!; [congruence | exact Hlab' |].
    intros idx wk Hl. rewrite Hrep. exact (Hall idx wk Hl).
  - by apply step_worker_thread_labels.
Qed.

Lemma run_thread_labels (p c : Z) (evs : list Session.event) (st st' : Threads.t) :
  thread_labels_inv p c st ->
  forallb (fun e => negb (Session.is_start e)) evs = true ->
  Threads.run evs st = Some st' ->
  thread_labels_inv p c st'.
Proof.
  revert st. induction evs as [|e evs IH]; intros st Hinv Hns; simpl.
  - intros [= <-]. exact Hinv.
  - simpl in Hns. apply andb_prop in Hns as [He Hns]. apply negb_true_iff in He.
    destruct (Threads.handle e st) as [st1|] eqn:E; [|discriminate]. simpl.
    apply IH; [|exact Hns]. eapply handle_thread_labels; eauto.
Qed.

Lemma start_thread_labels (mode : string) (p c : Z) :
  thread_labels_inv p c (Threads.start mode p c Threads.init).
Proof.
  unfold Threads.start. simpl.
  destruct (new_buffer_five mode) as (m & Hm & Hq). rewrite Hm.
  constructor; simpl.
  { rewrite <- list_fmap_compose.
    induction (Session.roster p c) as [|[r x] l IH];
      [reflexivity | simpl; f_equal; exact IH]. }
  eexists _, _. split_and!; try reflexivity.
  intros idx wk. rewrite list_lookup_fmap.
  destruct (Session.roster p c !! idx) as [[r x]|] eqn:Hl; simpl; [|discriminate].
  intros [= <-]. unfold Threads.name, in_change. simpl.
  assert ((r, x) ∈ Session.roster p c) as Hin by (apply list_elem_of_lookup; eauto).
  exists "Ready". split.
  - apply (foldl_insert_lookup_fn
             (fun rp : Session.role * Z => Session.name_of rp.1 rp.2)
             (fun rp : Session.role * Z =>
                (Session.name_of rp.1 rp.2 +:+ ": Ready", NEON.muted))
             (Session.roster p c) ∅ (r, x)); [|exact Hin].
    intros y Hy. by rewrite Hy.
  - apply foldl_insert_lookup. right. apply list_elem_of_fmap. by exists (r, x).
Qed.

(** X14: in the first session, handling the tasks that are still in
    the queue brings the label of every worker to the text
    [name: state] and the colour of the state the worker has last
    announced.  The thread table holds that state too, except while
    the worker stands between the write of the table (line 550) and
    the put of the task (line 554), when the table is one state ahead.
    So whenever the queue is empty, the label of every worker that is
    not inside [thread_state_change] shows its entry of the thread
    table. *)
Theorem labels_follow_thread_table (mode : string) (p c : Z) (evs : list Session.event)
    (st : Threads.t) (idx : nat) (wk : Threads.worker) :
  forallb (fun e => negb (Session.is_start e)) evs = true ->
  Threads.run (Session.EvStart mode p c :: evs) Threads.init = Some st ->
  Threads.workers st !! idx = Some wk ->
  exists s labels,
    Session.thread_labels (Threads.gui st) = Some labels /\
    replay (Threads.name wk) (Session.gui_q (Threads.gui st))
      (labels !! Threads.name wk) =
      Some (Session.label_for (Threads.name wk) s) /\
    (Session.gui_q (Threads.gui st) = [] ->
     labels !! Threads.name wk = Some (Session.label_for (Threads.name wk) s)) /\
    (in_change wk = None ->
     Session.thread_states (Threads.gui st) ≫= (fun ts => ts !! Threads.name wk) =
       Some s) /\
    (forall s', in_change wk = Some s' ->
     Session.thread_states (Threads.gui st) ≫= (fun ts => ts !! Threads.name wk) =
       Some s').
Proof.
  intros Hns Hrun Hl. simpl in Hrun.
  destruct (run_thread_labels p c evs _ st (start_thread_labels mode p c) Hns Hrun)
    as [_ (ts & labels & Hts & Hlab & Hall)].
  destruct (Hall idx wk Hl) as (s & Hrep & Htab).
  exists s, labels. rewrite Hts. simpl. split_and!; try done.
  - intros Hq. rewrite Hq in Hrep. exact Hrep.
  - intros Hin. rewrite Hin in Htab. exact Htab.
  - intros s' Hin. rewrite Hin in Htab. exact Htab.
Qed.

Lemma labels_follow_thread_table_witness :
  let st := threads_after (Session.EvStart "Monitor" 1 1 :: announced_history)
              Threads.init in
  let wk := Threads.Worker Session.Producer 1 1 None
              (Threads.T_change Threads.Waiting Threads.Timeline) in
  exists s labels,
    Session.thread_labels (Threads.gui st) = Some labels /\
    replay (Threads.name wk) (Session.gui_q (Threads.gui st))
      (labels !! Threads.name wk) =
      Some (Session.label_for (Threads.name wk) s) /\
    (Session.gui_q (Threads.gui st) = [] ->
     labels !! Threads.name wk = Some (Session.label_for (Threads.name wk) s)) /\
    (in_change wk = None ->
     Session.thread_states (Threads.gui st) ≫= (fun ts => ts !! Threads.name wk) =
       Some s) /\
    (forall s', in_change wk = Some s' ->
     Session.thread_states (Threads.gui st) ≫= (fun ts => ts !! Threads.name wk) =
       Some s').
Proof.
  intros st wk.
  apply (labels_follow_thread_table "Monitor" 1 1 announced_history st 0 wk).
  - reflexivity.
  - vm_compute. reflexivity.
  - vm_compute. reflexivity.
Defined.
